(** * Polling, editing and export logic of the video studio front end

  A shallow embedding of the client-side state machines found in
  [frontend/components/video-studio-dashboard.tsx] and
  [frontend/components/video-editor.tsx]:

  - the dashboard task list, its bulk-status polling tick
    ([checkAndUpdateTasks]) and the React effect that (re)arms the
    interval whenever the task list changes;
  - the editor's shot-status polling tick ([checkShotStatus]), the
    regeneration and caption handlers, and the export pipeline
    ([handleExportVideo], [checkExportStatus], the export dialog).

  React state is threaded explicitly: every handler is a function from
  the component state and the outcome of the requests it awaits to the
  new state together with the list of effects it performed, in program
  order. *)

From Stdlib Require Import DecimalString.
From stdpp Require Import base numbers list strings.

(** ** The browser runtime as seen by the handlers *)

Module Browser.

(** What awaiting [fetch(...)] followed by [response.json()] can give:
    the promise rejects, the response has [ok = false], or a JSON body
    arrives.  The body is [None] when it is falsy ([null]); every
    handler guards its body with [if (data)]. *)
Inductive Response (A : Type) : Type :=
| NetworkError
| NotOk
| Json (body : option A).
Global Arguments NetworkError {A}.
Global Arguments NotOk {A}.
Global Arguments Json {A} body.

(** [true] on the two outcomes that make the handler throw. *)
Definition failed {A} (r : Response A) : bool :=
  match r with
  | Json _ => false
  | _ => true
  end.

(** The three [useRef] slots that hold interval handles. *)
Inductive Timer := TaskPolling | ShotPolling | ExportPolling.

(** Content of such a slot: never assigned, holding the handle of a live
    interval, or holding a handle that [clearInterval] has already
    cancelled (the code never resets a ref after clearing it). *)
Inductive Handle := Unset | Armed | Cleared.

(** Truthiness of [ref.current]. *)
Definition isSet (h : Handle) : bool :=
  match h with Unset => false | _ => true end.

(** Will the interval fire again? *)
Definition armed (h : Handle) : bool :=
  match h with Armed => true | _ => false end.

(** [if (ref.current) clearInterval(ref.current)]. *)
Definition clearInterval (h : Handle) : Handle :=
  match h with Armed => Cleared | _ => h end.

(** Effects a handler performs, in program order; [Req] is the type of
    the HTTP requests of the component. *)
Inductive Effect (Req : Type) : Type :=
| Send (r : Req)
| ClearInterval (t : Timer)
| SetInterval (t : Timer) (ms : Z)
| ConsoleError (msg : string)
| ToastSuccess (msg : string)
| ToastError (msg : string).
Global Arguments Send {Req} r.
Global Arguments ClearInterval {Req} t.
Global Arguments SetInterval {Req} t ms.
Global Arguments ConsoleError {Req} msg.
Global Arguments ToastSuccess {Req} msg.
Global Arguments ToastError {Req} msg.

Definition isSend {Req} (e : Effect Req) : bool :=
  match e with Send _ => true | _ => false end.

Definition isClear {Req} (t : Timer) (e : Effect Req) : bool :=
  match e, t with
  | ClearInterval TaskPolling, TaskPolling
  | ClearInterval ShotPolling, ShotPolling
  | ClearInterval ExportPolling, ExportPolling => true
  | _, _ => false
  end.

Definition isSetInterval {Req} (e : Effect Req) : bool :=
  match e with SetInterval _ _ => true | _ => false end.

Definition isConsoleError {Req} (e : Effect Req) : bool :=
  match e with ConsoleError _ => true | _ => false end.

Definition isToastError {Req} (e : Effect Req) : bool :=
  match e with ToastError _ => true | _ => false end.

(** The effects of [if (ref.current) clearInterval(ref.current)]. *)
Definition clearEffects {Req} (t : Timer) (h : Handle) : list (Effect Req) :=
  if isSet h then [ClearInterval t] else [].

(** JavaScript strings that the code inspects character by character
    are sequences of UTF-16 code units. *)
Definition jsstr := list N.

(** [Array.prototype.findIndex]; [None] stands for [-1]. *)
Fixpoint findIndex {A} (p : A -> bool) (l : list A) : option nat :=
  match l with
  | [] => None
  | x :: l' => if p x then Some 0 else S <$> findIndex p l'
  end.

(** [Array.prototype.find]. *)
Fixpoint find {A} (p : A -> bool) (l : list A) : option A :=
  match l with
  | [] => None
  | x :: l' => if p x then Some x else find p l'
  end.

End Browser.

(** ** Dashboard: the task list and its polling loop *)

Module Dashboard.
Import Browser.

(** [interface VideoTask] (the fields the polling logic reads, and two
    that tell one server snapshot of a task from another). *)
Record VideoTask := {
  id : string;
  status : string;
  progress : Z;
  error : option string
}.

(** The only request of the polling loop:
    [POST /api/v1/video-tasks/bulk-status] with the ids to refresh. *)
Inductive Request := BulkStatus (ids : list string).

(** The component state the polling logic touches; [pollingInterval] is
    the content of the ref of that name. *)
Record State := {
  tasks : list VideoTask;
  hasIncompleteTask : bool;
  pollingInterval : Handle
}.

(** The filter predicate of [checkAndUpdateTasks]. *)
Definition isIncomplete (task : VideoTask) : bool :=
  (status task =? "PENDING")%string
  || (status task =? "IN_PROGRESS")%string
  || (status task =? "PROCESSING")%string
  || (status task =? "GENERATING_SCRIPT")%string
  || (status task =? "GENERATING_MEDIA")%string.

(** [task.status === 'COMPLETED' || task.status === 'FAILED']. *)
Definition isTerminal (task : VideoTask) : bool :=
  (status task =? "COMPLETED")%string || (status task =? "FAILED")%string.

(** One iteration of [data.forEach] inside the [setTasks] updater. *)
Definition applyUpdate (updatedTasks : list VideoTask) (updatedTask : VideoTask)
  : list VideoTask :=
  match findIndex (fun t => (id t =? id updatedTask)%string) updatedTasks with
  | Some index => <[index := updatedTask]> updatedTasks
  | None => updatedTasks
  end.

(** The [setTasks] updater: copy [prevTasks], then apply every entry of
    the response in order. *)
Definition mergeTasks (prevTasks data : list VideoTask) : list VideoTask :=
  foldl applyUpdate prevTasks data.

(** The effect "Set up polling when tasks change".  It runs after every
    render in which [tasks] is a new array; the cleanup returned by its
    previous run clears the old interval first. *)
Definition pollingEffect (s : State) : State * list (Effect Request) :=
  let cleanup := clearEffects TaskPolling (pollingInterval s) in
  let h := clearInterval (pollingInterval s) in
  let incompleteTasks := List.filter (fun task => negb (isTerminal task)) (tasks s) in
  if (0 <? length incompleteTasks)%nat
  then ({| tasks := tasks s; hasIncompleteTask := true; pollingInterval := Armed |},
        cleanup ++ clearEffects TaskPolling h ++ [SetInterval TaskPolling 5000])
  else ({| tasks := tasks s; hasIncompleteTask := false; pollingInterval := h |},
        cleanup ++ clearEffects TaskPolling h).

(** The component right after [tasks] has been assigned (initial load by
    [fetchTasks], reload, deletion). *)
Definition loadTasks (ts : list VideoTask) (s : State) : State * list (Effect Request) :=
  pollingEffect {| tasks := ts; hasIncompleteTask := hasIncompleteTask s;
                   pollingInterval := pollingInterval s |}.

Definition initial : State :=
  {| tasks := []; hasIncompleteTask := false; pollingInterval := Unset |}.

(** [checkAndUpdateTasks] with the outcome [r] of the bulk-status request.
    When the updater runs, [tasks] becomes a fresh array, the component
    re-renders and [pollingEffect] runs on the merged list. *)
Definition checkAndUpdateTasks (s : State) (r : Response (list VideoTask))
  : State * list (Effect Request) :=
  let incompleteTasks := List.filter isIncomplete (tasks s) in
  if (0 <? length incompleteTasks)%nat then
    let s1 := {| tasks := tasks s; hasIncompleteTask := true;
                 pollingInterval := pollingInterval s |} in
    let request := Send (BulkStatus (map id incompleteTasks)) in
    match r with
    | NetworkError | NotOk => (s1, [request; ConsoleError "Error updating tasks:"])
    | Json None => (s1, [request])
    | Json (Some data) =>
        let allComplete := forallb isTerminal data in
        let s2 := {| tasks := mergeTasks (tasks s) data;
                     hasIncompleteTask := negb allComplete;
                     pollingInterval := if allComplete
                                        then clearInterval (pollingInterval s)
                                        else pollingInterval s |} in
        let cleared := if allComplete
                       then clearEffects TaskPolling (pollingInterval s) else [] in
        let '(s3, rerender) := pollingEffect s2 in
        (s3, request :: cleared ++ rerender)
    end
  else
    ({| tasks := tasks s; hasIncompleteTask := false;
        pollingInterval := clearInterval (pollingInterval s) |},
     clearEffects TaskPolling (pollingInterval s)).

(** The interval fires the callback only while it is armed. *)
Definition tick (s : State) (r : Response (list VideoTask))
  : State * list (Effect Request) :=
  if armed (pollingInterval s) then checkAndUpdateTasks s r else (s, []).

(** What happens to the component over time: the task list is assigned
    anew ([fetchTasks] after a creation, a deletion), or an interval
    period elapses and the bulk-status request, if made, is answered. *)
Inductive Event :=
| Reload (ts : list VideoTask)
| Period (r : Response (list VideoTask)).

Definition step (s : State) (e : Event) : State * list (Effect Request) :=
  match e with
  | Reload ts => loadTasks ts s
  | Period r => tick s r
  end.

(** A run of the component. *)
Fixpoint run (s : State) (es : list Event) : State * list (Effect Request) :=
  match es with
  | [] => (s, [])
  | e :: es' =>
      let '(s1, e1) := step s e in
      let '(s2, e2) := run s1 es' in
      (s2, e1 ++ e2)
  end.

(** The statuses of the data model: the five in-flight ones and the two
    terminal ones. *)
Definition knownStatus (task : VideoTask) : bool := isIncomplete task || isTerminal task.

Definition responseKnown (r : Response (list VideoTask)) : bool :=
  match r with
  | Json (Some data) => forallb knownStatus data
  | _ => true
  end.

Definition eventKnown (e : Event) : bool :=
  match e with
  | Reload ts => forallb knownStatus ts
  | Period r => responseKnown r
  end.

(** A bulk-status response reports every tracked task terminal: all its
    entries are terminal and every id that was asked for is answered. *)
Definition reportsAllTerminal (ts data : list VideoTask) : bool :=
  forallb isTerminal data
  && forallb (fun t => existsb (fun u => (id u =? id t)%string) data)
             (List.filter isIncomplete ts).

(** What the loop maintains on the data model's statuses: the interval
    is armed exactly while an in-flight task is listed. *)
Definition consistent (s : State) : Prop :=
  forallb knownStatus (tasks s) = true
  /\ armed (pollingInterval s) = existsb isIncomplete (tasks s).

(** What the loop maintains on arbitrary status strings: while an
    in-flight task is listed the interval is armed. *)
Definition tracking (s : State) : Prop :=
  existsb isIncomplete (tasks s) = true -> armed (pollingInterval s) = true.

End Dashboard.

(** ** JavaScript string primitives used by the caption editor *)

Module JsString.
Import Browser.

(** ECMAScript [WhiteSpace] and [LineTerminator] code points, the
    characters [String.prototype.trim] strips. *)
Definition isWhiteSpace (c : N) : bool :=
  ((c =? 0x09) || (c =? 0x0A) || (c =? 0x0B) || (c =? 0x0C) || (c =? 0x0D)
   || (c =? 0x20) || (c =? 0xA0) || (c =? 0x1680)
   || ((0x2000 <=? c) && (c <=? 0x200A))
   || (c =? 0x2028) || (c =? 0x2029) || (c =? 0x202F) || (c =? 0x205F)
   || (c =? 0x3000) || (c =? 0xFEFF))%N.

Fixpoint trimStart (s : jsstr) : jsstr :=
  match s with
  | [] => []
  | c :: s' => if isWhiteSpace c then trimStart s' else s
  end.

Definition trimEnd (s : jsstr) : jsstr := reverse (trimStart (reverse s)).

(** [String.prototype.trim]. *)
Definition trim (s : jsstr) : jsstr := trimEnd (trimStart s).

(** Truthiness of a string: it is not empty. *)
Definition truthy (s : jsstr) : bool :=
  match s with [] => false | _ => true end.

(** [s.split(sep)] for a one-character separator. *)
Fixpoint split (sep : N) (s : jsstr) : list jsstr :=
  match s with
  | [] => [[]]
  | c :: s' =>
      if (c =? sep)%N then [] :: split sep s'
      else match split sep s' with
           | [] => [[c]]
           | line :: lines => (c :: line) :: lines
           end
  end.

(** [lines.join(sep)]. *)
Fixpoint join (sep : N) (lines : list jsstr) : jsstr :=
  match lines with
  | [] => []
  | [line] => line
  | line :: rest => line ++ sep :: join sep rest
  end.

Definition newline : N := 0x0A%N.

(** A line the caption editor regards as blank: every character of it
    is white space (the empty line included). *)
Definition isBlank (s : jsstr) : bool := forallb isWhiteSpace s.

(** Code units of an ASCII literal. *)
Fixpoint ofString (s : string) : jsstr :=
  match s with
  | EmptyString => []
  | String a s' => Ascii.N_of_ascii a :: ofString s'
  end.

End JsString.

(** ** Editor: shots, regeneration, captions and export *)

Module Editor.
Import Browser JsString.

(** [interface Shot] without the purely presentational [mood],
    [timestamp] and [special_effects]. *)
Record Shot := {
  order : Z;
  captions : list jsstr;
  ai_prompt : jsstr;
  video_url : string;
  voiceover_url : string;
  voiceover_script : jsstr;
  video_status : option string;
  audio_status : option string;
  starting_image_url : option string
}.

(** The [task] prop of [VideoEditor]; [language] is
    [task.project_data.language], and an absent or empty
    [background_music_url] is [None]. *)
Record VideoTask := {
  task_id : string;
  task_shots : list Shot;
  background_music_url : option string;
  language : option string
}.

Inductive EditType := video | audio | caption | image.

Definition editTypeName (t : EditType) : string :=
  match t with
  | video => "video" | audio => "audio" | caption => "caption" | image => "image"
  end.

(** One keyframe and one track of the export request. *)
Record Keyframe := { timestamp : Z; duration : Z; url : string }.
Record Track := { track_id : string; track_type : string; keyframes : list Keyframe }.

(** Body of [POST /api/v1/regenerate-shot/:task_id]. *)
Record RegenerateBody := {
  shot_order : Z;
  regenerate_video : bool;
  regenerate_audio : bool;
  new_video_prompt : option jsstr;
  new_voiceover_text : option jsstr;
  new_voiceover_url : option string;
  body_starting_image_url : option string;
  body_language : string
}.

(** The HTTP requests of the editor. *)
Inductive Request :=
| GetTask (task : string)
| GenerateImage (prompt : jsstr) (style : string)
| UpdateShot (task : string) (shotOrder : Z) (startingImageUrl : option string)
| GenerateVoiceover (task : string) (text : jsstr) (lang : string)
| RegenerateShot (task : string) (body : RegenerateBody)
| UpdateCaptions (task : string) (shotOrder : Z) (newCaptions : list jsstr)
| ExportVideo (tracks : list Track) (video_id : string)
| GetExportStatus (task : string).

Definition isRegenerateShot (e : Effect Request) : bool :=
  match e with Send (RegenerateShot _ _) => true | _ => false end.

Definition isUpdateCaptions (e : Effect Request) : bool :=
  match e with Send (UpdateCaptions _ _ _) => true | _ => false end.

(** State of [VideoEditor] that the editing handlers and the shot
    polling use: their [useState] cells and the [pollingInterval] ref.
    [intervalShot] is the [selectedShot] that the callback run by the
    interval sees: [setInterval] is handed the [checkShotStatus] of the
    render in which Regenerate was clicked, and that callback keeps the
    selection of its render however the selection changes later. *)
Record EditState := {
  selectedShot : option Shot;
  shots : list Shot;
  showEditDialog : bool;
  editType : option EditType;
  editPrompt : jsstr;
  isRegenerating : bool;
  hasRegeneratingShot : bool;
  isGeneratingImage : bool;
  currentStyle : string;
  pollingInterval : Handle;
  intervalShot : option Shot
}.

(** State of [VideoEditor] that belongs to the export flow. *)
Record ExportState := {
  isExporting : bool;
  exportStatus : option string;
  exportPollingInterval : Handle;
  showExportDialog : bool;
  exportedVideoUrl : option string;
  exportTaskId : option string
}.

(** [status === 'regenerating'] on an optional field. *)
Definition isRegeneratingStatus (st : option string) : bool :=
  match st with
  | Some v => (v =? "regenerating")%string
  | None => false
  end.

Definition shotIncomplete (shot : Shot) : bool :=
  isRegeneratingStatus (video_status shot) || isRegeneratingStatus (audio_status shot).

(** The reselection idiom shared by the handlers:
    [updatedShots.find(s => s.order === selectedShot.order)], keeping the
    old selection when nothing matches. *)
Definition reselect (updatedShots : list Shot) (sel : Shot) : Shot :=
  match find (fun s => (order s =? order sel)%Z) updatedShots with
  | Some updatedSelectedShot => updatedSelectedShot
  | None => sel
  end.

(** [task.project_data.language || 'english']. *)
Definition languageOf (task : VideoTask) : string :=
  match language task with
  | Some l => if (l =? "")%string then "english" else l
  | None => "english"
  end.

(** *** Shot-status polling *)

(** The selection after a status answer: the callback looks up the order
    of the shot it captured, [intervalShot], in the answer and selects
    the shot found; without a captured shot or a match the selection
    stays as it is. *)
Definition polledSelection (updatedShots : list Shot) (s : EditState)
  : option Shot :=
  match intervalShot s with
  | Some captured =>
      match find (fun shot => (order shot =? order captured)%Z) updatedShots with
      | Some updatedSelectedShot => Some updatedSelectedShot
      | None => selectedShot s
      end
  | None => selectedShot s
  end.

(** [checkShotStatus] as the interval runs it; the body of a successful
    response is [data.shots]. *)
Definition checkShotStatus (task : VideoTask) (s : EditState) (r : Response (list Shot))
  : EditState * list (Effect Request) :=
  let request := Send (GetTask (task_id task)) in
  match r with
  | NetworkError | NotOk => (s, [request; ConsoleError "Error checking shot status:"])
  | Json None => (s, [request])
  | Json (Some updatedShots) =>
      let hasIncomplete := existsb shotIncomplete updatedShots in
      let stop := negb hasIncomplete && isSet (pollingInterval s) in
      ({| selectedShot := polledSelection updatedShots s;
          shots := updatedShots;
          showEditDialog := showEditDialog s;
          editType := editType s;
          editPrompt := editPrompt s;
          isRegenerating := isRegenerating s;
          hasRegeneratingShot := hasIncomplete;
          isGeneratingImage := isGeneratingImage s;
          currentStyle := currentStyle s;
          pollingInterval := if stop then clearInterval (pollingInterval s)
                             else pollingInterval s;
          intervalShot := intervalShot s |},
       request :: (if stop
                   then [ClearInterval ShotPolling;
                         ToastSuccess "Content regenerated successfully"]
                   else []))
  end.

(** The shot interval fires the callback only while it is armed. *)
Definition shotTick (task : VideoTask) (s : EditState) (r : Response (list Shot))
  : EditState * list (Effect Request) :=
  if armed (pollingInterval s) then checkShotStatus task s r else (s, []).

(** *** Caption edits *)

(** [editPrompt.split('\n').filter(caption => caption.trim())]. *)
Definition newCaptions (prompt : jsstr) : list jsstr :=
  List.filter (fun caption => truthy (trim caption)) (split newline prompt).

(** The caption list in the words of the specification: the lines of
    the input, cut at newlines, without the lines that are blank. *)
Definition nonBlankLines (prompt : jsstr) : list jsstr :=
  List.filter (fun line => negb (isBlank line)) (split newline prompt).

(** The [finally] block of [handleCaptionUpdate]. *)
Definition captionFinally (s : EditState) : EditState :=
  {| selectedShot := selectedShot s;
     shots := shots s;
     showEditDialog := false;
     editType := None;
     editPrompt := [];
     isRegenerating := false;
     hasRegeneratingShot := hasRegeneratingShot s;
     isGeneratingImage := isGeneratingImage s;
     currentStyle := currentStyle s;
     pollingInterval := pollingInterval s;
     intervalShot := intervalShot s |}.

(** [setShots(updatedShots)] followed by the reselection. *)
Definition replaceShots (updatedShots : list Shot) (sel : Shot) (s : EditState)
  : EditState :=
  {| selectedShot := Some (reselect updatedShots sel);
     shots := updatedShots;
     showEditDialog := showEditDialog s;
     editType := editType s;
     editPrompt := editPrompt s;
     isRegenerating := isRegenerating s;
     hasRegeneratingShot := hasRegeneratingShot s;
     isGeneratingImage := isGeneratingImage s;
     currentStyle := currentStyle s;
     pollingInterval := pollingInterval s;
     intervalShot := intervalShot s |}.

(** [handleCaptionUpdate]; [r] is the outcome of the
    [PUT .../update-captions] request, its body being [data.shots]. *)
Definition handleCaptionUpdate (task : VideoTask) (s : EditState)
    (r : Response (list Shot)) : EditState * list (Effect Request) :=
  match selectedShot s with
  | None => (s, [])
  | Some sel =>
      if negb (truthy (editPrompt s)) then (s, [])
      else
        let request :=
          Send (UpdateCaptions (task_id task) (order sel) (newCaptions (editPrompt s))) in
        match r with
        | NetworkError | NotOk =>
            (captionFinally s,
             [request; ConsoleError "Error updating captions:";
              ToastError "Failed to update captions"])
        | Json None => (captionFinally s, [request])
        | Json (Some updatedShots) =>
            (captionFinally (replaceShots updatedShots sel s),
             [request; ToastSuccess "Captions updated successfully"])
        end
  end.

(** *** Regeneration *)

(** The state right after the dialog is dismissed in [handleRegenerate]. *)
Definition regenerateStarted (s : EditState) : EditState :=
  {| selectedShot := selectedShot s;
     shots := shots s;
     showEditDialog := false;
     editType := None;
     editPrompt := [];
     isRegenerating := true;
     hasRegeneratingShot := true;
     isGeneratingImage := isGeneratingImage s;
     currentStyle := currentStyle s;
     pollingInterval := pollingInterval s;
     intervalShot := intervalShot s |}.

(** End of [handleRegenerate]: [ok] tells whether the [try] block ran to
    its end (interval armed) or the [catch] block ran.  The callback
    handed to [setInterval] is the one of the render the click happened
    in, whose selection is the selection the handler started with. *)
Definition regenerateDone (ok : bool) (s : EditState) : EditState :=
  {| selectedShot := selectedShot s;
     shots := shots s;
     showEditDialog := showEditDialog s;
     editType := editType s;
     editPrompt := editPrompt s;
     isRegenerating := false;
     hasRegeneratingShot := if ok then hasRegeneratingShot s else false;
     isGeneratingImage := isGeneratingImage s;
     currentStyle := currentStyle s;
     pollingInterval := if ok then Armed else pollingInterval s;
     intervalShot := if ok then selectedShot s else intervalShot s |}.

Definition regenerateBody (task : VideoTask) (sel : Shot) (ty : EditType)
    (prompt : jsstr) (voiceover : option string) : RegenerateBody :=
  {| shot_order := order sel;
     regenerate_video := match ty with video | image => true | _ => false end;
     regenerate_audio := match ty with audio => true | _ => false end;
     new_video_prompt := match ty with video => Some prompt | _ => None end;
     new_voiceover_text := match ty with audio => Some prompt | _ => None end;
     new_voiceover_url := voiceover;
     body_starting_image_url := starting_image_url sel;
     body_language := languageOf task |}.

Definition regenerateFailure (ty : EditType) : list (Effect Request) :=
  [ConsoleError "Error regenerating shot:";
   ToastError ("Failed to regenerate " +:+ editTypeName ty)].

(** The part of [handleRegenerate] from the regenerate-shot request on. *)
Definition submitRegeneration (task : VideoTask) (sel : Shot) (ty : EditType)
    (prompt : jsstr) (voiceover : option string) (s1 : EditState)
    (rr : Response unit) : EditState * list (Effect Request) :=
  let request := Send (RegenerateShot (task_id task)
                         (regenerateBody task sel ty prompt voiceover)) in
  match rr with
  | NetworkError | NotOk =>
      (regenerateDone false s1, request :: regenerateFailure ty)
  | Json _ =>
      (regenerateDone true s1,
       request :: clearEffects ShotPolling (pollingInterval s1)
         ++ [SetInterval ShotPolling 3000;
             ToastSuccess ("Started regenerating " +:+ editTypeName ty)])
  end.

(** Did the voiceover step of an edit of kind [ty] go through?  Only
    audio edits have one. *)
Definition voiceoverOk (ty : EditType) (rv : Response (option string)) : bool :=
  match ty, rv with
  | audio, Json (Some _) => true
  | audio, _ => false
  | _, _ => true
  end.

(** The URL the voiceover step hands to the regeneration request. *)
Definition voiceoverUrlOf (ty : EditType) (rv : Response (option string)) : option string :=
  match ty, rv with
  | audio, Json (Some u) => u
  | _, _ => None
  end.

(** The requests an edit of kind [ty] issues before the regeneration
    request. *)
Definition voiceoverEffects (task : VideoTask) (ty : EditType) (prompt : jsstr)
  : list (Effect Request) :=
  match ty with
  | audio => [Send (GenerateVoiceover (task_id task) prompt (languageOf task))]
  | _ => []
  end.

(** [handleRegenerate].  [rv] is the outcome of the voiceover request of
    [generate_voiceover] (body: [result.url]), awaited for audio edits
    only; [rr] that of the regenerate-shot request; [rc] that of the
    caption update, used when the edit is a caption edit. *)
Definition handleRegenerate (task : VideoTask) (s : EditState)
    (rv : Response (option string)) (rr : Response unit) (rc : Response (list Shot))
  : EditState * list (Effect Request) :=
  match selectedShot s, editType s with
  | Some sel, Some ty =>
      if negb (truthy (editPrompt s)) then (s, [])
      else
        match ty with
        | caption => handleCaptionUpdate task s rc
        | audio =>
            let s1 := regenerateStarted s in
            let voice := Send (GenerateVoiceover (task_id task) (editPrompt s)
                                 (languageOf task)) in
            match rv with
            | NetworkError | NotOk | Json None =>
                (regenerateDone false s1, voice :: regenerateFailure audio)
            | Json (Some voiceover_url) =>
                let '(s2, effs) :=
                  submitRegeneration task sel audio (editPrompt s) voiceover_url s1 rr in
                (s2, voice :: effs)
            end
        | _ => submitRegeneration task sel ty (editPrompt s) None (regenerateStarted s) rr
        end
  | _, _ => (s, [])
  end.

(** [handleGenerateImage]: [ri] is the outcome of the generate-image
    request and [ru] that of the update-shot request (body:
    [updatedData.shots], an array as the [Shot[]] state it is stored in
    declares).  The body of [ri] is [result.url], which is [None] when
    the answer is an object without [url]: the handler does not look at
    it and the update-shot request is then sent without
    [startingImageUrl].  A [null] body makes [result.url] throw. *)
Definition imageFinally (s : EditState) : EditState :=
  {| selectedShot := selectedShot s;
     shots := shots s;
     showEditDialog := showEditDialog s;
     editType := editType s;
     editPrompt := editPrompt s;
     isRegenerating := isRegenerating s;
     hasRegeneratingShot := hasRegeneratingShot s;
     isGeneratingImage := false;
     currentStyle := currentStyle s;
     pollingInterval := pollingInterval s;
     intervalShot := intervalShot s |}.

Definition imageFailure : list (Effect Request) :=
  [ConsoleError "Error generating image:"; ToastError "Failed to generate starting image"].

Definition handleGenerateImage (task : VideoTask) (s : EditState)
    (ri : Response (option string)) (ru : Response (list Shot))
  : EditState * list (Effect Request) :=
  match selectedShot s with
  | None => (s, [])
  | Some sel =>
      if negb (truthy (editPrompt s)) then (s, [])
      else
        let generate := Send (GenerateImage (editPrompt s) (currentStyle s)) in
        match ri with
        | NetworkError | NotOk | Json None => (imageFinally s, generate :: imageFailure)
        | Json (Some image_url) =>
            let update := Send (UpdateShot (task_id task) (order sel) image_url) in
            match ru with
            | NetworkError | NotOk => (imageFinally s, generate :: update :: imageFailure)
            | Json None => (imageFinally s, [generate; update])
            | Json (Some updatedShots) =>
                (imageFinally (replaceShots updatedShots sel s),
                 [generate; update; ToastSuccess "Starting image generated successfully"])
            end
        end
  end.

End Editor.

(** ** Timeline and preview player *)

Module Timeline.
Import Browser Editor.

Definition fps : Z := 30.

(** [totalDuration]: the [reduce] over [task.shots] adds 5 per shot. *)
Definition totalDuration (task : VideoTask) : Z :=
  foldl (fun acc _ => acc + 5)%Z 0%Z (task_shots task).

(** Start and end second written into the label [shot.timestamp] by the
    same [reduce]: they come from the position in the array. *)
Definition labelStart (index : nat) : Z := (Z.of_nat index * 5)%Z.
Definition labelEnd (index : nat) : Z := (labelStart index + 5)%Z.






(** [renderTimelineTrack]: [start = shot.order * 5], [end = start + 5],
    and a click seeks the player to frame [start * 30]. *)
Definition trackStart (shot : Shot) : Z := (order shot * 5)%Z.
Definition trackEnd (shot : Shot) : Z := (trackStart shot + 5)%Z.
Definition seekFrame (shot : Shot) : Z := (trackStart shot * 30)%Z.

(** The [Sequence] the preview player mounts for a shot:
    [from = shot.order * 5 * 30] and [durationInFrames = 5 * 30]. *)
Definition sequenceFrom (shot : Shot) : Z := (order shot * 5 * 30)%Z.
Definition sequenceFrames : Z := (5 * 30)%Z.

(** Is frame [f] inside the sequence of [shot]? *)
Definition showsAt (f : Z) (shot : Shot) : bool :=
  ((sequenceFrom shot <=? f) && (f <? sequenceFrom shot + sequenceFrames))%Z.

(** The order invariant of the data model: the orders of [N] shots are
    the numbers [0 .. N-1], each carried by one shot. *)
Definition ordersContiguous (l : list Shot) : Prop :=
  map order l ≡ₚ seqZ 0 (Z.of_nat (length l)).

(** The stronger form in which the array is also sorted: the shot at
    position [i] has order [i]. *)
Definition ordersPositional (l : list Shot) : Prop :=
  map order l = seqZ 0 (Z.of_nat (length l)).

End Timeline.

(** ** Export pipeline *)

Module ExportFlow.
Import Browser Editor.

(** The video track of [handleExportVideo]. *)
Definition videoTrack (l : list Shot) : Track :=
  {| track_id := "video-track";
     track_type := "video";
     keyframes := imap (fun index shot =>
                          {| timestamp := Z.of_nat index * 5000;
                             duration := 5000;
                             url := video_url shot |}) l |}.

(** The voiceover track; [apiUrl] is [NEXT_PUBLIC_VIDEO_API_URL]. *)
Definition voiceoverTrack (apiUrl : string) (l : list Shot) : Track :=
  {| track_id := "voiceover-track";
     track_type := "audio";
     keyframes := imap (fun index shot =>
                          {| timestamp := Z.of_nat index * 5000;
                             duration := 5000;
                             url := apiUrl +:+ voiceover_url shot |}) l |}.

Definition musicTrack (l : list Shot) (music : string) : Track :=
  {| track_id := "background-music";
     track_type := "audio";
     keyframes := [ {| timestamp := 0;
                       duration := Z.of_nat (length l) * 5000;
                       url := music |} ] |}.

(** Keyframes built like those of the two shot tracks, the first one
    standing at position [k]; the tracks are the case [k = 0]. *)
Definition framesFrom (mkUrl : Shot -> string) (k : nat) (l : list Shot)
  : list Keyframe :=
  imap (fun index shot =>
          {| timestamp := Z.of_nat (k + index) * 5000;
             duration := 5000;
             url := mkUrl shot |}) l.

(** [tracks] as sent in the export request. *)
Definition buildTracks (apiUrl : string) (task : VideoTask) (l : list Shot) : list Track :=
  [videoTrack l; voiceoverTrack apiUrl l]
  ++ match background_music_url task with
     | Some music => [musicTrack l music]
     | None => []
     end.

(** Sum of the keyframe durations of a track, and the instant its last
    keyframe ends. *)
Definition trackDuration (t : Track) : Z :=
  foldr (fun k acc => duration k + acc)%Z 0%Z (keyframes t).

Definition trackEnd (t : Track) : Z :=
  foldr (fun k acc => Z.max (timestamp k + duration k) acc)%Z 0%Z (keyframes t).

(** Body of the export-video and export-status responses. *)
Record ExportResult := { result_task_id : string; result_status : string }.
Record ExportData := {
  data_status : string;
  data_video_url : option string;
  data_error : option string
}.

(** The [catch] block of [handleExportVideo]. *)
Definition exportStartFailed (s : ExportState) (taskId : option string) : ExportState :=
  {| isExporting := false;
     exportStatus := None;
     exportPollingInterval := exportPollingInterval s;
     showExportDialog := false;
     exportedVideoUrl := exportedVideoUrl s;
     exportTaskId := taskId |}.

Definition exportStartFailure : list (Effect Request) :=
  [ConsoleError "Error exporting video:"; ToastError "Failed to start video export"].

(** [handleExportVideo] on the current [shots]. *)
Definition handleExportVideo (apiUrl : string) (task : VideoTask) (l : list Shot)
    (s : ExportState) (r : Response ExportResult)
  : ExportState * list (Effect Request) :=
  let request := Send (ExportVideo (buildTracks apiUrl task l) (task_id task)) in
  match r with
  | NetworkError | NotOk | Json None =>
      (exportStartFailed s (exportTaskId s), request :: exportStartFailure)
  | Json (Some result) =>
      if (result_status result =? "EXPORTING")%string then
        ({| isExporting := true;
            exportStatus := Some "QUEUED";
            exportPollingInterval := Armed;
            showExportDialog := true;
            exportedVideoUrl := exportedVideoUrl s;
            exportTaskId := Some (result_task_id result) |},
         request :: clearEffects ExportPolling (exportPollingInterval s)
           ++ [SetInterval ExportPolling 3000; ToastSuccess "Video export started"])
      else
        (exportStartFailed s (Some (result_task_id result)), request :: exportStartFailure)
  end.

(** [exportData.error || 'Unknown error']. *)
Definition errorText (e : option string) : string :=
  match e with
  | Some msg => if (msg =? "")%string then "Unknown error" else msg
  | None => "Unknown error"
  end.

(** Truthiness of [exportData.video_url]. *)
Definition hasUrl (u : option string) : bool :=
  match u with
  | Some v => negb (v =? "")%string
  | None => false
  end.

(** [checkExportStatus] with the outcome of the export-status request. *)
Definition checkExportStatus (task : VideoTask) (s : ExportState)
    (r : Response ExportData) : ExportState * list (Effect Request) :=
  let request := Send (GetExportStatus (task_id task)) in
  match r with
  | NetworkError | NotOk =>
      (s, [request; ConsoleError "Error checking export status:"])
  | Json None => (s, [request])
  | Json (Some exportData) =>
      if (data_status exportData =? "COMPLETED")%string && hasUrl (data_video_url exportData)
      then
        ({| isExporting := false;
            exportStatus := Some (data_status exportData);
            exportPollingInterval := clearInterval (exportPollingInterval s);
            showExportDialog := showExportDialog s;
            exportedVideoUrl := data_video_url exportData;
            exportTaskId := exportTaskId s |},
         request :: clearEffects ExportPolling (exportPollingInterval s)
           ++ [ToastSuccess "Video exported successfully"])
      else if (data_status exportData =? "FAILED")%string then
        ({| isExporting := false;
            exportStatus := Some (data_status exportData);
            exportPollingInterval := clearInterval (exportPollingInterval s);
            showExportDialog := false;
            exportedVideoUrl := exportedVideoUrl s;
            exportTaskId := exportTaskId s |},
         request :: clearEffects ExportPolling (exportPollingInterval s)
           ++ [ToastError ("Export failed: " +:+ errorText (data_error exportData))])
      else
        ({| isExporting := isExporting s;
            exportStatus := Some (data_status exportData);
            exportPollingInterval := exportPollingInterval s;
            showExportDialog := showExportDialog s;
            exportedVideoUrl := exportedVideoUrl s;
            exportTaskId := exportTaskId s |},
         [request])
  end.

(** The export interval fires the callback only while it is armed. *)
Definition exportTick (task : VideoTask) (s : ExportState) (r : Response ExportData)
  : ExportState * list (Effect Request) :=
  if armed (exportPollingInterval s) then checkExportStatus task s r else (s, []).

Fixpoint exportRun (task : VideoTask) (s : ExportState) (rs : list (Response ExportData))
  : ExportState * list (Effect Request) :=
  match rs with
  | [] => (s, [])
  | r :: rs' =>
      let '(s1, e1) := exportTick task s r in
      let '(s2, e2) := exportRun task s1 rs' in
      (s2, e1 ++ e2)
  end.

(** The Close button of the export dialog. *)
Definition closeExportDialog (s : ExportState) : ExportState * list (Effect Request) :=
  ({| isExporting := isExporting s;
      exportStatus := if isExporting s then exportStatus s else None;
      exportPollingInterval := exportPollingInterval s;
      showExportDialog := false;
      exportedVideoUrl := if isExporting s then exportedVideoUrl s else None;
      exportTaskId := exportTaskId s |},
   []).

(** [onOpenChange={setShowExportDialog}]: dismissing the dialog by other
    means than the button. *)
Definition onOpenChange (open : bool) (s : ExportState) : ExportState * list (Effect Request) :=
  ({| isExporting := isExporting s;
      exportStatus := exportStatus s;
      exportPollingInterval := exportPollingInterval s;
      showExportDialog := open;
      exportedVideoUrl := exportedVideoUrl s;
      exportTaskId := exportTaskId s |},
   []).

(** The cleanup of the export polling effect, run when [VideoEditor]
    unmounts. *)
Definition unmount (s : ExportState) : ExportState * list (Effect Request) :=
  ({| isExporting := isExporting s;
      exportStatus := exportStatus s;
      exportPollingInterval := clearInterval (exportPollingInterval s);
      showExportDialog := showExportDialog s;
      exportedVideoUrl := exportedVideoUrl s;
      exportTaskId := exportTaskId s |},
   clearEffects ExportPolling (exportPollingInterval s)).

End ExportFlow.

(** ** The task store behind the single-shot endpoints *)

Module TaskStore.
Import Browser Editor.

(** Modelled from the spec: the handlers of [update-captions],
    [update-shot] and of the task status endpoint are not among the
    sources at hand.  The specification makes a shot "a child of Task;
    regenerated independently of sibling shots" and lets a request carry
    "the field being changed (video prompt / voiceover text / captions /
    starting image)": a single-shot mutation rewrites payload fields of
    the shot with the given order and returns the whole list. *)
Definition mutateShot (o : Z) (f : Shot -> Shot) (stored : list Shot) : list Shot :=
  map (fun shot => if (order shot =? o)%Z then f shot else shot) stored.

(** Modelled from the spec: the caption payload of a shot is replaced. *)
Definition withCaptions (cs : list jsstr) (shot : Shot) : Shot :=
  {| order := order shot;
     captions := cs;
     ai_prompt := ai_prompt shot;
     video_url := video_url shot;
     voiceover_url := voiceover_url shot;
     voiceover_script := voiceover_script shot;
     video_status := video_status shot;
     audio_status := audio_status shot;
     starting_image_url := starting_image_url shot |}.

(** Modelled from the spec: the starting image of a shot is replaced. *)
Definition withStartingImage (img : string) (shot : Shot) : Shot :=
  {| order := order shot;
     captions := captions shot;
     ai_prompt := ai_prompt shot;
     video_url := video_url shot;
     voiceover_url := voiceover_url shot;
     voiceover_script := voiceover_script shot;
     video_status := video_status shot;
     audio_status := audio_status shot;
     starting_image_url := Some img |}.

(** Modelled from the spec: progress of a regeneration, "idle ->
    regenerating -> {completed, failed}", on the video and audio
    payloads of a shot and their sub-statuses. *)
Definition withRegeneration (prompt script : jsstr) (videoUrl voiceoverUrl : string)
    (videoStatus audioStatus : option string) (shot : Shot) : Shot :=
  {| order := order shot;
     captions := captions shot;
     ai_prompt := prompt;
     video_url := videoUrl;
     voiceover_url := voiceoverUrl;
     voiceover_script := script;
     video_status := videoStatus;
     audio_status := audioStatus;
     starting_image_url := starting_image_url shot |}.

(** Modelled from the spec: the three kinds of single-shot mutation the
    editor can observe. *)
Inductive Mutation :=
| CaptionUpdate (cs : list jsstr)
| ShotUpdate (img : string)
| RegenerationStatus (prompt script : jsstr) (videoUrl voiceoverUrl : string)
    (videoStatus audioStatus : option string).

(** Modelled from the spec: the list the store returns after mutation
    [m] of the shot with order [o]. *)
Definition mutate (o : Z) (m : Mutation) (stored : list Shot) : list Shot :=
  match m with
  | CaptionUpdate cs => mutateShot o (withCaptions cs) stored
  | ShotUpdate img => mutateShot o (withStartingImage img) stored
  | RegenerationStatus prompt script videoUrl voiceoverUrl videoStatus audioStatus =>
      mutateShot o (withRegeneration prompt script videoUrl voiceoverUrl
                      videoStatus audioStatus) stored
  end.

(** Modelled from the spec: a response to a single-shot request either
    fails, has no body, or carries the list the store returns. *)
Definition answers (r : Response (list Shot)) (updated : list Shot) : Prop :=
  match r with
  | Json (Some l) => l = updated
  | _ => True
  end.

End TaskStore.

(** ** Concrete data used in the examples *)

Module Samples.
Import Browser JsString Editor.

Definition taskA (st : string) : Dashboard.VideoTask :=
  {| Dashboard.id := "a"; Dashboard.status := st;
     Dashboard.progress := 40; Dashboard.error := None |}.

Definition taskB (st : string) : Dashboard.VideoTask :=
  {| Dashboard.id := "b"; Dashboard.status := st;
     Dashboard.progress := 100; Dashboard.error := None |}.

Definition mkShot (o : Z) (clip : string) : Shot :=
  {| order := o;
     captions := [ofString "Hello"];
     ai_prompt := ofString "a sunrise";
     video_url := clip;
     voiceover_url := "/audio.mp3";
     voiceover_script := ofString "Good morning";
     video_status := None;
     audio_status := None;
     starting_image_url := None |}.

Definition demoTask : VideoTask :=
  {| task_id := "t1";
     task_shots := [mkShot 0 "v0.mp4"; mkShot 1 "v1.mp4"];
     background_music_url := Some "music.mp3";
     language := None |}.

(** An editor with the first shot selected and a dialog of kind [ty]
    holding [prompt]. *)
Definition editing (ty : EditType) (prompt : jsstr) : EditState :=
  {| selectedShot := Some (mkShot 0 "v0.mp4");
     shots := task_shots demoTask;
     showEditDialog := true;
     editType := Some ty;
     editPrompt := prompt;
     isRegenerating := false;
     hasRegeneratingShot := false;
     isGeneratingImage := false;
     currentStyle := "realistic";
     pollingInterval := Unset;
     intervalShot := None |}.

(** An export in flight, with its dialog open. *)
Definition exporting : ExportState :=
  {| isExporting := true;
     exportStatus := Some "EXPORTING";
     exportPollingInterval := Armed;
     showExportDialog := true;
     exportedVideoUrl := None;
     exportTaskId := Some "e1" |}.

Definition failedExport : ExportFlow.ExportData :=
  {| ExportFlow.data_status := "FAILED";
     ExportFlow.data_video_url := None;
     ExportFlow.data_error := Some "render crashed" |}.

End Samples.

(** ** Dashboard: loading, deleting, selecting and searching projects *)

Module DashboardView.
Import Browser JsString.

(** The requests of the dashboard: the polling one, the listing of
    [fetchTasks] and the deletion of [handleDelete]. *)
Inductive Request :=
| Poll (r : Dashboard.Request)
| ListTasks
| DeleteTask (taskId : string).

(** The effects of the polling code among those of the whole component. *)
Definition liftPoll (e : Effect Dashboard.Request) : Effect Request :=
  match e with
  | Send r => Send (Poll r)
  | ClearInterval t => ClearInterval t
  | SetInterval t ms => SetInterval t ms
  | ConsoleError msg => ConsoleError msg
  | ToastSuccess msg => ToastSuccess msg
  | ToastError msg => ToastError msg
  end.

(** The polling state together with the loading flag, the [task_id] of
    the URL ([None] when absent or empty) and the selected task. *)
Record State := {
  poll : Dashboard.State;
  isLoading : bool;
  selectedTaskId : option string;
  selectedTask : option Dashboard.VideoTask
}.

(** The effect on [selectedTaskId, tasks]:
    [tasks.find(t => t.id === selectedTaskId) || null]. *)
Definition selectionOf (taskId : option string) (ts : list Dashboard.VideoTask)
  : option Dashboard.VideoTask :=
  match taskId with
  | Some i => if (i =? "")%string then None
              else find (fun t => (Dashboard.id t =? i)%string) ts
  | None => None
  end.

(** [setTasks(ts)]: the list is a new array, so the selection effect and
    the polling effect both run. *)
Definition assignTasks (ts : list Dashboard.VideoTask) (s : State)
  : State * list (Effect Request) :=
  let '(p, effs) := Dashboard.loadTasks ts (poll s) in
  ({| poll := p; isLoading := isLoading s;
      selectedTaskId := selectedTaskId s;
      selectedTask := selectionOf (selectedTaskId s) ts |},
   map liftPoll effs).

Definition loaded (s : State) : State :=
  {| poll := poll s; isLoading := false;
     selectedTaskId := selectedTaskId s; selectedTask := selectedTask s |}.

(** [fetchTasks] with the outcome of the listing request. *)
Definition fetchTasks (s : State) (r : Response (list Dashboard.VideoTask))
  : State * list (Effect Request) :=
  match r with
  | NetworkError | NotOk =>
      let '(s1, effs) := assignTasks [] s in
      (loaded s1,
       [Send ListTasks; ConsoleError "Error fetching tasks:";
        ToastError "Failed to load video projects. Please try again later."] ++ effs)
  | Json None =>
      let '(s1, effs) := assignTasks [] s in (loaded s1, Send ListTasks :: effs)
  | Json (Some data) =>
      let '(s1, effs) := assignTasks data s in (loaded s1, Send ListTasks :: effs)
  end.

(** [handleDelete(taskId)]; only [response.ok] is looked at. *)
Definition handleDelete (taskId : string) (s : State) (r : Response unit)
  : State * list (Effect Request) :=
  match r with
  | NetworkError | NotOk =>
      (s, [Send (DeleteTask taskId); ConsoleError "Error deleting project:";
           ToastError "Failed to delete project"])
  | Json _ =>
      let kept := List.filter (fun task => negb (Dashboard.id task =? taskId)%string)
                    (Dashboard.tasks (poll s)) in
      let '(s1, effs) := assignTasks kept s in
      (s1, [Send (DeleteTask taskId); ToastSuccess "Project deleted successfully"] ++ effs)
  end.

(** Does the tick answered by [r] run the [setTasks] updater? *)
Definition tickReplacesTasks (p : Dashboard.State)
    (r : Response (list Dashboard.VideoTask)) : bool :=
  armed (Dashboard.pollingInterval p)
  && existsb Dashboard.isIncomplete (Dashboard.tasks p)
  && match r with Json (Some _) => true | _ => false end.

(** An interval period seen from the whole component: the polling tick,
    and the selection effect when the tick replaced the list. *)
Definition period (s : State) (r : Response (list Dashboard.VideoTask))
  : State * list (Effect Request) :=
  let '(p, effs) := Dashboard.tick (poll s) r in
  ({| poll := p; isLoading := isLoading s;
      selectedTaskId := selectedTaskId s;
      selectedTask := if tickReplacesTasks (poll s) r
                      then selectionOf (selectedTaskId s) (Dashboard.tasks p)
                      else selectedTask s |},
   map liftPoll effs).

(** [setSelectedTask(task)]: the state is set and the router is pushed
    to the URL of the task (or to the bare page); once the URL has
    changed the selection effect recomputes the selected task from it. *)
Definition setSelectedTask (task : option Dashboard.VideoTask) (s : State)
  : State * list (Effect Request) :=
  let taskId := match task with
                | Some t => if (Dashboard.id t =? "")%string then None
                            else Some (Dashboard.id t)
                | None => None
                end in
  ({| poll := poll s; isLoading := isLoading s;
      selectedTaskId := taskId;
      selectedTask := selectionOf taskId (Dashboard.tasks (poll s)) |},
   []).

(** The component when it mounts on a URL naming [taskId]. *)
Definition mounted (taskId : option string) : State :=
  {| poll := Dashboard.initial; isLoading := false;
     selectedTaskId := taskId; selectedTask := selectionOf taskId [] |}.

(** What can happen to the dashboard. *)
Inductive Event :=
| Fetched (r : Response (list Dashboard.VideoTask))
| Deleted (taskId : string) (r : Response unit)
| Selected (task : option Dashboard.VideoTask)
| Elapsed (r : Response (list Dashboard.VideoTask)).

Definition step (s : State) (e : Event) : State * list (Effect Request) :=
  match e with
  | Fetched r => fetchTasks s r
  | Deleted taskId r => handleDelete taskId s r
  | Selected task => setSelectedTask task s
  | Elapsed r => period s r
  end.

Fixpoint run (s : State) (es : list Event) : State * list (Effect Request) :=
  match es with
  | [] => (s, [])
  | e :: es' =>
      let '(s1, e1) := step s e in
      let '(s2, e2) := run s1 es' in
      (s2, e1 ++ e2)
  end.

(** *** Cards and search *)

(** [project_data] as the cards and the search read it. *)
Record ProjectData := {
  project_title : option jsstr;
  project_description : option jsstr;
  refined_description : option jsstr
}.

Record Listed := {
  listed_task : Dashboard.VideoTask;
  project_data : option ProjectData
}.

Fixpoint startsWith (s sub : jsstr) : bool :=
  match sub, s with
  | [], _ => true
  | _ :: _, [] => false
  | b :: sub', a :: s' => (a =? b)%N && startsWith s' sub'
  end.

(** [String.prototype.includes]. *)
Fixpoint includes (s sub : jsstr) : bool :=
  startsWith s sub
  || match s with
     | [] => false
     | _ :: s' => includes s' sub
     end.

(** [a || b] on optional strings: the first one that is present and not
    empty, else the second. *)
Definition orElse (a b : option jsstr) : option jsstr :=
  match a with
  | Some (_ :: _) => a
  | _ => b
  end.

(** [truncateText(text, maxLength)]. *)
Definition truncateText (text : option jsstr) (maxLength : Z) : jsstr :=
  match text with
  | None | Some [] => []
  | Some t =>
      if (maxLength <? Z.of_nat (length t))%Z
      then take (Z.to_nat maxLength) t ++ ofString "..."
      else t
  end.

(** The title and the description a card shows. *)
Definition cardTitle (l : Listed) : jsstr :=
  truncateText (orElse (project_data l ≫= project_title)
                  (Some (ofString "Untitled Project"))) 20.

Definition cardDescription (l : Listed) : jsstr :=
  truncateText (orElse (project_data l ≫= refined_description)
                  (project_data l ≫= project_description)) 100.

Section Search.
Variable toLowerCase : jsstr -> jsstr.

(** [field?.toLowerCase().includes(searchQuery.toLowerCase())]. *)
Definition fieldMatches (field : option jsstr) (searchQuery : jsstr) : bool :=
  match field with
  | Some text => includes (toLowerCase text) (toLowerCase searchQuery)
  | None => false
  end.

(** [filteredTasks]. *)
Definition filteredTasks (tasks : list Listed) (searchQuery : jsstr) : list Listed :=
  List.filter
    (fun task =>
       fieldMatches (project_data task ≫= project_title) searchQuery
       || fieldMatches (project_data task ≫= project_description) searchQuery)
    tasks.

(** What [renderContent] shows. *)
Inductive Content :=
| Spinner
| EmptyState (message : string)
| Grid (cards : list Listed).

Definition renderContent (loading : bool) (tasks : list Listed) (searchQuery : jsstr)
  : Content :=
  if loading then Spinner
  else if (length tasks =? 0)%nat then
    EmptyState (if (length tasks =? 0)%nat
                then "No video projects found. Create a new project to get started."
                else "No projects match your search criteria.")
  else Grid (filteredTasks tasks searchQuery).
End Search.

End DashboardView.

(** ** Editor: the edit dialog *)

Module EditDialog.
Import Browser JsString Editor.

(** The value the prompt effect puts into the dialog. *)
Definition initialValue (ty : EditType) (shot : Shot) : jsstr :=
  match ty with
  | video => ai_prompt shot
  | audio => voiceover_script shot
  | _ => join newline (captions shot)
  end.

Definition withPrompt (prompt : jsstr) (s : EditState) : EditState :=
  {| selectedShot := selectedShot s;
     shots := shots s;
     showEditDialog := showEditDialog s;
     editType := editType s;
     editPrompt := prompt;
     isRegenerating := isRegenerating s;
     hasRegeneratingShot := hasRegeneratingShot s;
     isGeneratingImage := isGeneratingImage s;
     currentStyle := currentStyle s;
     pollingInterval := pollingInterval s;
     intervalShot := intervalShot s |}.

(** The effect on [showEditDialog, selectedShot, editType]. *)
Definition promptEffect (s : EditState) : EditState :=
  match showEditDialog s, selectedShot s, editType s with
  | true, Some shot, Some ty => withPrompt (initialValue ty shot) s
  | _, _, _ => withPrompt [] s
  end.

Definition withDialog (sel : option Shot) (ty : option EditType) (open : bool)
    (prompt : jsstr) (s : EditState) : EditState :=
  {| selectedShot := sel;
     shots := shots s;
     showEditDialog := open;
     editType := ty;
     editPrompt := prompt;
     isRegenerating := isRegenerating s;
     hasRegeneratingShot := hasRegeneratingShot s;
     isGeneratingImage := isGeneratingImage s;
     currentStyle := currentStyle s;
     pollingInterval := pollingInterval s;
     intervalShot := intervalShot s |}.

(** Click on the edit button of a media card ([renderMediaCard]). *)
Definition clickCardEdit (shot : Shot) (ty : EditType) (s : EditState) : EditState :=
  withDialog (Some shot) (Some ty) true (editPrompt s) s.

(** Click on the "Edit Image" button of a video card. *)
Definition clickEditImage (shot : Shot) (s : EditState) : EditState :=
  withDialog (Some shot) (Some image) true (ai_prompt shot) s.

(** Click on the edit button of a timeline track ([renderEditButton],
    rendered only while a shot is selected). *)
Definition clickTrackEdit (ty : EditType) (s : EditState) : EditState :=
  match selectedShot s with
  | Some _ => withDialog (selectedShot s) (Some ty) true (editPrompt s) s
  | None => s
  end.

(** Cancel button of the dialog, and [onOpenChange(false)]. *)
Definition clickCancel (s : EditState) : EditState :=
  withDialog (selectedShot s) None false (editPrompt s) s.

(** Typing into the text area. *)
Definition typePrompt (text : jsstr) (s : EditState) : EditState := withPrompt text s.

(** The global "Regenerating content..." indicator is rendered when
    [hasRegeneratingShot] holds and no shot of the list is regenerating. *)
Definition showsGlobalIndicator (s : EditState) : bool :=
  hasRegeneratingShot s && negb (existsb shotIncomplete (shots s)).

(** The edit button of a media card is disabled while the card's own
    payload is regenerating; a caption card never is. *)
Definition cardEditDisabled (shot : Shot) (ty : EditType) : bool :=
  match ty with
  | video => isRegeneratingStatus (video_status shot)
  | audio => isRegeneratingStatus (audio_status shot)
  | _ => false
  end.

(** The editor as it mounts on a task. *)
Definition mounted (task : VideoTask) : EditState :=
  {| selectedShot := None;
     shots := task_shots task;
     showEditDialog := false;
     editType := None;
     editPrompt := [];
     isRegenerating := false;
     hasRegeneratingShot := false;
     isGeneratingImage := false;
     currentStyle := "realistic";
     pollingInterval := Unset;
     intervalShot := None |}.

(** What can happen to the editing part of the editor.  The prompt
    effect is an event of its own: it runs after a render in which the
    dialog flag, the selected shot or the edit type changed. *)
Inductive Event :=
| CardEdit (shot : Shot) (ty : EditType)
| EditImage (shot : Shot)
| TrackEdit (ty : EditType)
| Cancel
| Typed (text : jsstr)
| PromptEffect
| Regenerate (rv : Response (option string)) (rr : Response unit)
    (rc : Response (list Shot))
| GenerateImageClicked (ri : Response (option string)) (ru : Response (list Shot))
| ShotPeriod (r : Response (list Shot)).

Definition step (task : VideoTask) (s : EditState) (e : Event)
  : EditState * list (Effect Request) :=
  match e with
  | CardEdit shot ty => (clickCardEdit shot ty s, [])
  | EditImage shot => (clickEditImage shot s, [])
  | TrackEdit ty => (clickTrackEdit ty s, [])
  | Cancel => (clickCancel s, [])
  | Typed text => (typePrompt text s, [])
  | PromptEffect => (promptEffect s, [])
  | Regenerate rv rr rc => handleRegenerate task s rv rr rc
  | GenerateImageClicked ri ru => handleGenerateImage task s ri ru
  | ShotPeriod r => shotTick task s r
  end.

Fixpoint run (task : VideoTask) (s : EditState) (es : list Event)
  : EditState * list (Effect Request) :=
  match es with
  | [] => (s, [])
  | e :: es' =>
      let '(s1, e1) := step task s e in
      let '(s2, e2) := run task s1 es' in
      (s2, e1 ++ e2)
  end.

(** A run of the shot-status loop alone: one answer per period. *)
Fixpoint shotRun (task : VideoTask) (s : EditState) (rs : list (Response (list Shot)))
  : EditState * list (Effect Request) :=
  match rs with
  | [] => (s, [])
  | r :: rs' =>
      let '(s1, e1) := shotTick task s r in
      let '(s2, e2) := shotRun task s1 rs' in
      (s2, e1 ++ e2)
  end.

Definition isSuccessToast (e : Effect Request) : bool :=
  match e with ToastSuccess _ => true | _ => false end.

(** Is the event a click on Regenerate (or Update Captions)? *)
Definition isRegenerateEvent (e : Event) : bool :=
  match e with Regenerate _ _ _ => true | _ => false end.

End EditDialog.

(** ** Editor: the export session *)

Module ExportSession.
Import Browser Editor ExportFlow.

(** The requests of the export flow, with the look-up of an existing
    export that [checkExistingExport] makes. *)
Inductive Request :=
| Flow (r : Editor.Request)
| GetExport (task : string).

Definition liftFlow (e : Effect Editor.Request) : Effect Request :=
  match e with
  | Send r => Send (Flow r)
  | ClearInterval t => ClearInterval t
  | SetInterval t ms => SetInterval t ms
  | ConsoleError msg => ConsoleError msg
  | ToastSuccess msg => ToastSuccess msg
  | ToastError msg => ToastError msg
  end.

(** [checkExistingExport], run when the editor mounts and whenever
    [exportTaskId] changes. *)
Definition checkExistingExport (task : VideoTask) (s : ExportState)
    (r : Response ExportData) : ExportState * list (Effect Request) :=
  let request := Send (GetExport (task_id task)) in
  match r with
  | NetworkError | NotOk =>
      (s, [request; ConsoleError "Error checking existing export:"])
  | Json None => (s, [request])
  | Json (Some exportData) =>
      if (data_status exportData =? "COMPLETED")%string && hasUrl (data_video_url exportData)
      then
        ({| isExporting := isExporting s;
            exportStatus := Some (data_status exportData);
            exportPollingInterval := exportPollingInterval s;
            showExportDialog := true;
            exportedVideoUrl := data_video_url exportData;
            exportTaskId := exportTaskId s |},
         [request])
      else if (data_status exportData =? "EXPORTING")%string
              || (data_status exportData =? "QUEUED")%string
      then
        ({| isExporting := true;
            exportStatus := Some (data_status exportData);
            exportPollingInterval := Armed;
            showExportDialog := showExportDialog s;
            exportedVideoUrl := exportedVideoUrl s;
            exportTaskId := exportTaskId s |},
         request :: map liftFlow (clearEffects ExportPolling (exportPollingInterval s))
           ++ [SetInterval ExportPolling 3000])
      else
        ({| isExporting := isExporting s;
            exportStatus := Some (data_status exportData);
            exportPollingInterval := exportPollingInterval s;
            showExportDialog := showExportDialog s;
            exportedVideoUrl := exportedVideoUrl s;
            exportTaskId := exportTaskId s |},
         [request])
  end.

(** The "Export Video" button: [disabled={isExporting || hasRegeneratingShot}]. *)
Definition clickExport (apiUrl : string) (task : VideoTask) (l : list Shot)
    (regenerating : bool) (s : ExportState) (r : Response ExportResult)
  : ExportState * list (Effect Request) :=
  if isExporting s || regenerating then (s, [])
  else let '(s1, effs) := handleExportVideo apiUrl task l s r in (s1, map liftFlow effs).

(** The export state of a freshly mounted editor. *)
Definition mounted : ExportState :=
  {| isExporting := false;
     exportStatus := None;
     exportPollingInterval := Unset;
     showExportDialog := false;
     exportedVideoUrl := None;
     exportTaskId := None |}.

(** What can happen to the export part of the editor. *)
Inductive Event :=
| ExistingChecked (r : Response ExportData)
| ExportClicked (l : list Shot) (regenerating : bool) (r : Response ExportResult)
| ExportPeriod (r : Response ExportData)
| CloseClicked
| OpenChanged (open : bool).

Definition step (apiUrl : string) (task : VideoTask) (s : ExportState) (e : Event)
  : ExportState * list (Effect Request) :=
  match e with
  | ExistingChecked r => checkExistingExport task s r
  | ExportClicked l regenerating r => clickExport apiUrl task l regenerating s r
  | ExportPeriod r => let '(s1, effs) := exportTick task s r in (s1, map liftFlow effs)
  | CloseClicked => let '(s1, effs) := closeExportDialog s in (s1, map liftFlow effs)
  | OpenChanged open => let '(s1, effs) := onOpenChange open s in (s1, map liftFlow effs)
  end.

Fixpoint run (apiUrl : string) (task : VideoTask) (s : ExportState) (es : list Event)
  : ExportState * list (Effect Request) :=
  match es with
  | [] => (s, [])
  | e :: es' =>
      let '(s1, e1) := step apiUrl task s e in
      let '(s2, e2) := run apiUrl task s1 es' in
      (s2, e1 ++ e2)
  end.

End ExportSession.

(** ** The "Send to Audience" dialog *)

Module Audience.

(** State of [SendToAudience]. *)
Record State := {
  emails : list string;
  newEmail : string;
  useFirstImpress : bool;
  isSending : bool
}.

(** What the component does to the outside: the server action, the
    [onOpenChange] callback of its parent, the console. *)
Inductive Effect :=
| CallSendToAudience (recipients : list string) (firstImpress : bool) (content : string)
| OnOpenChange (open : bool)
| ConsoleError (msg : string).

Definition initial : State :=
  {| emails := []; newEmail := ""; useFirstImpress := false; isSending := false |}.

(** [emails.includes(email)]. *)
Definition listed (l : list string) (email : string) : bool :=
  existsb (fun e => (e =? email)%string) l.

(** [handleAddEmail], also bound to the Enter key. *)
Definition handleAddEmail (s : State) : State :=
  if negb (newEmail s =? "")%string && negb (listed (emails s) (newEmail s))
  then {| emails := emails s ++ [newEmail s]; newEmail := "";
          useFirstImpress := useFirstImpress s; isSending := isSending s |}
  else s.

(** [handleRemoveEmail(email)]. *)
Definition handleRemoveEmail (email : string) (s : State) : State :=
  {| emails := List.filter (fun e => negb (e =? email)%string) (emails s);
     newEmail := newEmail s;
     useFirstImpress := useFirstImpress s; isSending := isSending s |}.

Definition setNewEmail (text : string) (s : State) : State :=
  {| emails := emails s; newEmail := text;
     useFirstImpress := useFirstImpress s; isSending := isSending s |}.

Definition setUseFirstImpress (checked : bool) (s : State) : State :=
  {| emails := emails s; newEmail := newEmail s;
     useFirstImpress := checked; isSending := isSending s |}.

(** [handleSend]; [sent] tells whether the server action resolved. *)
Definition handleSend (emailContent : string) (sent : bool) (s : State)
  : State * list Effect :=
  let call := CallSendToAudience (emails s) (useFirstImpress s) emailContent in
  if sent
  then ({| emails := []; newEmail := newEmail s;
           useFirstImpress := false; isSending := false |},
        [call; OnOpenChange false])
  else ({| emails := emails s; newEmail := newEmail s;
           useFirstImpress := useFirstImpress s; isSending := false |},
        [call; ConsoleError "Error sending to audience:"]).

(** [disabled] of the Send button. *)
Definition sendDisabled (s : State) : bool :=
  isSending s || (negb (useFirstImpress s) && (length (emails s) =? 0)%nat).

(** A click on Send reaches the handler only when the button is enabled. *)
Definition clickSend (emailContent : string) (sent : bool) (s : State)
  : State * list Effect :=
  if sendDisabled s then (s, []) else handleSend emailContent sent s.

(** What the user can do in the dialog. *)
Inductive Event :=
| Typed (text : string)
| AddClicked
| RemoveClicked (email : string)
| Toggled (checked : bool)
| SendClicked (sent : bool).

Definition step (emailContent : string) (s : State) (e : Event) : State * list Effect :=
  match e with
  | Typed text => (setNewEmail text s, [])
  | AddClicked => (handleAddEmail s, [])
  | RemoveClicked email => (handleRemoveEmail email s, [])
  | Toggled checked => (setUseFirstImpress checked s, [])
  | SendClicked sent => clickSend emailContent sent s
  end.

Fixpoint run (emailContent : string) (s : State) (es : list Event)
  : State * list Effect :=
  match es with
  | [] => (s, [])
  | e :: es' =>
      let '(s1, e1) := step emailContent s e in
      let '(s2, e2) := run emailContent s1 es' in
      (s2, e1 ++ e2)
  end.

(** A list of recipients with each address once and no empty address. *)
Definition tidy (s : State) : Prop := NoDup (emails s) /\ ("" ∉ emails s).

(** A call of the server action that reaches somebody, with each
    address once. *)
Definition wellAddressed (e : Effect) : Prop :=
  match e with
  | CallSendToAudience recipients firstImpress _ =>
      NoDup recipients /\ ("" ∉ recipients) /\ (firstImpress = true \/ recipients <> [])
  | _ => True
  end.

End Audience.

(** ** Banner templates *)

Module Templates.
Import Browser JsString.

(** [interface BannerTemplate]. *)
Record BannerTemplate := {
  id : string;
  name : string;
  description : string;
  template : jsstr
}.

(** [bannerTemplates]; [html] gives the text of the imported template
    files, which are not among the sources at hand. *)
Definition bannerTemplates (html : string -> jsstr) : list BannerTemplate :=
  [ {| id := "template1"; name := "Classic Banner";
       description := "A classic banner with gradient overlay and footer";
       template := html "template1" |};
    {| id := "template2"; name := "Modern Dark";
       description := "A modern banner with dark overlay and centered content";
       template := html "template2" |};
    {| id := "template3"; name := "Side Layout";
       description := "A minimal banner with side-by-side layout";
       template := html "template3" |};
    {| id := "template4"; name := "Card Style";
       description := "A modern card-style banner with floating content box";
       template := html "template4" |};
    {| id := "template5"; name := "Bottom Aligned";
       description := "A minimalist banner with bottom-aligned content";
       template := html "template5" |};
    {| id := "template6"; name := "Diagonal Split";
       description := "A creative banner with diagonal split and floating shapes";
       template := html "template6" |};
    {| id := "template7"; name := "Circular Modern";
       description := "A modern design with circular elements and radial layout";
       template := html "template7" |};
    {| id := "template8"; name := "Grid Layout";
       description := "A modern grid-based layout with creative sections";
       template := html "template8" |};
    {| id := "template9"; name := "Wave Design";
       description := "A dynamic banner with wave patterns and floating elements";
       template := html "template9" |};
    {| id := "template10"; name := "Gradient Mesh";
       description := "A geometric banner with gradient mesh and modern accents";
       template := html "template10" |};
    {| id := "template11"; name := "3D Perspective";
       description := "A modern banner with 3D depth effects and layered elements";
       template := html "template11" |};
    {| id := "template12"; name := "Neon Glow";
       description := "A vibrant banner with neon lighting effects and dark theme";
       template := html "template12" |};
    {| id := "v_template1"; name := "Video Template";
       description := "A video template with a white gradient overlay";
       template := html "v_template1" |} ].

(** [getTemplate(templateId)]. *)
Definition getTemplate (html : string -> jsstr) (templateId : string)
  : option BannerTemplate :=
  find (fun t => (id t =? templateId)%string) (bannerTemplates html).

(** The class [\w] of a regular expression without the unicode flag. *)
Definition isWordChar (c : N) : bool :=
  (((0x30 <=? c) && (c <=? 0x39))
   || ((0x41 <=? c) && (c <=? 0x5A))
   || (c =? 0x5F)
   || ((0x61 <=? c) && (c <=? 0x7A)))%N.

Definition openBrace : N := 0x7B%N.
Definition closeBrace : N := 0x7D%N.

(** The longest run of word characters at the start of [s]. *)
Fixpoint wordRun (s : jsstr) : jsstr :=
  match s with
  | c :: s' => if isWordChar c then c :: wordRun s' else []
  | [] => []
  end.

(** A match of [/\{\{(\w+)\}\}/] starting at the first character of [s]:
    the key, and the length of the whole match.  The greedy [\w+] can
    only end at the end of the run of word characters, because a closing
    brace must follow it. *)
Definition placeholderAt (s : jsstr) : option (jsstr * nat) :=
  match s with
  | c1 :: c2 :: rest =>
      if (c1 =? openBrace)%N && (c2 =? openBrace)%N then
        let key := wordRun rest in
        match key, drop (length key) rest with
        | _ :: _, d1 :: d2 :: _ =>
            if (d1 =? closeBrace)%N && (d2 =? closeBrace)%N
            then Some (key, (length key + 4)%nat)
            else None
        | _, _ => None
        end
      else None
  | _ => None
  end.

(** [data[key]?.toString() || ''], where [data key] is the value of
    [data[key]?.toString()], [None] when the property is undefined. *)
Definition valueOf (data : jsstr -> option jsstr) (key : jsstr) : jsstr :=
  default [] (data key).

(** The global replace: matches are looked for from left to right and a
    match is skipped over once replaced; [skip] counts the characters of
    the current match that are still to be passed. *)
Fixpoint scan (data : jsstr -> option jsstr) (skip : nat) (s : jsstr) : jsstr :=
  match s with
  | [] => []
  | c :: s' =>
      match skip with
      | S k => scan data k s'
      | O =>
          match placeholderAt s with
          | Some (key, len) => valueOf data key ++ scan data (len - 1) s'
          | None => c :: scan data 0 s'
          end
      end
  end.

(** [renderTemplate(template, data)]. *)
Definition renderTemplate (template : jsstr) (data : jsstr -> option jsstr) : jsstr :=
  scan data 0 template.

(** No two opening braces in a row. *)
Fixpoint noDoubleOpen (s : jsstr) : bool :=
  match s with
  | c1 :: s' =>
      match s' with
      | c2 :: _ => negb ((c1 =? openBrace)%N && (c2 =? openBrace)%N)
      | [] => true
      end && noDoubleOpen s'
  | [] => true
  end.

(** The text of a placeholder for [key]. *)
Definition placeholder (key : jsstr) : jsstr :=
  [openBrace; openBrace] ++ key ++ [closeBrace; closeBrace].

End Templates.

(** ** Media download helper ([downloadMedia]) *)

Module Download.

(** [DownloadOptions.type]. *)
Inductive MediaType := image | video.

(** [DownloadOptions.content]: a URL string, or an object with the HTML
    to capture. *)
Inductive Content :=
| Url (href : string)
| Page (html url : string).

(** The blob handed to the link: the body of the fetched response, or a
    captured buffer wrapped with a MIME type. *)
Inductive Blob :=
| Body (bytes : string)
| Buffer (bytes : string) (mime : string).

(** A response as far as the helper can see it.  [blob = None] stands for
    a rejected [response.blob()]. *)
Record Response := {
  ok : bool;
  blob : option string
}.

(** What the surroundings answer.  [None] is a rejected promise and
    [windowOpen href = false] a [window.open] that throws.  The DOM calls
    of the success path are taken not to throw. *)
Record World := {
  fetch : string -> option Response;
  captureVideo : string -> option string;
  captureScreenshot : string -> option string;
  windowOpen : string -> bool
}.

(** The three [alert] texts. *)
Inductive Message :=
| OpensInNewTab (ty : MediaType)
| SaveAsInstead (ty : MediaType)
| TryAgain (ty : MediaType).

(** The calls the helper makes, in order.  [Click b name] is the click on
    the hidden link whose [href] is the object URL of [b] and whose
    [download] attribute is [name]; [CleanupAfter] is the [setTimeout]
    that revokes the URL and removes the link. *)
Inductive Effect :=
| CreateObjectURL (b : Blob)
| Click (b : Blob) (download : string)
| CleanupAfter (ms : Z)
| ConsoleError (ty : MediaType)
| WindowOpen (href : string)
| Alert (m : Message).

(** The first half of the [try] block: the blob, or [None] when one of the
    awaited promises rejects.  The response's [ok] is not read. *)
Definition obtain (w : World) (ty : MediaType) (content : Content)
  : option Blob :=
  match content with
  | Url href =>
      match fetch w href with
      | Some response =>
          match blob response with
          | Some bytes => Some (Body bytes)
          | None => None
          end
      | None => None
      end
  | Page html _ =>
      match ty with
      | video =>
          match captureVideo w html with
          | Some videoBuffer => Some (Buffer videoBuffer "video/mp4")
          | None => None
          end
      | image =>
          match captureScreenshot w html with
          | Some imageBuffer => Some (Buffer imageBuffer "image/png")
          | None => None
          end
      end
  end.

(** The body of the [catch] block after [console.error]. *)
Definition fallback (w : World) (ty : MediaType) (content : Content)
  : list Effect :=
  match content with
  | Url href =>
      if windowOpen w href
      then [WindowOpen href; Alert (OpensInNewTab ty)]
      else [WindowOpen href; Alert (SaveAsInstead ty)]
  | Page _ _ => [Alert (TryAgain ty)]
  end.

Definition downloadMedia (w : World) (ty : MediaType) (filename : string)
    (content : Content) : list Effect :=
  match obtain w ty content with
  | Some b => [CreateObjectURL b; Click b filename; CleanupAfter 100]
  | None => ConsoleError ty :: fallback w ty content
  end.

(** Projections of a trace used to state its properties. *)
Definition clicks (t : list Effect) : list (Blob * string) :=
  omap (fun e => match e with Click b n => Some (b, n) | _ => None end) t.

Definition alerts (t : list Effect) : list Message :=
  omap (fun e => match e with Alert m => Some m | _ => None end) t.

Definition opened (t : list Effect) : list string :=
  omap (fun e => match e with WindowOpen h => Some h | _ => None end) t.

Definition mimeOf (ty : MediaType) : string :=
  match ty with video => "video/mp4" | image => "image/png" end.

(** Does the blob fit the request: a fetched body for a URL, a buffer of
    the requested medium's MIME type for captured HTML. *)
Definition fits (ty : MediaType) (content : Content) (b : Blob) : Prop :=
  match content, b with
  | Url _, Body _ => True
  | Page _ _, Buffer _ mime => mime = mimeOf ty
  | _, _ => False
  end.

End Download.

(** ** Slide deck export ([downloadAllSlides]) *)

Module Slides.

(** The fields of a [Slide] the component reads. *)
Record Slide := {
  order : Z;
  content : string;
  media_url : string;
  media_type : string
}.

Inductive Theme := dark | light | color.

(** [themes[theme].canvasBackground]. *)
Definition canvasBackground (theme : Theme) : string :=
  match theme with
  | dark => "#1a2b4b"
  | light => "#f8fafc"
  | color => "#3b82f6"
  end.

(** [backgroundColor || themes[theme].canvasBackground]: an absent or
    empty custom colour falls back to the theme's. *)
Definition backgroundOf (backgroundColor : option string) (theme : Theme)
  : string :=
  match backgroundColor with
  | Some EmptyString | None => canvasBackground theme
  | Some c => c
  end.

(** The calls made on the [jsPDF] document. *)
Inductive PdfOp :=
| AddPage
| AddImage (imgData : string).

(** A [jsPDF] document as the pages before the current one and the images
    drawn on the current page.  A new document has one empty page;
    [addPage] opens a new current page and [addImage] draws on the current
    one. *)
Record Pdf := {
  earlier : list (list string);
  current : list string
}.

Definition newPdf : Pdf := {| earlier := []; current := [] |}.

Definition pages (pdf : Pdf) : list (list string) :=
  earlier pdf ++ [current pdf].

Definition apply (pdf : Pdf) (op : PdfOp) : Pdf :=
  match op with
  | AddPage => {| earlier := earlier pdf ++ [current pdf]; current := [] |}
  | AddImage imgData =>
      {| earlier := earlier pdf; current := current pdf ++ [imgData] |}
  end.

Definition document (ops : list PdfOp) : Pdf := foldl apply newPdf ops.

(** What the call ends in: [pdf.save] of the document built by [ops], or
    the [catch] block ([console.error] and [alert]) with nothing saved. *)
Inductive Outcome :=
| Saved (file : string) (ops : list PdfOp)
| Failed.

Section Rendering.

(** The page the slides are mounted in: [document.querySelector] on
    [data-slide-id], and [html2canvas] followed by [toDataURL], [None]
    when the promise rejects. *)
Variable Element : Type.
Variable querySelector : Z -> option Element.
Variable html2canvas : Element -> string -> option string.

(** The [for] loop from index [i] on: slides without an element are
    skipped, and every slide but the one at index 0 opens a new page
    before its image is added. *)
Fixpoint renderFrom (background : string) (i : nat) (slides : list Slide)
  : option (list PdfOp) :=
  match slides with
  | [] => Some []
  | slide :: rest =>
      match querySelector (order slide) with
      | Some slideElement =>
          match html2canvas slideElement background with
          | Some imgData =>
              match renderFrom background (S i) rest with
              | Some ops =>
                  Some ((if (0 <? i)%nat then [AddPage] else [])
                          ++ AddImage imgData :: ops)
              | None => None
              end
          | None => None
          end
      | None => renderFrom background (S i) rest
      end
  end.

Definition downloadAllSlides (slides : list Slide) (theme : Theme)
    (backgroundColor : option string) : Outcome :=
  match renderFrom (backgroundOf backgroundColor theme) 0 slides with
  | Some ops => Saved "all-slides.pdf" ops
  | None => Failed
  end.

(** The canvas of a slide, when it has an element and renders. *)
Definition canvasOf (background : string) (slide : Slide) : option string :=
  match querySelector (order slide) with
  | Some slideElement => html2canvas slideElement background
  | None => None
  end.

(** Is the slide mounted but its rendering rejected? *)
Definition breaks (background : string) (slide : Slide) : bool :=
  match querySelector (order slide) with
  | Some slideElement =>
      match html2canvas slideElement background with
      | Some _ => false
      | None => true
      end
  | None => false
  end.

Definition mounted (slide : Slide) : bool :=
  match querySelector (order slide) with Some _ => true | None => false end.

End Rendering.

Arguments renderFrom {Element} querySelector html2canvas.
Arguments downloadAllSlides {Element} querySelector html2canvas.
Arguments canvasOf {Element} querySelector html2canvas.
Arguments breaks {Element} querySelector html2canvas.
Arguments mounted {Element} querySelector.

End Slides.

(** ** A sample page of slides *)

Module SlideSamples.
Import Slides.

(** A page in which slide 0 is not mounted and slides 1 and 2 are. *)
Definition demoSelector (o : Z) : option Z :=
  if (o =? 0)%Z then None else Some o.

Definition demoCanvas (el : Z) (bg : string) : option string :=
  Some (if (el =? 1)%Z then "one" else "two").

Definition demoSlides : list Slide :=
  [ {| order := 0; content := "a"; media_url := ""; media_type := "" |};
    {| order := 1; content := "b"; media_url := ""; media_type := "" |};
    {| order := 2; content := "c"; media_url := ""; media_type := "" |} ].

End SlideSamples.

Module DashboardFacts.
Import Browser Dashboard.

Lemma findIndex_Some {A} (p : A -> bool) l i :
  findIndex p l = Some i ->
  exists x, l !! i = Some x /\ p x = true /\
    forall j y, (j < i)%nat -> l !! j = Some y -> p y = false.
Proof.
  revert i. induction l as [|a l IH]; intros i; simpl; [discriminate|].
  destruct (p a) eqn:Hp.
  - intros [= <-]. exists a. repeat split; auto. intros j y Hj; lia.
  - destruct (findIndex p l) as [k|]; simpl; [|discriminate].
    intros [= <-]. destruct (IH k eq_refl) as (x & Hx & Hpx & Hlt).
    exists x. repeat split; auto.
    intros [|j] y Hj Hy; simpl in Hy.
    + congruence.
    + apply (Hlt j); [lia | exact Hy].
Qed.

Lemma findIndex_None {A} (p : A -> bool) l :
  findIndex p l = None -> forall x, x ∈ l -> p x = false.
Proof.
  induction l as [|a l IH]; simpl; intros H x Hx.
  - inversion Hx.
  - destruct (p a) eqn:Hp; [discriminate|].
    destruct (findIndex p l); [discriminate|].
    apply elem_of_cons in Hx as [->|Hx]; auto.
Qed.

Lemma applyUpdate_length l u : length (applyUpdate l u) = length l.
Proof.
  unfold applyUpdate. destruct (findIndex _ l); [apply length_insert | reflexivity].
Qed.

(** Position by position, an update either leaves the entry alone or
    puts the response entry in place of a task with the same id. *)
Lemma applyUpdate_lookup l u i t' :
  applyUpdate l u !! i = Some t' ->
  l !! i = Some t' \/ (t' = u /\ exists t, l !! i = Some t /\ id t = id u).
Proof.
  unfold applyUpdate.
  destruct (findIndex _ l) as [k|] eqn:Hk; [|auto].
  destruct (findIndex_Some _ _ _ Hk) as (x & Hx & Hp & _).
  apply String.eqb_eq in Hp.
  destruct (decide (k = i)) as [->|Hne].
  - rewrite list_lookup_insert_eq by (eapply lookup_lt_Some; eauto).
    intros [= <-]. right. eauto.
  - rewrite list_lookup_insert_ne by done. auto.
Qed.

Lemma applyUpdate_other l u i t :
  l !! i = Some t -> id t <> id u -> applyUpdate l u !! i = Some t.
Proof.
  intros Hi Hne. unfold applyUpdate.
  destruct (findIndex _ l) as [k|] eqn:Hk; [|done].
  destruct (findIndex_Some _ _ _ Hk) as (x & Hx & Hp & _).
  apply String.eqb_eq in Hp.
  rewrite list_lookup_insert_ne; [done|].
  intros ->. congruence.
Qed.

Lemma applyUpdate_ids l u : map id (applyUpdate l u) = map id l.
Proof.
  apply list_eq. intros i. rewrite !list_lookup_fmap.
  destruct (l !! i) as [t|] eqn:Hi; simpl.
  - destruct (decide (id t = id u)) as [He|Hne].
    + assert (Hlt : (i < length (applyUpdate l u))%nat)
        by (rewrite applyUpdate_length; eapply lookup_lt_Some; eauto).
      apply lookup_lt_is_Some in Hlt as [t' Ht']. rewrite Ht'. simpl.
      destruct (applyUpdate_lookup _ _ _ _ Ht') as [H|(-> & t0 & H & _)]; congruence.
    + rewrite (applyUpdate_other _ _ _ _ Hi Hne). reflexivity.
  - rewrite lookup_ge_None_2; [done|].
    rewrite applyUpdate_length. by apply lookup_ge_None.
Qed.

Lemma mergeTasks_length data : forall l, length (mergeTasks l data) = length l.
Proof.
  induction data as [|u data IH]; intros l; simpl; [done|].
  unfold mergeTasks in *. simpl. rewrite IH. apply applyUpdate_length.
Qed.

Lemma mergeTasks_ids data : forall l, map id (mergeTasks l data) = map id l.
Proof.
  induction data as [|u data IH]; intros l; simpl; [done|].
  unfold mergeTasks in *. simpl. rewrite IH. apply applyUpdate_ids.
Qed.

Lemma mergeTasks_lookup data : forall l i t',
  mergeTasks l data !! i = Some t' ->
  l !! i = Some t' \/ (t' ∈ data /\ exists t, l !! i = Some t /\ id t = id t').
Proof.
  induction data as [|u data IH]; intros l i t' H; [left; exact H|].
  unfold mergeTasks in *. simpl in H.
  destruct (IH _ _ _ H) as [H1|(Hin & t & Ht & Hid)].
  - destruct (applyUpdate_lookup _ _ _ _ H1) as [H2|(-> & t & Ht & Hid)].
    + by left.
    + right. split; [left|eauto].
  - right. split; [by right|].
    destruct (applyUpdate_lookup _ _ _ _ Ht) as [H2|(-> & t0 & Ht0 & Hid0)].
    + eauto.
    + exists t0. split; [done|congruence].
Qed.

Lemma mergeTasks_unmentioned data : forall l i t,
  l !! i = Some t ->
  existsb (fun u => (id u =? id t)%string) data = false ->
  mergeTasks l data !! i = Some t.
Proof.
  induction data as [|u data IH]; intros l i t Hi Hno; [exact Hi|].
  simpl in Hno. apply orb_false_iff in Hno as [Hu Hrest].
  unfold mergeTasks in *. simpl. apply IH; [|exact Hrest].
  apply applyUpdate_other; [exact Hi|].
  apply String.eqb_neq in Hu. congruence.
Qed.

(** *** The polling loop *)

Lemma filter_nonempty {A} (p : A -> bool) l :
  (0 <? length (List.filter p l))%nat = existsb p l.
Proof.
  induction l as [|a l IH]; simpl; [done|].
  destruct (p a); simpl; [done | exact IH].
Qed.

Lemma armed_clearInterval h : armed (clearInterval h) = false.
Proof. by destruct h. Qed.

Lemma armed_isSet h : armed h = true -> isSet h = true.
Proof. by destruct h. Qed.

Lemma pollingEffect_tasks s : tasks (fst (pollingEffect s)) = tasks s.
Proof. unfold pollingEffect. by destruct (_ <? _)%nat. Qed.

Lemma pollingEffect_armed s :
  armed (pollingInterval (fst (pollingEffect s)))
  = existsb (fun task => negb (isTerminal task)) (tasks s).
Proof.
  unfold pollingEffect. rewrite filter_nonempty.
  destruct (existsb _ _); simpl; [done | apply armed_clearInterval].
Qed.

(** The five in-flight statuses and the two terminal ones are disjoint. *)
Lemma isIncomplete_not_terminal t : isIncomplete t = true -> isTerminal t = false.
Proof.
  unfold isIncomplete, isTerminal. intros H.
  repeat (apply orb_true_iff in H as [H|H]);
    apply String.eqb_eq in H; rewrite H; reflexivity.
Qed.

Lemma known_incomplete t : knownStatus t = true -> negb (isTerminal t) = isIncomplete t.
Proof.
  unfold knownStatus. intros H.
  destruct (isIncomplete t) eqn:Hi.
  - by rewrite isIncomplete_not_terminal.
  - simpl in H. by rewrite H.
Qed.

Lemma existsb_known l :
  forallb knownStatus l = true ->
  existsb (fun task => negb (isTerminal task)) l = existsb isIncomplete l.
Proof.
  induction l as [|a l IH]; simpl; [done|].
  intros [Ha Hl]%andb_true_iff. by rewrite known_incomplete, IH.
Qed.

Lemma existsb_negb_forallb {A} (p : A -> bool) l :
  existsb (fun x => negb (p x)) l = negb (forallb p l).
Proof.
  induction l as [|a l IH]; simpl; [done|].
  rewrite IH. by destruct (p a).
Qed.

Lemma forallb_lookup {A} (p : A -> bool) l :
  forallb p l = true <-> forall i x, l !! i = Some x -> p x = true.
Proof.
  rewrite forallb_forall. split.
  - intros H i x Hx. apply H, list_elem_of_In. eapply list_elem_of_lookup_2; eauto.
  - intros H x Hx. apply list_elem_of_In, list_elem_of_lookup_1 in Hx as [i Hi]. eauto.
Qed.

Lemma mergeTasks_known l data :
  forallb knownStatus l = true -> forallb knownStatus data = true ->
  forallb knownStatus (mergeTasks l data) = true.
Proof.
  intros Hl Hd. apply forallb_lookup. intros i x Hx.
  destruct (mergeTasks_lookup _ _ _ _ Hx) as [H|[H _]].
  - eapply forallb_lookup in Hl; eauto.
  - rewrite forallb_forall in Hd. by apply Hd, list_elem_of_In.
Qed.

Lemma loadTasks_consistent ts s0 :
  forallb knownStatus ts = true -> consistent (fst (loadTasks ts s0)).
Proof.
  intros Hk. unfold loadTasks, consistent.
  rewrite pollingEffect_tasks, pollingEffect_armed. simpl.
  split; [done | by apply existsb_known].
Qed.

Lemma checkAndUpdateTasks_consistent s r :
  consistent s -> responseKnown r = true ->
  consistent (fst (checkAndUpdateTasks s r)).
Proof.
  intros [Hk Ha] Hr. unfold checkAndUpdateTasks.
  rewrite filter_nonempty.
  destruct (existsb isIncomplete (tasks s)) eqn:Hex.
  - destruct r as [| |[data|]]; simpl; try (split; simpl; [done | congruence]).
    destruct (pollingEffect _) as [s3 eff] eqn:Hpe.
    pose proof (pollingEffect_tasks
      {| tasks := mergeTasks (tasks s) data;
         hasIncompleteTask := negb (forallb isTerminal data);
         pollingInterval := if forallb isTerminal data
                            then clearInterval (pollingInterval s)
                            else pollingInterval s |}) as Ht.
    pose proof (pollingEffect_armed
      {| tasks := mergeTasks (tasks s) data;
         hasIncompleteTask := negb (forallb isTerminal data);
         pollingInterval := if forallb isTerminal data
                            then clearInterval (pollingInterval s)
                            else pollingInterval s |}) as Hp.
    rewrite Hpe in Ht, Hp. simpl in *.
    assert (Hm : forallb knownStatus (mergeTasks (tasks s) data) = true)
      by (by apply mergeTasks_known).
    split; [by rewrite Ht|]. rewrite Hp, Ht. by apply existsb_known.
  - split; simpl; [done|]. by rewrite armed_clearInterval.
Qed.

Lemma tick_consistent s r :
  consistent s -> responseKnown r = true -> consistent (fst (tick s r)).
Proof.
  intros Hc Hr. unfold tick. destruct (armed _); [|done].
  by apply checkAndUpdateTasks_consistent.
Qed.

Lemma step_consistent s e :
  consistent s -> eventKnown e = true -> consistent (fst (step s e)).
Proof.
  destruct e as [ts|r]; simpl; intros Hc He.
  - by apply loadTasks_consistent.
  - by apply tick_consistent.
Qed.

Lemma run_consistent es : forall s,
  consistent s -> forallb eventKnown es = true -> consistent (fst (run s es)).
Proof.
  induction es as [|e es IH]; intros s Hc Hes; simpl; [done|].
  apply andb_true_iff in Hes as [He Hes].
  pose proof (step_consistent s e Hc He) as H1.
  destruct (step s e) as [s1 e1]. simpl in H1.
  specialize (IH s1 H1 Hes). by destruct (run s1 es).
Qed.

(** Once the interval is no longer armed the loop is silent: however many
    periods go by, nothing happens until the list is assigned again. *)
Lemma run_stopped rs : forall s,
  armed (pollingInterval s) = false -> run s (map Period rs) = (s, []).
Proof.
  induction rs as [|r rs IH]; intros s Hs; simpl; [done|].
  unfold tick. rewrite Hs. by rewrite IH.
Qed.

(** With distinct ids, [findIndex] lands on the task that carries the id. *)
Lemma applyUpdate_hit l u i t :
  NoDup (map id l) -> l !! i = Some t -> id u = id t ->
  applyUpdate l u !! i = Some u.
Proof.
  intros Hnd Hi Hid. unfold applyUpdate.
  destruct (findIndex _ l) as [k|] eqn:Hk.
  - destruct (findIndex_Some _ _ _ Hk) as (x & Hx & Hp & _).
    apply String.eqb_eq in Hp.
    assert (k = i) as ->.
    { apply (NoDup_lookup (map id l) k i (id u) Hnd);
        rewrite list_lookup_fmap; [rewrite Hx | rewrite Hi]; simpl; congruence. }
    apply list_lookup_insert_eq. eapply lookup_lt_Some; eauto.
  - pose proof (findIndex_None _ _ Hk t) as Hf. simpl in Hf.
    rewrite Hid, String.eqb_refl in Hf.
    assert (true = false); [|done].
    apply Hf. eapply list_elem_of_lookup_2; eauto.
Qed.

Lemma mergeTasks_answered data : forall l i t u,
  NoDup (map id l) -> l !! i = Some t -> u ∈ data -> id u = id t ->
  exists u', mergeTasks l data !! i = Some u' /\ u' ∈ data.
Proof.
  induction data as [|u0 data IH]; intros l i t u Hnd Hi Hin Hid.
  - inversion Hin.
  - assert (Hnd1 : NoDup (map id (applyUpdate l u0))) by (by rewrite applyUpdate_ids).
    unfold mergeTasks in *. simpl.
    apply elem_of_cons in Hin as [->|Hd].
    + pose proof (applyUpdate_hit _ _ _ _ Hnd Hi Hid) as Hhit.
      assert (Hlt : (i < length (foldl applyUpdate (applyUpdate l u0) data))%nat).
      { pose proof (mergeTasks_length data (applyUpdate l u0)) as Hl.
        unfold mergeTasks in Hl. rewrite Hl. eapply lookup_lt_Some; eauto. }
      apply lookup_lt_is_Some in Hlt as [u' Hu']. exists u'. split; [done|].
      destruct (mergeTasks_lookup _ _ _ _ Hu') as [H|[H _]].
      * rewrite Hhit in H. injection H as <-. by left.
      * by right.
    + assert (exists t1, applyUpdate l u0 !! i = Some t1 /\ id t1 = id t) as (t1 & Ht1 & Hid1).
      { assert (Hlt : (i < length (applyUpdate l u0))%nat)
          by (rewrite applyUpdate_length; eapply lookup_lt_Some; eauto).
        apply lookup_lt_is_Some in Hlt as [t1 Ht1]. exists t1. split; [done|].
        destruct (applyUpdate_lookup _ _ _ _ Ht1) as [H|(-> & t0 & H & He)]; congruence. }
      destruct (IH _ _ _ _ Hnd1 Ht1 Hd ltac:(congruence)) as (u' & Hu' & Hin').
      exists u'. split; [done | by right].
Qed.

(** A response that answers every tracked id with a terminal snapshot
    leaves no in-flight task behind. *)
Lemma mergeTasks_all_terminal l data :
  NoDup (map id l) -> forallb knownStatus l = true ->
  reportsAllTerminal l data = true ->
  forallb isTerminal (mergeTasks l data) = true.
Proof.
  intros Hnd Hk [Hterm Hcov]%andb_true_iff.
  apply forallb_lookup. intros i x Hx.
  rewrite forallb_forall in Hterm.
  destruct (mergeTasks_lookup _ _ _ _ Hx) as [H|[H _]];
    [|by apply Hterm, list_elem_of_In].
  destruct (isTerminal x) eqn:Hx'; [done|].
  assert (Hinc : isIncomplete x = true).
  { rewrite <- known_incomplete, Hx'; [done|]. eapply forallb_lookup in Hk; eauto. }
  rewrite forallb_forall in Hcov.
  assert (Hex : existsb (fun u => (id u =? id x)%string) data = true).
  { apply Hcov, filter_In. split; [|done].
    apply list_elem_of_In. eapply list_elem_of_lookup_2; eauto. }
  apply existsb_exists in Hex as (u & Hu & He). apply String.eqb_eq in He.
  apply list_elem_of_In in Hu.
  destruct (mergeTasks_answered _ _ _ _ _ Hnd H Hu He) as (u' & Hu' & Hin').
  rewrite Hx in Hu'. injection Hu' as <-.
  rewrite <- Hx'. by apply Hterm, list_elem_of_In.
Qed.

Lemma checkAndUpdateTasks_fetches s r :
  existsb isIncomplete (tasks s) = true ->
  exists rest,
    snd (checkAndUpdateTasks s r)
    = Send (BulkStatus (map id (List.filter isIncomplete (tasks s)))) :: rest.
Proof.
  intros Hex. unfold checkAndUpdateTasks. rewrite filter_nonempty, Hex.
  destruct r as [| |[data|]]; simpl; eauto.
  destruct (pollingEffect _). simpl. eauto.
Qed.

Lemma tick_all_terminal s data :
  NoDup (map id (tasks s)) -> consistent s ->
  armed (pollingInterval s) = true ->
  reportsAllTerminal (tasks s) data = true ->
  existsb (isClear TaskPolling) (snd (tick s (Json (Some data)))) = true
  /\ armed (pollingInterval (fst (tick s (Json (Some data))))) = false
  /\ forallb isTerminal (tasks (fst (tick s (Json (Some data))))) = true.
Proof.
  intros Hnd [Hk Hc] Ha Hrep.
  pose proof (mergeTasks_all_terminal _ _ Hnd Hk Hrep) as Hall.
  pose proof (armed_isSet _ Ha) as Hset.
  apply andb_true_iff in Hrep as [Hterm _].
  unfold tick. rewrite Ha. unfold checkAndUpdateTasks.
  rewrite filter_nonempty, <- Hc, Ha, Hterm.
  unfold pollingEffect. simpl. rewrite filter_nonempty, existsb_negb_forallb, Hall.
  simpl. unfold clearEffects at 1. rewrite Hset. simpl.
  split; [done|]. split; [apply armed_clearInterval | done].
Qed.

Lemma existsb_incomplete_nonterminal l :
  existsb isIncomplete l = true ->
  existsb (fun task => negb (isTerminal task)) l = true.
Proof.
  intros (t & Hin & Ht)%existsb_exists. apply existsb_exists.
  exists t. split; [done|]. by rewrite isIncomplete_not_terminal.
Qed.

Lemma pollingEffect_tracking s : tracking (fst (pollingEffect s)).
Proof.
  unfold tracking. rewrite pollingEffect_tasks, pollingEffect_armed.
  apply existsb_incomplete_nonterminal.
Qed.

Lemma tick_tracking s r : tracking s -> tracking (fst (tick s r)).
Proof.
  intros Hs. unfold tick. destruct (armed (pollingInterval s)) eqn:Ha; [|done].
  unfold checkAndUpdateTasks. rewrite filter_nonempty.
  destruct (existsb isIncomplete (tasks s)) eqn:Hex.
  - destruct r as [| |[data|]]; try (by intros _).
    match goal with |- context [pollingEffect ?x] =>
      pose proof (pollingEffect_tracking x) as Ht; destruct (pollingEffect x) end.
    exact Ht.
  - unfold tracking. simpl. by rewrite Hex.
Qed.

Lemma step_tracking s e : tracking s -> tracking (fst (step s e)).
Proof.
  destruct e as [ts|r]; simpl; intros Hs.
  - apply pollingEffect_tracking.
  - by apply tick_tracking.
Qed.

Lemma run_tracking es : forall s, tracking s -> tracking (fst (run s es)).
Proof.
  induction es as [|e es IH]; intros s Hs; simpl; [done|].
  pose proof (step_tracking s e Hs) as H1.
  destruct (step s e) as [s1 e1]. simpl in H1.
  specialize (IH s1 H1). by destruct (run s1 es).
Qed.

Lemma checkAndUpdateTasks_sends s r :
  existsb isSend (snd (checkAndUpdateTasks s r)) = existsb isIncomplete (tasks s).
Proof.
  destruct (existsb isIncomplete (tasks s)) eqn:Hex.
  - by destruct (checkAndUpdateTasks_fetches s r Hex) as [rest ->].
  - unfold checkAndUpdateTasks. rewrite filter_nonempty, Hex. simpl.
    unfold clearEffects. by destruct (isSet _).
Qed.

(** C1. Take any history of the dashboard: the task list is loaded, and
    then interval periods elapse, with whatever answers the bulk-status
    endpoint gives, possibly interleaved with further loads.  At the end
    of it the next period sends a status request exactly when some listed
    task is PENDING, IN_PROGRESS, PROCESSING, GENERATING_SCRIPT or
    GENERATING_MEDIA.  On the statuses of the data model the interval is
    stopped exactly when every listed task is COMPLETED or FAILED; while
    a task is in flight the interval stays armed and its next tick asks
    for the status of exactly the in-flight tasks; and when a response
    answers every tracked id with a terminal snapshot, that tick clears
    the interval, every task is terminal, and no later period produces
    any effect. *)
Theorem polling_stops_exactly_when_terminal
    (ts : list VideoTask) (s0 : State) (es : list Event) :
  let s := fst (run (fst (loadTasks ts s0)) es) in
  (forall r, existsb isSend (snd (tick s r)) = existsb isIncomplete (tasks s))
  /\ (forallb knownStatus ts = true ->
      forallb eventKnown es = true ->
      (armed (pollingInterval s) = false <-> forallb isTerminal (tasks s) = true)
      /\ (existsb isIncomplete (tasks s) = true ->
          armed (pollingInterval s) = true
          /\ forall r, exists rest,
               snd (tick s r)
               = Send (BulkStatus (map id (List.filter isIncomplete (tasks s)))) :: rest)
      /\ (forall data,
            NoDup (map id (tasks s)) ->
            armed (pollingInterval s) = true ->
            reportsAllTerminal (tasks s) data = true ->
            let s' := fst (tick s (Json (Some data))) in
            existsb (isClear TaskPolling) (snd (tick s (Json (Some data)))) = true
            /\ armed (pollingInterval s') = false
            /\ forallb isTerminal (tasks s') = true
            /\ forall rs', run s' (map Period rs') = (s', []))).
Proof.
  intros s. split.
  - intros r.
    assert (Ht : tracking s) by (apply run_tracking, pollingEffect_tracking).
    unfold tick. destruct (armed (pollingInterval s)) eqn:Ha.
    + apply checkAndUpdateTasks_sends.
    + simpl. destruct (existsb isIncomplete (tasks s)) eqn:Hex; [|done].
      rewrite (Ht Hex) in Ha. discriminate Ha.
  - intros Hts Hes.
    assert (Hc : consistent s)
      by (apply run_consistent; [by apply loadTasks_consistent | done]).
    destruct Hc as [Hk Ha]. split; [|split].
    + rewrite Ha, <- (existsb_known _ Hk), existsb_negb_forallb.
      destruct (forallb isTerminal (tasks s)); simpl; split; congruence.
    + intros Hex. split; [congruence|]. intros r.
      unfold tick. rewrite Ha, Hex. by apply checkAndUpdateTasks_fetches.
    + intros data Hnd Harm Hrep s'.
      destruct (tick_all_terminal s data Hnd (conj Hk Ha) Harm Hrep) as (H1 & H2 & H3).
      repeat split; try done. intros rs'. by apply run_stopped.
Qed.

(** Outside the statuses of the data model the effect and the tick
    disagree about what is unfinished: the effect arms the interval for
    a task with another status, and the first tick clears it again
    without asking the backend. *)
Lemma other_status_is_never_fetched :
  let loaded := fst (loadTasks [Samples.taskA "QUEUED"] initial) in
  armed (pollingInterval loaded) = true
  /\ tick loaded NotOk
     = ({| tasks := [Samples.taskA "QUEUED"]; hasIncompleteTask := false;
           pollingInterval := Cleared |},
        [ClearInterval TaskPolling]).
Proof. by vm_compute. Qed.

(** C9. A bulk-status response changes the task list only at positions
    whose task has the id of a response entry, and puts that entry
    there: the list keeps its length, the id at every position stays
    the same (so the order of the tasks is kept), a task whose id the
    response does not mention stays as it is, and whatever a position
    holds afterwards is either what it held before or a response entry
    with the id of the task it replaced. *)
Theorem merge_replaces_only_matching (s : State) (data : list VideoTask) :
  let updated := tasks (fst (checkAndUpdateTasks s (Json (Some data)))) in
  (existsb isIncomplete (tasks s) = true -> updated = mergeTasks (tasks s) data)
  /\ length updated = length (tasks s)
  /\ map id updated = map id (tasks s)
  /\ (forall i t,
        tasks s !! i = Some t ->
        existsb (fun u => (id u =? id t)%string) data = false ->
        updated !! i = Some t)
  /\ (forall i t',
        updated !! i = Some t' ->
        tasks s !! i = Some t'
        \/ (t' ∈ data /\ exists t, tasks s !! i = Some t /\ id t = id t')).
Proof.
  intros updated. subst updated. unfold checkAndUpdateTasks.
  rewrite filter_nonempty.
  destruct (existsb isIncomplete (tasks s)) eqn:Hex.
  - match goal with |- context [pollingEffect ?x] =>
      pose proof (pollingEffect_tasks x) as Ht; destruct (pollingEffect x) end.
    simpl in *. rewrite Ht.
    split; [done|]. split; [apply mergeTasks_length|].
    split; [apply mergeTasks_ids|].
    split; [apply mergeTasks_unmentioned | apply mergeTasks_lookup].
  - simpl. split; [done|]. repeat split; auto.
Qed.

Lemma polling_witness :
  let s := fst (run (fst (loadTasks [Samples.taskA "PENDING"] initial))
                  [Period NotOk;
                   Reload [Samples.taskA "PENDING"; Samples.taskB "COMPLETED"];
                   Period (Json (Some [Samples.taskA "GENERATING_MEDIA"]))]) in
  armed (pollingInterval s) = true
  /\ run (fst (tick s (Json (Some [Samples.taskA "COMPLETED"]))))
       [Period NotOk; Period (Json None)]
     = (fst (tick s (Json (Some [Samples.taskA "COMPLETED"]))), []).
Proof.
  intros s.
  destruct (proj2 (polling_stops_exactly_when_terminal
                     [Samples.taskA "PENDING"] initial
                     [Period NotOk;
                      Reload [Samples.taskA "PENDING"; Samples.taskB "COMPLETED"];
                      Period (Json (Some [Samples.taskA "GENERATING_MEDIA"]))])
              eq_refl eq_refl) as (_ & Hrun & Hstop).
  split; [exact (proj1 (Hrun eq_refl))|].
  assert (Hnd : NoDup (map id (tasks s))).
  { apply NoDup_cons_2; [|apply NoDup_singleton].
    intros Hin. apply list_elem_of_singleton in Hin. discriminate Hin. }
  destruct (Hstop [Samples.taskA "COMPLETED"] Hnd eq_refl eq_refl) as (_ & _ & _ & H).
  exact (H [NotOk; Json None]).
Defined.

Lemma merge_witness :
  tasks (fst (checkAndUpdateTasks
                (fst (loadTasks [Samples.taskB "COMPLETED"; Samples.taskA "PENDING"] initial))
                (Json (Some [Samples.taskA "FAILED"]))))
  = [Samples.taskB "COMPLETED"; Samples.taskA "FAILED"].
Proof.
  destruct (merge_replaces_only_matching
              (fst (loadTasks [Samples.taskB "COMPLETED"; Samples.taskA "PENDING"] initial))
              [Samples.taskA "FAILED"]) as (H & _).
  exact (H eq_refl).
Defined.

End DashboardFacts.

Module JsStringFacts.
Import Browser JsString.

Lemma truthy_trimStart s : truthy (trimStart s) = negb (forallb isWhiteSpace s).
Proof.
  induction s as [|c s IH]; simpl; [done|].
  destruct (isWhiteSpace c); simpl; [exact IH | done].
Qed.

Lemma forallb_trimStart s :
  forallb isWhiteSpace (trimStart s) = forallb isWhiteSpace s.
Proof.
  induction s as [|c s IH]; simpl; [done|].
  destruct (isWhiteSpace c) eqn:Hc; simpl; [exact IH | by rewrite Hc].
Qed.

Lemma forallb_reverse {A} (p : A -> bool) l : forallb p (reverse l) = forallb p l.
Proof.
  induction l as [|a l IH]; simpl; [done|].
  rewrite reverse_cons, forallb_app, IH. simpl. rewrite andb_true_r. apply andb_comm.
Qed.

Lemma truthy_reverse (s : jsstr) : truthy (reverse s) = truthy s.
Proof.
  destruct s as [|c s]; [done|]. rewrite reverse_cons.
  by destruct (reverse s).
Qed.

(** [trim] leaves something exactly when the line is not blank. *)
Lemma truthy_trim s : truthy (trim s) = negb (isBlank s).
Proof.
  unfold trim, trimEnd, isBlank.
  by rewrite truthy_reverse, truthy_trimStart, forallb_reverse, forallb_trimStart.
Qed.

Lemma split_nonempty sep s : split sep s <> [].
Proof.
  destruct s as [|c s]; simpl; [done|].
  destruct (c =? sep)%N; [done|]. by destruct (split sep s).
Qed.

(** [split] undoes [join]: gluing the pieces back with the separator
    gives the input. *)
Lemma join_split sep s : join sep (split sep s) = s.
Proof.
  induction s as [|c s IH]; simpl; [done|].
  destruct (c =? sep)%N eqn:Hc.
  - apply N.eqb_eq in Hc as ->.
    pose proof (split_nonempty sep s).
    destruct (split sep s) as [|l ls] eqn:Hs; [done|].
    simpl in *. by rewrite IH.
  - pose proof (split_nonempty sep s).
    destruct (split sep s) as [|l ls] eqn:Hs; [done|].
    destruct ls; simpl in *; by rewrite <- IH.
Qed.

(** No piece of a split contains the separator. *)
Lemma split_no_separator sep s :
  Forall (fun line => existsb (N.eqb sep) line = false) (split sep s).
Proof.
  induction s as [|c s IH]; simpl; [by repeat constructor|].
  destruct (c =? sep)%N eqn:Hc; [by constructor|].
  destruct (split sep s) as [|l ls].
  - constructor; [|constructor]. simpl. by rewrite N.eqb_sym, Hc.
  - inversion IH as [|? ? Hl Hls]; subst. constructor; [|done].
    simpl. by rewrite N.eqb_sym, Hc.
Qed.

End JsStringFacts.

Module EditorFacts.
Import Browser JsString Editor JsStringFacts.

(** The filter of the source keeps exactly the lines that are not blank. *)
Lemma newCaptions_nonBlankLines prompt : newCaptions prompt = nonBlankLines prompt.
Proof.
  unfold newCaptions, nonBlankLines.
  induction (split newline prompt) as [|l ls IH]; simpl; [done|].
  by rewrite truthy_trim, IH.
Qed.

Lemma nonBlankLines_no_blank prompt :
  Forall (fun c => isBlank c = false) (nonBlankLines prompt).
Proof.
  unfold nonBlankLines. apply Forall_forall. intros c Hc.
  apply list_elem_of_In, filter_In in Hc as [_ Hc]. by apply negb_true_iff.
Qed.

(** C10. Whenever the caption update submits anything (a shot is
    selected and the input is not empty), the first and only request is
    the caption update for that shot, and the captions it carries are
    the pieces of the input between newlines without the blank ones;
    none of them is empty or made of white space only, and each is a
    line of the input. *)
Theorem submitted_captions_are_nonblank_lines
    (task : VideoTask) (s : EditState) (r : Response (list Shot)) (sel : Shot) :
  selectedShot s = Some sel ->
  truthy (editPrompt s) = true ->
  (exists rest,
      snd (handleCaptionUpdate task s r)
      = Send (UpdateCaptions (task_id task) (order sel)
                (nonBlankLines (editPrompt s))) :: rest
      /\ existsb isSend rest = false)
  /\ Forall (fun c => isBlank c = false /\ c <> [] /\ c ∈ split newline (editPrompt s))
       (nonBlankLines (editPrompt s))
  /\ join newline (split newline (editPrompt s)) = editPrompt s.
Proof.
  intros Hsel Hp. split; [|split].
  - unfold handleCaptionUpdate. rewrite Hsel, Hp, newCaptions_nonBlankLines. simpl.
    destruct r as [| |[l|]]; simpl; eauto.
  - apply Forall_forall. intros c Hc.
    pose proof (nonBlankLines_no_blank (editPrompt s)) as Hnb.
    rewrite Forall_forall in Hnb. specialize (Hnb c Hc).
    split; [done|]. split; [by intros ->|].
    unfold nonBlankLines in Hc.
    apply list_elem_of_In, filter_In in Hc as [Hc _]. by apply list_elem_of_In.
  - apply join_split.
Qed.

Lemma submitted_captions_witness :
  exists rest,
    snd (handleCaptionUpdate Samples.demoTask
           (Samples.editing caption (ofString "one" ++ [newline; 0x20%N; newline]
                                      ++ ofString "two"))
           NotOk)
    = Send (UpdateCaptions "t1" 0 [ofString "one"; ofString "two"]) :: rest.
Proof.
  destruct (submitted_captions_are_nonblank_lines Samples.demoTask
              (Samples.editing caption (ofString "one" ++ [newline; 0x20%N; newline]
                                         ++ ofString "two"))
              NotOk (Samples.mkShot 0 "v0.mp4") eq_refl eq_refl)
    as ((rest & Hrest & _) & _).
  exists rest. exact Hrest.
Defined.

(** Nothing is submitted for an empty input or without a selection. *)
Lemma handleCaptionUpdate_guard task s r :
  selectedShot s = None \/ editPrompt s = [] ->
  handleCaptionUpdate task s r = (s, []).
Proof.
  unfold handleCaptionUpdate. intros [H|H]; rewrite H; [done|].
  by destruct (selectedShot s).
Qed.

(** *** Dispatch of an edit *)

Lemma handleCaptionUpdate_interval task s r :
  pollingInterval (fst (handleCaptionUpdate task s r)) = pollingInterval s
  /\ existsb isSetInterval (snd (handleCaptionUpdate task s r)) = false
  /\ existsb isRegenerateShot (snd (handleCaptionUpdate task s r)) = false.
Proof.
  unfold handleCaptionUpdate.
  destruct (selectedShot s); [|done].
  destruct (truthy (editPrompt s)); [|done].
  by destruct r as [| |[l|]].
Qed.

Lemma existsb_clearEffects {Req} (p : Effect Req -> bool) t h :
  (forall t', p (ClearInterval t') = false) ->
  existsb p (clearEffects t h) = false.
Proof.
  intros Hp. unfold clearEffects. destruct (isSet h); simpl; [|done].
  by rewrite Hp.
Qed.

(** What [handleRegenerate] does for an edit that is not a caption edit,
    written out. *)
Lemma handleRegenerate_media task s rv rr rc sel ty :
  selectedShot s = Some sel -> editType s = Some ty ->
  truthy (editPrompt s) = true -> ty <> caption ->
  handleRegenerate task s rv rr rc
  = if voiceoverOk ty rv
    then let '(s2, effs) :=
           submitRegeneration task sel ty (editPrompt s) (voiceoverUrlOf ty rv)
             (regenerateStarted s) rr in
         (s2, voiceoverEffects task ty (editPrompt s) ++ effs)
    else (regenerateDone false (regenerateStarted s),
          voiceoverEffects task ty (editPrompt s) ++ regenerateFailure ty).
Proof.
  intros Hsel Hty Hp Hnc. unfold handleRegenerate. rewrite Hsel, Hty, Hp. simpl.
  destruct ty; try done; simpl.
  - by destruct (submitRegeneration _ _ _ _ _ _ _).
  - destruct rv as [| |[u|]]; simpl; try done.
  - by destruct (submitRegeneration _ _ _ _ _ _ _).
Qed.

Lemma submitRegeneration_effects task sel ty prompt voiceover s1 rr :
  let out := submitRegeneration task sel ty prompt voiceover s1 rr in
  existsb isRegenerateShot (snd out) = true
  /\ existsb isUpdateCaptions (snd out) = false
  /\ existsb isSetInterval (snd out) = negb (failed rr)
  /\ existsb isToastError (snd out) = failed rr.
Proof.
  unfold submitRegeneration.
  destruct rr as [| |b]; simpl; try done.
  rewrite !existsb_app, !existsb_clearEffects by done. done.
Qed.

Lemma voiceoverEffects_plain task ty prompt :
  existsb isRegenerateShot (voiceoverEffects task ty prompt) = false
  /\ existsb isUpdateCaptions (voiceoverEffects task ty prompt) = false
  /\ existsb isSetInterval (voiceoverEffects task ty prompt) = false
  /\ existsb isToastError (voiceoverEffects task ty prompt) = false.
Proof. by destruct ty. Qed.

(** C4 as stated fails: a video edit whose regeneration request the
    backend rejects has submitted the request, yet no interval is set
    and the shot-status polling is not running afterwards. *)
Lemma rejected_regeneration_starts_no_polling :
  let s := Samples.editing video (ofString "a sunset") in
  let out := handleRegenerate Samples.demoTask s (Json None) NotOk NotOk in
  existsb isRegenerateShot (snd out) = true
  /\ existsb isSetInterval (snd out) = false
  /\ armed (pollingInterval (fst out)) = false.
Proof. by vm_compute. Qed.

(** C4, amended. A caption edit is the direct caption update: its only
    request is the update-captions request, it sets no interval, leaves
    the interval ref alone, and is over when the handler returns (dialog
    closed, local shots replaced by the response's).  A video or audio
    edit, and the Regenerate Video action of the starting-image dialog,
    send the regeneration request once the voiceover step, if any, has
    gone through, and arm the shot-status interval exactly when that
    request is accepted, after sending it; otherwise the interval ref is
    untouched and an error toast is shown.  The other action of the
    starting-image dialog, Generate Image, is a direct update like the
    caption edit: whatever the edit kind and the answers, its requests
    are the generate-image request followed, when that one answered with
    a body, by the update-shot request for the selected shot; it never
    sends a regeneration request, sets no interval and leaves the
    interval ref alone. *)
Theorem edit_dispatch
    (task : VideoTask) (s : EditState) (rv : Response (option string))
    (rr : Response unit) (rc : Response (list Shot)) (sel : Shot) (ty : EditType) :
  selectedShot s = Some sel ->
  editType s = Some ty ->
  truthy (editPrompt s) = true ->
  let s' := fst (handleRegenerate task s rv rr rc) in
  let effs := snd (handleRegenerate task s rv rr rc) in
  let accepted := voiceoverOk ty rv && negb (failed rr) in
  match ty with
  | caption =>
      (exists rest,
          effs = Send (UpdateCaptions (task_id task) (order sel)
                         (newCaptions (editPrompt s))) :: rest
          /\ existsb isSend rest = false)
      /\ existsb isSetInterval effs = false
      /\ pollingInterval s' = pollingInterval s
      /\ isRegenerating s' = false
      /\ showEditDialog s' = false
      /\ (forall updatedShots, rc = Json (Some updatedShots) -> shots s' = updatedShots)
  | _ =>
      existsb isUpdateCaptions effs = false
      /\ existsb isRegenerateShot effs = voiceoverOk ty rv
      /\ existsb isSetInterval effs = accepted
      /\ (accepted = true ->
          armed (pollingInterval s') = true
          /\ effs = voiceoverEffects task ty (editPrompt s)
                    ++ Send (RegenerateShot (task_id task)
                               (regenerateBody task sel ty (editPrompt s)
                                  (voiceoverUrlOf ty rv)))
                    :: clearEffects ShotPolling (pollingInterval s)
                    ++ [SetInterval ShotPolling 3000;
                        ToastSuccess ("Started regenerating " +:+ editTypeName ty)])
      /\ (accepted = false ->
          pollingInterval s' = pollingInterval s
          /\ hasRegeneratingShot s' = false
          /\ existsb isToastError effs = true)
  end
  /\ (forall (ri : Response (option string)) (ru : Response (list Shot)),
        let direct := handleGenerateImage task s ri ru in
        List.filter isSend (snd direct)
        = Send (GenerateImage (editPrompt s) (currentStyle s))
            :: match ri with
               | Json (Some image_url) =>
                   [Send (UpdateShot (task_id task) (order sel) image_url)]
               | _ => []
               end
        /\ existsb isRegenerateShot (snd direct) = false
        /\ existsb isSetInterval (snd direct) = false
        /\ existsb (isClear ShotPolling) (snd direct) = false
        /\ pollingInterval (fst direct) = pollingInterval s
        /\ hasRegeneratingShot (fst direct) = hasRegeneratingShot s
        /\ (forall updatedShots,
              (exists image_url, ri = Json (Some image_url)) ->
              ru = Json (Some updatedShots) ->
              shots (fst direct) = updatedShots)).
Proof.
  intros Hsel Hty Hp s' effs accepted.
  split; cycle 1.
  { intros ri ru direct. subst direct. unfold handleGenerateImage.
    rewrite Hsel, Hp. simpl.
    destruct ri as [| |[image_url|]]; simpl;
      [| |destruct ru as [| |[l|]]; simpl|];
      repeat split; try done; try (by intros ? [? [=]]);
      try (by intros ? _ [=]); by intros ? _ [= <-]. }
  assert (Hmedia : ty <> caption ->
    existsb isUpdateCaptions effs = false
    /\ existsb isRegenerateShot effs = voiceoverOk ty rv
    /\ existsb isSetInterval effs = accepted
    /\ (accepted = true ->
        armed (pollingInterval s') = true
        /\ effs = voiceoverEffects task ty (editPrompt s)
                  ++ Send (RegenerateShot (task_id task)
                             (regenerateBody task sel ty (editPrompt s)
                                (voiceoverUrlOf ty rv)))
                  :: clearEffects ShotPolling (pollingInterval s)
                  ++ [SetInterval ShotPolling 3000;
                      ToastSuccess ("Started regenerating " +:+ editTypeName ty)])
    /\ (accepted = false ->
        pollingInterval s' = pollingInterval s
        /\ hasRegeneratingShot s' = false
        /\ existsb isToastError effs = true)).
  { intros Hnc. subst s' effs accepted.
    rewrite (handleRegenerate_media task s rv rr rc sel ty Hsel Hty Hp Hnc).
    destruct (voiceoverEffects_plain task ty (editPrompt s)) as (V1 & V2 & V3 & V4).
    destruct (voiceoverOk ty rv); simpl.
    - pose proof (submitRegeneration_effects task sel ty (editPrompt s)
                    (voiceoverUrlOf ty rv) (regenerateStarted s) rr) as (E1 & E2 & E3 & E4).
      unfold submitRegeneration in *.
      destruct rr as [| |b]; simpl in *;
        rewrite ?existsb_app, ?V1, ?V2, ?V3, ?V4; simpl;
        rewrite ?existsb_app, ?existsb_clearEffects by done; simpl;
        repeat split; try done.
    - rewrite !existsb_app, V1, V2, V3, V4. simpl. repeat split; try done. }
  destruct ty; try (apply Hmedia; discriminate).
  subst s' effs. unfold handleRegenerate. rewrite Hsel, Hty, Hp. simpl.
  destruct (handleCaptionUpdate_interval task s rc) as (I1 & I2 & _).
  split; [|split; [done|split; [done|]]].
  - unfold handleCaptionUpdate. rewrite Hsel, Hp. simpl.
    destruct rc as [| |[l|]]; simpl; eauto.
  - unfold handleCaptionUpdate. rewrite Hsel, Hp. simpl.
    destruct rc as [| |[l|]]; simpl; repeat split; try done.
    by intros ? [= <-].
Qed.

Lemma edit_dispatch_witness :
  armed (pollingInterval
           (fst (handleRegenerate Samples.demoTask
                   (Samples.editing audio (ofString "Good evening"))
                   (Json (Some (Some "/new.mp3"))) (Json None) NotOk))) = true.
Proof.
  destruct (edit_dispatch Samples.demoTask
              (Samples.editing audio (ofString "Good evening"))
              (Json (Some (Some "/new.mp3"))) (Json None) NotOk
              (Samples.mkShot 0 "v0.mp4") audio eq_refl eq_refl eq_refl)
    as [(_ & _ & _ & Hacc & _) _].
  exact (proj1 (Hacc eq_refl)).
Defined.

(** *** Shot orders and the timeline *)

Import Timeline.

Lemma mutateShot_orders o f stored :
  (forall shot, order (f shot) = order shot) ->
  map order (TaskStore.mutateShot o f stored) = map order stored.
Proof.
  intros Hf. unfold TaskStore.mutateShot.
  induction stored as [|shot l IH]; simpl; [done|].
  rewrite IH. by destruct (order shot =? o)%Z; rewrite ?Hf.
Qed.

Lemma mutate_orders o m stored :
  map order (TaskStore.mutate o m stored) = map order stored.
Proof. destruct m; simpl; by apply mutateShot_orders. Qed.

Lemma mutate_length o m stored :
  length (TaskStore.mutate o m stored) = length stored.
Proof.
  destruct m; simpl; unfold TaskStore.mutateShot; apply length_map.
Qed.

Lemma mutate_contiguous o m stored :
  ordersContiguous stored -> ordersContiguous (TaskStore.mutate o m stored).
Proof.
  unfold ordersContiguous. by rewrite mutate_orders, mutate_length.
Qed.

(** Shots other than the addressed one are returned as they were. *)
Lemma mutate_other o m stored i shot :
  stored !! i = Some shot -> order shot <> o ->
  TaskStore.mutate o m stored !! i = Some shot.
Proof.
  intros Hi Hne.
  assert (forall f, TaskStore.mutateShot o f stored !! i = Some shot) as H.
  { intros f. unfold TaskStore.mutateShot.
    change (map ?g stored) with (g <$> stored).
    rewrite list_lookup_fmap, Hi. simpl.
    apply Z.eqb_neq in Hne. by rewrite Hne. }
  destruct m; simpl; apply H.
Qed.

Lemma totalDuration_length task :
  totalDuration task = (5 * Z.of_nat (length (task_shots task)))%Z.
Proof.
  unfold totalDuration.
  assert (forall l acc, foldl (fun (a : Z) (_ : Shot) => (a + 5)%Z) acc l
                        = (acc + 5 * Z.of_nat (length l))%Z) as H.
  { induction l as [|x l IH]; intros acc; simpl; [lia|]. rewrite IH. lia. }
  rewrite H. lia.
Qed.

Lemma showsAt_order f shot :
  showsAt f shot = true <-> order shot = (f `div` 150)%Z.
Proof.
  unfold showsAt, sequenceFrom, sequenceFrames.
  rewrite andb_true_iff, Z.leb_le, Z.ltb_lt. split.
  - intros [H1 H2]. apply Z.div_unique with (r := (f - order shot * 150)%Z); lia.
  - intros ->. pose proof (Z.div_mod f 150 ltac:(lia)) as Hd.
    pose proof (Z.mod_pos_bound f 150 ltac:(lia)). lia.
Qed.

(** With contiguous orders the sequences of the preview tile the
    composition: every frame is shown by the shot at exactly one
    position of the array. *)
Lemma sequences_tile l f :
  ordersContiguous l ->
  (0 <= f < Z.of_nat (length l) * 150)%Z ->
  exists i shot,
    l !! i = Some shot /\ showsAt f shot = true
    /\ forall j shot', l !! j = Some shot' -> showsAt f shot' = true -> j = i.
Proof.
  intros Hc Hf. unfold ordersContiguous in Hc.
  assert (Hin : (f `div` 150)%Z ∈ map order l).
  { rewrite Hc. apply elem_of_seqZ. split.
    - apply Z.div_pos; lia.
    - apply Z.div_lt_upper_bound; lia. }
  change (map order l) with (order <$> l) in Hin.
  apply list_elem_of_fmap in Hin as (shot & Ho & Hin).
  apply list_elem_of_lookup_1 in Hin as [i Hi].
  exists i, shot. split; [done|]. split; [by apply showsAt_order|].
  intros j shot' Hj Hs. apply showsAt_order in Hs.
  assert (Hnd : NoDup (map order l)) by (rewrite Hc; apply NoDup_seqZ).
  apply (NoDup_lookup (map order l) j i (order shot) Hnd);
    change (map order l) with (order <$> l);
    rewrite list_lookup_fmap; [rewrite Hj | rewrite Hi]; simpl; congruence.
Qed.

Lemma sequences_within l shot :
  ordersContiguous l -> shot ∈ l ->
  (0 <= sequenceFrom shot
   /\ sequenceFrom shot + sequenceFrames <= Z.of_nat (length l) * 5 * 30)%Z.
Proof.
  intros Hc Hin. unfold ordersContiguous in Hc.
  assert (Ho : order shot ∈ map order l)
    by (change (map order l) with (order <$> l); apply list_elem_of_fmap; eauto).
  rewrite Hc in Ho. apply elem_of_seqZ in Ho.
  unfold sequenceFrom, sequenceFrames. lia.
Qed.

(** The label of a position agrees with the timeline start of the shot
    at that position, for every position, exactly when the array is
    sorted by order. *)
Lemma labels_follow_order_iff_sorted l :
  (forall i shot, l !! i = Some shot -> labelStart i = trackStart shot)
  <-> ordersPositional l.
Proof.
  unfold ordersPositional, labelStart, trackStart. split.
  - intros H. apply list_eq. intros i.
    change (map order l) with (order <$> l). rewrite list_lookup_fmap.
    destruct (l !! i) as [shot|] eqn:Hi; simpl.
    + symmetry. apply lookup_seqZ. apply lookup_lt_Some in Hi as Hlt.
      specialize (H i shot Hi). lia.
    + symmetry. apply lookup_seqZ_ge. apply lookup_ge_None in Hi. lia.
  - intros Hp i shot Hi.
    assert (Ho : map order l !! i = Some (order shot))
      by (change (map order l) with (order <$> l);
          by rewrite list_lookup_fmap, Hi).
    rewrite Hp in Ho. apply lookup_seqZ in Ho as [-> _]. lia.
Qed.


(** *** The shot-status tick *)

Lemma checkShotStatus_failed task s r :
  failed r = true ->
  checkShotStatus task s r
  = (s, [Send (GetTask (task_id task)); ConsoleError "Error checking shot status:"]).
Proof. by destruct r. Qed.

(** The shot interval is cleared by a tick exactly when the answer shows
    no shot regenerating. *)
Lemma checkShotStatus_stops task s updatedShots :
  armed (pollingInterval s) = true ->
  armed (pollingInterval (fst (checkShotStatus task s (Json (Some updatedShots)))))
  = existsb shotIncomplete updatedShots.
Proof.
  intros Ha. simpl. destruct (pollingInterval s); try done. simpl.
  by destruct (existsb shotIncomplete updatedShots).
Qed.

End EditorFacts.

Module ExportFacts.
Import Browser Editor ExportFlow.

(** *** The track list *)

Section Keyframes.
Variable mkUrl : Shot -> string.

Lemma framesFrom_cons k shot l :
  framesFrom mkUrl k (shot :: l)
  = {| timestamp := Z.of_nat k * 5000; duration := 5000; url := mkUrl shot |}
      :: framesFrom mkUrl (S k) l.
Proof.
  unfold framesFrom. simpl. rewrite Nat.add_0_r. f_equal.
  apply imap_ext. intros i x _. simpl. do 2 f_equal. lia.
Qed.

Lemma framesFrom_duration l : forall k,
  foldr (fun kf acc => duration kf + acc)%Z 0%Z (framesFrom mkUrl k l)
  = (Z.of_nat (length l) * 5000)%Z.
Proof.
  induction l as [|shot l IH]; intros k; [done|].
  rewrite framesFrom_cons. simpl. rewrite IH. lia.
Qed.

Lemma framesFrom_end l : forall k,
  foldr (fun kf acc => Z.max (timestamp kf + duration kf) acc)%Z 0%Z
    (framesFrom mkUrl k l)
  = match l with
    | [] => 0%Z
    | _ => (Z.of_nat (k + length l) * 5000)%Z
    end.
Proof.
  induction l as [|shot l IH]; intros k; [done|].
  rewrite framesFrom_cons. simpl. rewrite IH.
  destruct l; simpl; lia.
Qed.

Lemma framesFrom_lookup l k i shot :
  l !! i = Some shot ->
  framesFrom mkUrl k l !! i
  = Some {| timestamp := Z.of_nat (k + i) * 5000; duration := 5000; url := mkUrl shot |}.
Proof. intros Hi. unfold framesFrom. by rewrite list_lookup_imap, Hi. Qed.
End Keyframes.

Lemma videoTrack_frames l :
  keyframes (videoTrack l) = framesFrom video_url 0 l.
Proof. done. Qed.

Lemma voiceoverTrack_frames apiUrl l :
  keyframes (voiceoverTrack apiUrl l)
  = framesFrom (fun shot => apiUrl +:+ voiceover_url shot) 0 l.
Proof. done. Qed.

(** The keyframe of the shot at position [i] starts at [i * 5000] ms. *)
Lemma keyframe_by_position apiUrl l i shot :
  l !! i = Some shot ->
  keyframes (videoTrack l) !! i
  = Some {| timestamp := Z.of_nat i * 5000; duration := 5000; url := video_url shot |}
  /\ keyframes (voiceoverTrack apiUrl l) !! i
     = Some {| timestamp := Z.of_nat i * 5000; duration := 5000;
               url := apiUrl +:+ voiceover_url shot |}.
Proof.
  intros Hi. rewrite videoTrack_frames, voiceoverTrack_frames.
  split; rewrite (framesFrom_lookup _ l 0 i shot Hi); done.
Qed.

(** On a sorted array (the shot at position [i] has order [i]) the
    export timestamps are the orders times 5000 ms. *)
Lemma keyframe_by_order_when_sorted l i shot :
  Timeline.ordersPositional l -> l !! i = Some shot ->
  keyframes (videoTrack l) !! i
  = Some {| timestamp := order shot * 5000; duration := 5000; url := video_url shot |}.
Proof.
  intros Hp Hi. destruct (keyframe_by_position "" l i shot Hi) as [-> _].
  assert (Ho : map order l !! i = Some (order shot))
    by (change (map order l) with (order <$> l); by rewrite list_lookup_fmap, Hi).
  rewrite Hp in Ho. apply lookup_seqZ in Ho as [-> _].
  repeat f_equal; lia.
Qed.

(** C2 fails on the code: in an array whose second entry carries order 0
    and whose first carries order 1, the export puts the shot of order 1
    at 0 ms and the shot of order 0 at 5000 ms, in both shot tracks,
    while the preview player starts them at frames 150 and 0. *)
Lemma export_timestamps_follow_position_not_order :
  let l := [Samples.mkShot 1 "v1.mp4"; Samples.mkShot 0 "v0.mp4"] in
  Timeline.ordersContiguous l
  /\ map timestamp (keyframes (videoTrack l)) = [0; 5000]%Z
  /\ map timestamp (keyframes (voiceoverTrack "http://api" l)) = [0; 5000]%Z
  /\ map (fun shot => order shot * 5000)%Z l = [5000; 0]%Z
  /\ map Timeline.sequenceFrom l = [150; 0]%Z.
Proof.
  simpl. split; [|done].
  unfold Timeline.ordersContiguous. simpl. apply Permutation_swap.
Qed.

(** C7. The export request built from [N] shots carries the video track,
    the voiceover track and, when the task has background music, the
    music track, in this order.  Each shot track has [N] keyframes of
    5000 ms; the music track has one keyframe, at 0 ms, of [N * 5000]
    ms.  The keyframe durations of every track add up to [N * 5000] ms,
    that is [N * 5] seconds, and when there is a shot every track ends
    at [N * 5000] ms. *)
Theorem export_tracks_total_duration
    (apiUrl : string) (task : VideoTask) (l : list Shot)
    (s : ExportState) (r : Response ExportResult) :
  let tracks := buildTracks apiUrl task l in
  let n := Z.of_nat (length l) in
  (exists rest, snd (handleExportVideo apiUrl task l s r)
                = Send (ExportVideo tracks (task_id task)) :: rest)
  /\ tracks = [videoTrack l; voiceoverTrack apiUrl l]
              ++ match background_music_url task with
                 | Some music =>
                     [ {| track_id := "background-music"; track_type := "audio";
                          keyframes := [ {| timestamp := 0;
                                            duration := n * 5000;
                                            url := music |} ] |} ]
                 | None => []
                 end
  /\ length (keyframes (videoTrack l)) = length l
  /\ length (keyframes (voiceoverTrack apiUrl l)) = length l
  /\ Forall (fun k => duration k = 5000%Z)
       (keyframes (videoTrack l) ++ keyframes (voiceoverTrack apiUrl l))
  /\ Forall (fun t => trackDuration t = (n * 5 * 1000)%Z) tracks
  /\ Forall (fun t => trackEnd t = match l with [] => 0 | _ => n * 5 * 1000 end%Z) tracks.
Proof.
  intros tracks n. subst tracks n.
  assert (Hd : forall mk, foldr (fun kf acc => duration kf + acc)%Z 0%Z (framesFrom mk 0 l)
                          = (Z.of_nat (length l) * 5 * 1000)%Z).
  { intros mk. rewrite (framesFrom_duration mk l 0). lia. }
  assert (He : forall mk,
             foldr (fun kf acc => Z.max (timestamp kf + duration kf) acc)%Z 0%Z
               (framesFrom mk 0 l)
             = match l with [] => 0 | _ => Z.of_nat (length l) * 5 * 1000 end%Z).
  { intros mk. rewrite (framesFrom_end mk l 0). destruct l; simpl; lia. }
  split; [|split; [|split; [|split; [|split; [|split]]]]].
  - unfold handleExportVideo. destruct r as [| |[res|]]; simpl; eauto.
    destruct (result_status res =? "EXPORTING")%string; eauto.
  - unfold buildTracks, musicTrack. by destruct (background_music_url task).
  - simpl. apply length_imap.
  - simpl. apply length_imap.
  - apply Forall_app. split; apply Forall_lookup; intros i k Hk; simpl in Hk;
      rewrite list_lookup_imap in Hk;
      destruct (l !! i); simpl in Hk; by inversion Hk.
  - unfold buildTracks.
    apply Forall_app. split.
    + repeat constructor; unfold trackDuration;
        [rewrite videoTrack_frames | rewrite voiceoverTrack_frames]; apply Hd.
    + destruct (background_music_url task); repeat constructor.
      unfold trackDuration. simpl. lia.
  - unfold buildTracks.
    apply Forall_app. split.
    + repeat constructor; unfold trackEnd;
        [rewrite videoTrack_frames | rewrite voiceoverTrack_frames]; apply He.
    + destruct (background_music_url task); repeat constructor.
      unfold trackEnd. destruct l; simpl; lia.
Qed.

(** *** The export polling loop and the dialog *)

Lemma exportRun_stopped task rs : forall s,
  armed (exportPollingInterval s) = false -> exportRun task s rs = (s, []).
Proof.
  induction rs as [|r rs IH]; intros s Hs; simpl; [done|].
  unfold exportTick. rewrite Hs. by rewrite IH.
Qed.

Lemma checkExportStatus_failed task s r :
  failed r = true ->
  checkExportStatus task s r
  = (s, [Send (GetExportStatus (task_id task));
         ConsoleError "Error checking export status:"]).
Proof. by destruct r. Qed.

(** C5. When the export-status request answers FAILED, the tick clears
    the export interval (it is no longer armed, and the clearing is
    among the effects whenever the ref holds a handle), ends with the
    error toast that quotes the reported error, leaves the exporting
    state and closes the dialog; no later period of the export loop
    produces any effect, in particular no further status request. *)
Theorem export_failed_clears_polling
    (task : VideoTask) (s : ExportState) (exportData : ExportData)
    (rs : list (Response ExportData)) :
  data_status exportData = "FAILED" ->
  let s' := fst (checkExportStatus task s (Json (Some exportData))) in
  let effs := snd (checkExportStatus task s (Json (Some exportData))) in
  armed (exportPollingInterval s') = false
  /\ existsb (isClear ExportPolling) effs = isSet (exportPollingInterval s)
  /\ last effs = Some (ToastError ("Export failed: " +:+ errorText (data_error exportData)))
  /\ isExporting s' = false
  /\ showExportDialog s' = false
  /\ exportStatus s' = Some "FAILED"
  /\ exportRun task s' rs = (s', []).
Proof.
  intros Hst s' effs. subst s' effs. unfold checkExportStatus. rewrite Hst. simpl.
  assert (Ha : armed (clearInterval (exportPollingInterval s)) = false)
    by (by destruct (exportPollingInterval s)).
  split; [done|]. split; [|split; [|split; [done|split; [done|split; [done|]]]]].
  - unfold clearEffects. by destruct (isSet (exportPollingInterval s)).
  - unfold clearEffects. by destruct (isSet (exportPollingInterval s)).
  - by apply exportRun_stopped.
Qed.

Lemma export_failed_witness :
  exportRun Samples.demoTask
    (fst (checkExportStatus Samples.demoTask Samples.exporting
            (Json (Some Samples.failedExport))))
    [NotOk; Json None]
  = (fst (checkExportStatus Samples.demoTask Samples.exporting
            (Json (Some Samples.failedExport))), []).
Proof.
  exact (proj2 (proj2 (proj2 (proj2 (proj2 (proj2
           (export_failed_clears_polling Samples.demoTask Samples.exporting
              Samples.failedExport [NotOk; Json None] eq_refl))))))).
Defined.

(** C8 as stated fails: closing the dialog of an export in flight leaves
    the export interval armed, and the next period still asks the
    backend for the export status. *)
Lemma closing_dialog_keeps_export_polling :
  let s' := fst (closeExportDialog Samples.exporting) in
  isExporting Samples.exporting = true
  /\ armed (exportPollingInterval s') = true
  /\ snd (exportTick Samples.demoTask s' (Json None)) = [Send (GetExportStatus "t1")].
Proof. by vm_compute. Qed.

(** C8, amended. Closing the export dialog, by its button or otherwise,
    performs no effect at all: no request is sent, so nothing is
    cancelled on the backend, and no interval is cleared.  Its only
    consequence is on view state: the dialog is hidden, and when no
    export is in flight the status and the exported URL are reset.  The
    export interval is left as it was, so the polling of a job in
    flight continues exactly as if the dialog had stayed open; only the
    unmounting of the editor stops it. *)
Theorem close_dialog_only_changes_view_state (s : ExportState) :
  let s' := fst (closeExportDialog s) in
  snd (closeExportDialog s) = []
  /\ snd (onOpenChange false s) = []
  /\ exportPollingInterval s' = exportPollingInterval s
  /\ exportPollingInterval (fst (onOpenChange false s)) = exportPollingInterval s
  /\ isExporting s' = isExporting s
  /\ exportTaskId s' = exportTaskId s
  /\ showExportDialog s' = false
  /\ (isExporting s = true ->
      exportStatus s' = exportStatus s
      /\ exportedVideoUrl s' = exportedVideoUrl s
      /\ forall task r,
           snd (exportTick task s' r) = snd (exportTick task s r)
           /\ exportPollingInterval (fst (exportTick task s' r))
              = exportPollingInterval (fst (exportTick task s r)))
  /\ (isExporting s = false -> exportStatus s' = None /\ exportedVideoUrl s' = None)
  /\ armed (exportPollingInterval (fst (unmount s))) = false.
Proof.
  intros s'. subst s'. unfold closeExportDialog. simpl.
  repeat split; try done.
  - by rewrite H.
  - by rewrite H.
  - rewrite H. unfold exportTick. simpl.
    destruct (armed (exportPollingInterval s)); [|done].
    destruct r as [| |[d|]]; simpl; try done.
    destruct (_ && _); [done|]. by destruct (_ =? _)%string.
  - rewrite H. unfold exportTick. simpl.
    destruct (armed (exportPollingInterval s)); [|done].
    destruct r as [| |[d|]]; simpl; try done.
    destruct (_ && _); [done|]. by destruct (_ =? _)%string.
  - by rewrite H.
  - by rewrite H.
  - by destruct (exportPollingInterval s).
Qed.

Lemma close_dialog_witness :
  exportStatus (fst (closeExportDialog Samples.exporting)) = Some "EXPORTING".
Proof.
  destruct (close_dialog_only_changes_view_state Samples.exporting)
    as (_ & _ & _ & _ & _ & _ & _ & H & _).
  exact (proj1 (H eq_refl)).
Defined.

End ExportFacts.

Module PollingFacts.
Import Browser.

Lemma dashboard_tick_failed (s : Dashboard.State) r :
  failed r = true ->
  armed (Dashboard.pollingInterval s) = true ->
  existsb Dashboard.isIncomplete (Dashboard.tasks s) = true ->
  Dashboard.tick s r
  = ({| Dashboard.tasks := Dashboard.tasks s;
        Dashboard.hasIncompleteTask := true;
        Dashboard.pollingInterval := Dashboard.pollingInterval s |},
     [Send (Dashboard.BulkStatus
              (map Dashboard.id (List.filter Dashboard.isIncomplete (Dashboard.tasks s))));
      ConsoleError "Error updating tasks:"]).
Proof.
  intros Hf Ha Hex. unfold Dashboard.tick, Dashboard.checkAndUpdateTasks.
  rewrite Ha, DashboardFacts.filter_nonempty, Hex. by destruct r.
Qed.

Lemma shotTick_sends task s r :
  armed (Editor.pollingInterval s) = true ->
  exists rest, snd (Editor.shotTick task s r)
               = Send (Editor.GetTask (Editor.task_id task)) :: rest.
Proof.
  intros Ha. unfold Editor.shotTick. rewrite Ha.
  destruct r as [| |[l|]]; simpl; eauto.
Qed.

Lemma exportTick_sends task s r :
  armed (Editor.exportPollingInterval s) = true ->
  exists rest, snd (ExportFlow.exportTick task s r)
               = Send (Editor.GetExportStatus (Editor.task_id task)) :: rest.
Proof.
  intros Ha. unfold ExportFlow.exportTick. rewrite Ha.
  destruct r as [| |[d|]]; simpl; eauto.
  destruct (_ && _); simpl; eauto.
  destruct (_ =? _)%string; simpl; eauto.
Qed.

(** C6. In each of the three polling loops, a tick whose status request
    fails (the fetch rejects or the response is not ok) does exactly
    this: it sends the request and logs the error to the console.  No
    interval is cleared, the interval ref and the polled data are as
    before, and the next period's tick sends the request again.  For
    the dashboard this concerns ticks that fetch at all, that is, with
    an in-flight task in the list. *)
Theorem fetch_failure_keeps_polling :
  (forall (s : Dashboard.State) (r : Response (list Dashboard.VideoTask)),
      failed r = true ->
      armed (Dashboard.pollingInterval s) = true ->
      existsb Dashboard.isIncomplete (Dashboard.tasks s) = true ->
      let s' := fst (Dashboard.tick s r) in
      let effs := snd (Dashboard.tick s r) in
      existsb isConsoleError effs = true
      /\ existsb (isClear TaskPolling) effs = false
      /\ length effs = 2%nat
      /\ Dashboard.pollingInterval s' = Dashboard.pollingInterval s
      /\ Dashboard.tasks s' = Dashboard.tasks s
      /\ forall r', exists rest,
           snd (Dashboard.tick s' r')
           = Send (Dashboard.BulkStatus
                     (map Dashboard.id
                        (List.filter Dashboard.isIncomplete (Dashboard.tasks s)))) :: rest)
  /\ (forall (task : Editor.VideoTask) (s : Editor.EditState) (r : Response (list Editor.Shot)),
        failed r = true ->
        armed (Editor.pollingInterval s) = true ->
        let s' := fst (Editor.shotTick task s r) in
        let effs := snd (Editor.shotTick task s r) in
        existsb isConsoleError effs = true
        /\ existsb (isClear ShotPolling) effs = false
        /\ length effs = 2%nat
        /\ s' = s
        /\ forall r', exists rest,
             snd (Editor.shotTick task s' r')
             = Send (Editor.GetTask (Editor.task_id task)) :: rest)
  /\ (forall (task : Editor.VideoTask) (s : Editor.ExportState)
             (r : Response ExportFlow.ExportData),
        failed r = true ->
        armed (Editor.exportPollingInterval s) = true ->
        let s' := fst (ExportFlow.exportTick task s r) in
        let effs := snd (ExportFlow.exportTick task s r) in
        existsb isConsoleError effs = true
        /\ existsb (isClear ExportPolling) effs = false
        /\ length effs = 2%nat
        /\ s' = s
        /\ forall r', exists rest,
             snd (ExportFlow.exportTick task s' r')
             = Send (Editor.GetExportStatus (Editor.task_id task)) :: rest).
Proof.
  split; [|split].
  - intros s r Hf Ha Hex s' effs. subst s' effs.
    rewrite (dashboard_tick_failed s r Hf Ha Hex). simpl.
    repeat split; try done. intros r'.
    unfold Dashboard.tick. simpl. rewrite Ha.
    exact (DashboardFacts.checkAndUpdateTasks_fetches
             {| Dashboard.tasks := Dashboard.tasks s;
                Dashboard.hasIncompleteTask := true;
                Dashboard.pollingInterval := Dashboard.pollingInterval s |} r' Hex).
  - intros task s r Hf Ha s' effs. subst s' effs.
    assert (Ht : Editor.shotTick task s r
                 = (s, [Send (Editor.GetTask (Editor.task_id task));
                        ConsoleError "Error checking shot status:"])).
    { unfold Editor.shotTick. rewrite Ha.
      by apply EditorFacts.checkShotStatus_failed. }
    rewrite Ht. simpl.
    repeat split; try done. intros r'. by apply shotTick_sends.
  - intros task s r Hf Ha s' effs. subst s' effs.
    assert (Ht : ExportFlow.exportTick task s r
                 = (s, [Send (Editor.GetExportStatus (Editor.task_id task));
                        ConsoleError "Error checking export status:"])).
    { unfold ExportFlow.exportTick. rewrite Ha.
      by apply ExportFacts.checkExportStatus_failed. }
    rewrite Ht. simpl.
    repeat split; try done. intros r'. by apply exportTick_sends.
Qed.

Lemma fetch_failure_witness :
  Dashboard.pollingInterval
    (fst (Dashboard.tick
            (fst (Dashboard.loadTasks [Samples.taskA "PENDING"] Dashboard.initial))
            NotOk)) = Armed
  /\ fst (Editor.shotTick Samples.demoTask
            (fst (Editor.handleRegenerate Samples.demoTask
                    (Samples.editing Editor.video (JsString.ofString "a sunset"))
                    (Json None) (Json None) NotOk))
            NetworkError)
     = fst (Editor.handleRegenerate Samples.demoTask
              (Samples.editing Editor.video (JsString.ofString "a sunset"))
              (Json None) (Json None) NotOk)
  /\ fst (ExportFlow.exportTick Samples.demoTask Samples.exporting NotOk)
     = Samples.exporting.
Proof.
  destruct fetch_failure_keeps_polling as (Hd & Hs & He).
  split; [|split].
  - exact (proj1 (proj2 (proj2 (proj2
             (Hd (fst (Dashboard.loadTasks [Samples.taskA "PENDING"] Dashboard.initial))
                 NotOk eq_refl eq_refl eq_refl))))).
  - exact (proj1 (proj2 (proj2 (proj2
             (Hs Samples.demoTask
                 (fst (Editor.handleRegenerate Samples.demoTask
                         (Samples.editing Editor.video (JsString.ofString "a sunset"))
                         (Json None) (Json None) NotOk))
                 NetworkError eq_refl eq_refl))))).
  - exact (proj1 (proj2 (proj2 (proj2
             (He Samples.demoTask Samples.exporting NotOk eq_refl eq_refl))))).
Defined.

End PollingFacts.

(** ** The handlers on small inputs *)

Module Examples.
Import Browser JsString Editor.

Example split_blank_line :
  split newline (ofString "a" ++ [newline; newline] ++ ofString "b")
  = [ofString "a"; []; ofString "b"].
Proof. reflexivity. Qed.

Example split_empty : split newline [] = [[]].
Proof. reflexivity. Qed.

Example trim_unicode_space :
  trim ([0xA0; 0x09]%N ++ ofString "hi" ++ [0x3000; 0x0D]%N) = ofString "hi".
Proof. reflexivity. Qed.

Example captions_of_whitespace_input : newCaptions (ofString "  ") = [].
Proof. reflexivity. Qed.

(** With two local tasks under one id only the first is ever replaced. *)
Example merge_first_match_only :
  Dashboard.mergeTasks [Samples.taskA "PENDING"; Samples.taskA "PROCESSING"]
    [Samples.taskA "COMPLETED"]
  = [Samples.taskA "COMPLETED"; Samples.taskA "PROCESSING"].
Proof. reflexivity. Qed.

(** A partial answer: the tick clears the interval because everything it
    was told is terminal, and the re-render arms it again for the task
    that is still in flight. *)
Example partial_answer_keeps_polling :
  Dashboard.tick
    (fst (Dashboard.loadTasks [Samples.taskA "PENDING"; Samples.taskB "PROCESSING"]
            Dashboard.initial))
    (Json (Some [Samples.taskA "COMPLETED"]))
  = ({| Dashboard.tasks := [Samples.taskA "COMPLETED"; Samples.taskB "PROCESSING"];
        Dashboard.hasIncompleteTask := true;
        Dashboard.pollingInterval := Armed |},
     [Send (Dashboard.BulkStatus ["a"; "b"]);
      ClearInterval TaskPolling;
      ClearInterval TaskPolling;
      ClearInterval TaskPolling;
      SetInterval TaskPolling 5000]).
Proof. reflexivity. Qed.

Example export_request_of_demo_task :
  ExportFlow.buildTracks "http://api" Samples.demoTask (task_shots Samples.demoTask)
  = [ {| track_id := "video-track"; track_type := "video";
         keyframes := [ {| timestamp := 0; duration := 5000; url := "v0.mp4" |};
                        {| timestamp := 5000; duration := 5000; url := "v1.mp4" |} ] |};
      {| track_id := "voiceover-track"; track_type := "audio";
         keyframes := [ {| timestamp := 0; duration := 5000;
                           url := "http://api/audio.mp3" |};
                        {| timestamp := 5000; duration := 5000;
                           url := "http://api/audio.mp3" |} ] |};
      {| track_id := "background-music"; track_type := "audio";
         keyframes := [ {| timestamp := 0; duration := 10000; url := "music.mp3" |} ] |} ].
Proof. reflexivity. Qed.

(** An audio edit whose voiceover request fails never reaches the
    regeneration request. *)
Example audio_edit_without_voiceover :
  snd (handleRegenerate Samples.demoTask
         (Samples.editing audio (ofString "Good evening")) NotOk (Json None) NotOk)
  = [Send (GenerateVoiceover "t1" (ofString "Good evening") "english");
     ConsoleError "Error regenerating shot:";
     ToastError "Failed to regenerate audio"].
Proof. reflexivity. Qed.

(** The image dialog's own button updates the shot directly, without
    polling. *)
Example generate_image_is_direct :
  snd (handleGenerateImage Samples.demoTask
         (Samples.editing image (ofString "a harbour"))
         (Json (Some (Some "img.png")))
         (Json (Some (TaskStore.mutate 0 (TaskStore.ShotUpdate "img.png")
                        (task_shots Samples.demoTask)))))
  = [Send (GenerateImage (ofString "a harbour") "realistic");
     Send (UpdateShot "t1" 0 (Some "img.png"));
     ToastSuccess "Starting image generated successfully"].
Proof. reflexivity. Qed.

End Examples.

(** ** Facts about the rest of the dashboard *)

Module DashboardViewFacts.
Import Browser JsString Dashboard DashboardView.

Lemma assignTasks_state ts s :
  Dashboard.tasks (poll (fst (assignTasks ts s))) = ts
  /\ armed (pollingInterval (poll (fst (assignTasks ts s))))
     = existsb (fun task => negb (isTerminal task)) ts
  /\ selectedTask (fst (assignTasks ts s)) = selectionOf (selectedTaskId s) ts
  /\ selectedTaskId (fst (assignTasks ts s)) = selectedTaskId s
  /\ isLoading (fst (assignTasks ts s)) = isLoading s.
Proof.
  unfold assignTasks, loadTasks.
  match goal with |- context [pollingEffect ?x] =>
    pose proof (DashboardFacts.pollingEffect_tasks x) as Ht;
    pose proof (DashboardFacts.pollingEffect_armed x) as Ha;
    destruct (pollingEffect x) end.
  simpl in *. by rewrite Ht, Ha.
Qed.

Lemma find_filter_other {A} (p q : A -> bool) l :
  (forall x, p x = true -> q x = true) ->
  find p (List.filter q l) = find p l.
Proof.
  intros Hpq. induction l as [|x l IH]; simpl; [done|].
  destruct (q x) eqn:Hq; simpl.
  - by rewrite IH.
  - destruct (p x) eqn:Hp; [|done]. rewrite (Hpq x Hp) in Hq. discriminate Hq.
Qed.

Lemma find_filter_none {A} (p q : A -> bool) l :
  (forall x, p x = true -> q x = false) ->
  find p (List.filter q l) = None.
Proof.
  intros Hpq. induction l as [|x l IH]; simpl; [done|].
  destruct (q x) eqn:Hq; simpl; [|done].
  destruct (p x) eqn:Hp; [|done]. rewrite (Hpq x Hp) in Hq. discriminate Hq.
Qed.

Lemma filter_all_true {A} (q : A -> bool) l :
  (forall x, x ∈ l -> q x = true) -> List.filter q l = l.
Proof.
  induction l as [|x l IH]; intros H; simpl; [done|].
  rewrite (H x) by left. rewrite IH; [done|]. intros y Hy. apply H. by right.
Qed.

Lemma filter_sublist {A} (q : A -> bool) l : List.filter q l `sublist_of` l.
Proof.
  induction l as [|x l IH]; simpl; [constructor|].
  destruct (q x); by constructor.
Qed.

(** X1. A deletion the backend refuses changes nothing and is reported.
    An accepted one removes every task with that id and nothing else,
    keeps the others in their order, re-arms or stops the polling
    according to what is left, drops the selection when the deleted task
    was the selected one and otherwise leaves the selection as the list
    before gave it. *)
Theorem delete_removes_exactly_that_project
    (taskId : string) (s : State) (r : Response unit) :
  let s' := fst (handleDelete taskId s r) in
  let kept := Dashboard.tasks (poll s') in
  (failed r = true ->
   s' = s /\ existsb isToastError (snd (handleDelete taskId s r)) = true)
  /\ (failed r = false ->
      kept = List.filter (fun task => negb (id task =? taskId)%string)
               (Dashboard.tasks (poll s))
      /\ (forall t, t ∈ kept <-> t ∈ Dashboard.tasks (poll s) /\ id t <> taskId)
      /\ kept `sublist_of` Dashboard.tasks (poll s)
      /\ armed (pollingInterval (poll s'))
         = existsb (fun task => negb (isTerminal task)) kept
      /\ (selectedTaskId s = Some taskId -> selectedTask s' = None)
      /\ (forall i, selectedTaskId s = Some i -> i <> taskId ->
            selectedTask s' = selectionOf (Some i) (Dashboard.tasks (poll s)))).
Proof.
  intros s' kept. subst s' kept. split.
  - intros Hf. by destruct r.
  - intros Hf. destruct r as [| |b]; try discriminate Hf. simpl.
    match goal with |- context [assignTasks ?ts s] =>
      destruct (assignTasks_state ts s) as (Ht & Ha & Hs & _);
      destruct (assignTasks ts s) as [s1 effs] end.
    simpl in *. rewrite Ht, Ha, Hs.
    split; [done|]. split; [|split; [|split; [done|split]]].
    + intros t. rewrite !list_elem_of_In, filter_In, negb_true_iff, String.eqb_neq.
      done.
    + apply filter_sublist.
    + intros ->. unfold selectionOf.
      destruct (taskId =? "")%string; [done|].
      apply find_filter_none. intros x Hx. by rewrite Hx.
    + intros i -> Hne. unfold selectionOf.
      destruct (i =? "")%string; [done|].
      apply find_filter_other. intros x Hx. apply String.eqb_eq in Hx.
      apply negb_true_iff, String.eqb_neq. congruence.
Qed.

Lemma delete_witness :
  Dashboard.tasks
    (poll (fst (handleDelete "a"
                  (fst (fetchTasks (mounted (Some "a"))
                          (Json (Some [Samples.taskA "PENDING";
                                       Samples.taskB "COMPLETED"]))))
                  (Json None))))
  = [Samples.taskB "COMPLETED"].
Proof.
  exact (proj1 (proj2 (delete_removes_exactly_that_project "a"
                         (fst (fetchTasks (mounted (Some "a"))
                                 (Json (Some [Samples.taskA "PENDING";
                                              Samples.taskB "COMPLETED"]))))
                         (Json None)) eq_refl)).
Defined.

(** *** The selected task *)

Lemma applyUpdate_cons x l u :
  applyUpdate (x :: l) u
  = if (id x =? id u)%string then u :: l else x :: applyUpdate l u.
Proof.
  unfold applyUpdate. simpl.
  destruct (id x =? id u)%string; [done|].
  by destruct (findIndex _ l).
Qed.

Lemma find_applyUpdate i u l :
  find (fun t => (id t =? i)%string) (applyUpdate l u)
  = match find (fun t => (id t =? i)%string) l with
    | Some t => Some (if (id u =? i)%string then u else t)
    | None => None
    end.
Proof.
  induction l as [|x l IH]; [done|].
  rewrite applyUpdate_cons.
  destruct (id x =? id u)%string eqn:Hxu; simpl.
  - apply String.eqb_eq in Hxu. rewrite Hxu.
    destruct (id u =? i)%string; [done|].
    by destruct (find _ l).
  - destruct (id x =? i)%string eqn:Hxi.
    + apply String.eqb_eq in Hxi. apply String.eqb_neq in Hxu.
      destruct (id u =? i)%string eqn:Hui; [|done].
      apply String.eqb_eq in Hui. congruence.
    + exact IH.
Qed.

(** In the merged list the first task with a given id is the last
    response entry with that id, if the list had a task with that id and
    the response an entry; it is the old task without such an entry. *)
Lemma find_mergeTasks i data : forall l,
  find (fun t => (id t =? i)%string) (mergeTasks l data)
  = match find (fun t => (id t =? i)%string) l with
    | Some t => Some (default t (last (List.filter (fun u => (id u =? i)%string) data)))
    | None => None
    end.
Proof.
  induction data as [|u data IH]; intros l.
  - simpl. by destruct (find _ l).
  - unfold mergeTasks in *. simpl. rewrite IH, find_applyUpdate.
    destruct (find _ l) as [t|]; [|done].
    destruct (id u =? i)%string; [|done].
    rewrite last_cons. by destruct (last _).
Qed.

Lemma tick_keeps_tasks p r :
  tickReplacesTasks p r = false -> Dashboard.tasks (fst (tick p r)) = Dashboard.tasks p.
Proof.
  unfold tickReplacesTasks, tick, checkAndUpdateTasks.
  rewrite DashboardFacts.filter_nonempty.
  destruct (armed (pollingInterval p)); [|done].
  destruct (existsb isIncomplete (tasks p)); [|done].
  by destruct r as [| |[data|]].
Qed.

Lemma tick_merges_tasks p data :
  tickReplacesTasks p (Json (Some data)) = true ->
  Dashboard.tasks (fst (tick p (Json (Some data)))) = mergeTasks (Dashboard.tasks p) data.
Proof.
  unfold tickReplacesTasks, tick, checkAndUpdateTasks.
  rewrite DashboardFacts.filter_nonempty.
  destruct (armed (pollingInterval p)); [|done].
  destruct (existsb isIncomplete (tasks p)); [|done].
  intros _.
  match goal with |- context [pollingEffect ?x] =>
    pose proof (DashboardFacts.pollingEffect_tasks x) as Ht;
    destruct (pollingEffect x) end.
  exact Ht.
Qed.

Lemma find_Some {A} (p : A -> bool) l t :
  find p l = Some t -> t ∈ l /\ p t = true.
Proof.
  induction l as [|x l IH]; simpl; [done|].
  destruct (p x) eqn:Hx.
  - intros [= <-]. split; [left|done].
  - intros Ht. destruct (IH Ht). split; [by right|done].
Qed.

(** What every event keeps true of the selection. *)
Lemma step_selection s e :
  selectedTask s = selectionOf (selectedTaskId s) (Dashboard.tasks (poll s)) ->
  selectedTask (fst (step s e))
  = selectionOf (selectedTaskId (fst (step s e))) (Dashboard.tasks (poll (fst (step s e)))).
Proof.
  intros Hs. destruct e as [r|taskId r|task|r]; simpl.
  - unfold fetchTasks.
    destruct r as [| |[data|]];
      match goal with |- context [assignTasks ?ts s] =>
        destruct (assignTasks_state ts s) as (Ht & _ & Hsel & Hid & _);
        destruct (assignTasks ts s) as [s1 effs] end;
      simpl in *; by rewrite Ht, Hsel, Hid.
  - unfold handleDelete. destruct r as [| |b]; try done.
    match goal with |- context [assignTasks ?ts s] =>
      destruct (assignTasks_state ts s) as (Ht & _ & Hsel & Hid & _);
      destruct (assignTasks ts s) as [s1 effs] end.
    simpl in *. by rewrite Ht, Hsel, Hid.
  - done.
  - unfold period.
    pose proof (tick_keeps_tasks (poll s) r) as Hk.
    destruct (tick (poll s) r) as [p effs]. simpl in *.
    destruct (tickReplacesTasks (poll s) r); [done|].
    by rewrite Hk.
Qed.

(** X2. Whatever happens to the dashboard (loads, deletions, selections,
    polling periods with any answers), the task handed to the editor is
    the first task of the current list that carries the id of the URL,
    and there is none when the URL names no task or the list has no task
    with that id: the editor never shows a snapshot the list no longer
    holds. *)
Theorem selection_tracks_task_list (taskId : option string) (es : list Event) :
  let s := fst (run (mounted taskId) es) in
  selectedTask s = selectionOf (selectedTaskId s) (Dashboard.tasks (poll s))
  /\ (forall t, selectedTask s = Some t ->
        t ∈ Dashboard.tasks (poll s) /\ selectedTaskId s = Some (id t)).
Proof.
  intros s.
  assert (Hinv : selectedTask s = selectionOf (selectedTaskId s) (Dashboard.tasks (poll s))).
  { subst s.
    assert (H0 : selectedTask (mounted taskId)
                 = selectionOf (selectedTaskId (mounted taskId))
                     (Dashboard.tasks (poll (mounted taskId)))) by done.
    revert H0. generalize (mounted taskId).
    induction es as [|e es IH]; intros s0 H0; simpl; [done|].
    pose proof (step_selection s0 e H0) as H1.
    destruct (step s0 e) as [s1 e1]. simpl in H1.
    specialize (IH s1 H1). by destruct (run s1 es). }
  split; [done|]. intros t Ht. rewrite Hinv in Ht. unfold selectionOf in Ht.
  destruct (selectedTaskId s) as [i|]; [|done].
  destruct (i =? "")%string; [done|].
  apply find_Some in Ht as [Hin Hi]. apply String.eqb_eq in Hi.
  split; [done | by rewrite Hi].
Qed.

(** X3. When a polling period brings an answer, the task open in the
    editor is replaced by the last entry of the answer that carries its
    id; it stays as it is when the answer has no such entry, and a URL
    naming a task that is not on the list keeps selecting nothing. *)
Theorem poll_refreshes_selected_task
    (s : State) (data : list Dashboard.VideoTask) (i : string) :
  armed (pollingInterval (poll s)) = true ->
  existsb isIncomplete (Dashboard.tasks (poll s)) = true ->
  selectedTaskId s = Some i ->
  i <> "" ->
  selectedTask (fst (period s (Json (Some data))))
  = match find (fun t => (id t =? i)%string) (Dashboard.tasks (poll s)) with
    | Some t => Some (default t (last (List.filter (fun u => (id u =? i)%string) data)))
    | None => None
    end.
Proof.
  intros Ha Hex Hid Hne. unfold period.
  assert (Hr : tickReplacesTasks (poll s) (Json (Some data)) = true)
    by (unfold tickReplacesTasks; by rewrite Ha, Hex).
  pose proof (tick_merges_tasks (poll s) data Hr) as Hm.
  destruct (tick (poll s) (Json (Some data))) as [p effs]. simpl in *.
  rewrite Hr, Hid, Hm. unfold selectionOf.
  apply String.eqb_neq in Hne. rewrite Hne. apply find_mergeTasks.
Qed.

Lemma poll_refresh_witness :
  selectedTask
    (fst (period (fst (fetchTasks (mounted (Some "a"))
                         (Json (Some [Samples.taskB "COMPLETED";
                                      Samples.taskA "PENDING"]))))
            (Json (Some [Samples.taskA "PROCESSING"; Samples.taskA "COMPLETED"]))))
  = Some (Samples.taskA "COMPLETED").
Proof.
  exact (poll_refreshes_selected_task
           (fst (fetchTasks (mounted (Some "a"))
                   (Json (Some [Samples.taskB "COMPLETED"; Samples.taskA "PENDING"]))))
           [Samples.taskA "PROCESSING"; Samples.taskA "COMPLETED"] "a"
           eq_refl eq_refl eq_refl ltac:(discriminate)).
Defined.

Lemma selection_witness :
  selectedTaskId (fst (run (mounted None)
                         [Fetched (Json (Some [Samples.taskA "PENDING"]));
                          Selected (Some (Samples.taskA "PENDING"));
                          Elapsed (Json (Some [Samples.taskA "COMPLETED"]))]))
  = Some "a".
Proof.
  exact (proj2 (proj2 (selection_tracks_task_list None
                         [Fetched (Json (Some [Samples.taskA "PENDING"]));
                          Selected (Some (Samples.taskA "PENDING"));
                          Elapsed (Json (Some [Samples.taskA "COMPLETED"]))])
                  (Samples.taskA "COMPLETED") eq_refl)).
Defined.

(** *** Loading *)

(** Assigning the list shows no error and sends nothing. *)
Lemma assignTasks_quiet ts s :
  existsb isToastError (snd (assignTasks ts s)) = false.
Proof.
  unfold assignTasks, loadTasks, pollingEffect, clearEffects. simpl.
  destruct (_ <? _)%nat; simpl;
    destruct (pollingInterval (poll s)); simpl; done.
Qed.

(** X4. [fetchTasks] always ends with the loading flag down.  When the
    listing fails, or answers with an empty body, the list becomes empty
    whatever it held, the polling interval is no longer armed even if
    tasks were in flight, and nothing is selected any more; a failure is
    also shown to the user.  When it answers with a list, that list
    replaces the old one and the interval is armed exactly when one of
    its tasks is neither COMPLETED nor FAILED. *)
Theorem reload_replaces_list
    (s : State) (r : Response (list Dashboard.VideoTask)) :
  let s' := fst (fetchTasks s r) in
  let listed := match r with Json (Some data) => data | _ => [] end in
  isLoading s' = false
  /\ Dashboard.tasks (poll s') = listed
  /\ armed (pollingInterval (poll s'))
     = existsb (fun task => negb (isTerminal task)) listed
  /\ selectedTask s' = selectionOf (selectedTaskId s) listed
  /\ existsb isToastError (snd (fetchTasks s r)) = failed r
  /\ (listed = [] -> armed (pollingInterval (poll s')) = false /\ selectedTask s' = None).
Proof.
  intros s' listed.
  assert (Hnil : forall o, selectionOf o [] = None).
  { intros [i|]; [|done]. simpl. by destruct (i =? "")%string. }
  assert (H : isLoading s' = false
              /\ Dashboard.tasks (poll s') = listed
              /\ armed (pollingInterval (poll s'))
                 = existsb (fun task => negb (isTerminal task)) listed
              /\ selectedTask s' = selectionOf (selectedTaskId s) listed
              /\ existsb isToastError (snd (fetchTasks s r)) = failed r).
  { subst s' listed. unfold fetchTasks.
    destruct r as [| |[data|]];
      match goal with |- context [assignTasks ?ts s] =>
        destruct (assignTasks_state ts s) as (Ht & Ha & Hsel & _ & _);
        pose proof (assignTasks_quiet ts s) as Hq;
        destruct (assignTasks ts s) as [s1 effs] end;
      simpl in *; by rewrite Ht, Ha, Hsel, ?Hq. }
  destruct H as (H1 & H2 & H3 & H4 & H5).
  repeat split; try done.
  - rewrite H3, H. done.
  - rewrite H4, H. apply Hnil.
Qed.

Lemma reload_witness :
  armed (pollingInterval
           (poll (fst (fetchTasks
                         (fst (fetchTasks (mounted None)
                                 (Json (Some [Samples.taskA "PENDING"]))))
                         NotOk)))) = false.
Proof.
  exact (proj1 (proj2 (proj2 (proj2 (proj2 (proj2
           (reload_replaces_list
              (fst (fetchTasks (mounted None) (Json (Some [Samples.taskA "PENDING"]))))
              NotOk))))) eq_refl)).
Defined.

(** *** Search and cards *)

Lemma startsWith_spec s sub :
  startsWith s sub = true <-> exists post, s = sub ++ post.
Proof.
  revert s. induction sub as [|b sub IH]; intros s.
  - split; [eauto | by destruct s].
  - destruct s as [|a s]; simpl.
    + split; [done|]. by intros [post H].
    + rewrite andb_true_iff, N.eqb_eq, IH. split.
      * intros [-> [post ->]]. eauto.
      * intros [post [= -> ->]]. eauto.
Qed.

(** [includes] finds exactly the contiguous occurrences. *)
Lemma includes_spec s sub :
  includes s sub = true <-> exists pre post, s = pre ++ sub ++ post.
Proof.
  induction s as [|a s IH].
  - change (includes [] sub) with (startsWith [] sub || false).
    rewrite orb_false_r, startsWith_spec. split.
    + intros [post H]. by exists [], post.
    + intros (pre & post & H). destruct pre; [by exists post|done].
  - change (includes (a :: s) sub) with (startsWith (a :: s) sub || includes s sub).
    rewrite orb_true_iff, startsWith_spec, IH. split.
    + intros [[post H]|(pre & post & ->)].
      * by exists [], post.
      * by exists (a :: pre), post.
    + intros (pre & post & H). destruct pre as [|c pre].
      * left. by exists post.
      * injection H as -> ->. right. eauto.
Qed.

Lemma includes_empty s : includes s [] = true.
Proof. by destruct s. Qed.

(** X5. A project is listed by the search exactly when its title or its
    description, in lower case, contains the query in lower case as a
    contiguous piece; the results keep the order of the list.  With the
    empty query the projects listed are those that have a title or a
    description at all, so a project without project data is never
    shown.  The empty state is shown only for an empty list, with the
    message about creating a project: when a search matches nothing, an
    empty grid is shown and the message about search criteria never
    appears. *)
Theorem search_lists_matching_projects
    (toLowerCase : jsstr -> jsstr) (tasks : list Listed) (searchQuery : jsstr)
    (loading : bool) :
  toLowerCase [] = [] ->
  (forall task,
      task ∈ filteredTasks toLowerCase tasks searchQuery
      <-> task ∈ tasks
          /\ exists data text,
               project_data task = Some data
               /\ (project_title data = Some text \/ project_description data = Some text)
               /\ exists pre post,
                    toLowerCase text = pre ++ toLowerCase searchQuery ++ post)
  /\ filteredTasks toLowerCase tasks searchQuery `sublist_of` tasks
  /\ filteredTasks toLowerCase tasks []
     = List.filter (fun task =>
                      match project_data task with
                      | Some data => match project_title data, project_description data with
                                     | None, None => false
                                     | _, _ => true
                                     end
                      | None => false
                      end) tasks
  /\ (forall message,
        renderContent toLowerCase loading tasks searchQuery = EmptyState message ->
        tasks = [] /\ loading = false
        /\ message = "No video projects found. Create a new project to get started.")
  /\ (loading = false -> tasks <> [] ->
      renderContent toLowerCase loading tasks searchQuery
      = Grid (filteredTasks toLowerCase tasks searchQuery)).
Proof.
  intros Hlow.
  assert (Hfield : forall field,
             fieldMatches toLowerCase field searchQuery = true
             <-> exists text, field = Some text
                              /\ exists pre post,
                                   toLowerCase text = pre ++ toLowerCase searchQuery ++ post).
  { intros [text|]; simpl.
    - rewrite includes_spec. split.
      + intros H. eauto.
      + by intros (t & [= <-] & H).
    - split; [done|]. by intros (t & H & _). }
  split; [|split; [|split; [|split]]].
  - intros task. unfold filteredTasks.
    rewrite !list_elem_of_In, filter_In, orb_true_iff, !Hfield.
    split.
    + intros [Hin [(text & Ht & Hm)|(text & Ht & Hm)]]; split; try done;
        destruct (project_data task) as [data|]; try done; simpl in Ht;
        exists data, text; auto.
    + intros [Hin (data & text & Hd & [Ht|Ht] & Hm)]; split; try done;
        rewrite Hd; simpl; [left|right]; eauto.
  - apply filter_sublist.
  - unfold filteredTasks. apply filter_ext. intros task.
    unfold fieldMatches.
    destruct (project_data task) as [data|]; simpl; [|done].
    rewrite Hlow.
    destruct (project_title data), (project_description data);
      rewrite ?includes_empty; done.
  - intros message. unfold renderContent.
    destruct loading; [done|].
    destruct tasks; simpl; [|done]. by intros [= <-].
  - intros -> Hne. unfold renderContent. by destruct tasks.
Qed.

Lemma search_witness :
  renderContent (fun text => text) false
    [ {| listed_task := Samples.taskA "COMPLETED";
         project_data := Some {| project_title := Some (ofString "Launch");
                                 project_description := None;
                                 refined_description := None |} |} ]
    (ofString "zzz")
  = Grid [].
Proof.
  exact (proj2 (proj2 (proj2 (proj2
           (search_lists_matching_projects (fun text => text)
              [ {| listed_task := Samples.taskA "COMPLETED";
                   project_data := Some {| project_title := Some (ofString "Launch");
                                           project_description := None;
                                           refined_description := None |} |} ]
              (ofString "zzz") false eq_refl)))) eq_refl ltac:(discriminate)).
Defined.

(** X6. A truncated text is never longer than the limit plus the three
    dots, and it agrees with the text up to the limit; a text within the
    limit is shown as it is.  So a card title has at most 23 characters
    and is never empty (a project without title is "Untitled Project"),
    and a card description has at most 103. *)
Theorem truncated_text_is_bounded (text : option jsstr) (maxLength : Z) (l : Listed) :
  (length (truncateText text maxLength) <= Z.to_nat maxLength + 3)%nat
  /\ take (Z.to_nat maxLength) (truncateText text maxLength)
     = take (Z.to_nat maxLength) (default [] text)
  /\ (forall t, text = Some t -> (Z.of_nat (length t) <= maxLength)%Z ->
        truncateText text maxLength = t)
  /\ (length (cardTitle l) <= 23)%nat
  /\ cardTitle l <> []
  /\ (length (cardDescription l) <= 103)%nat.
Proof.
  assert (Hlen : forall text m, (length (truncateText text m) <= Z.to_nat m + 3)%nat).
  { intros [[|c t]|] m; simpl; try lia.
    destruct (m <? _)%Z eqn:Hm.
    - rewrite length_app, length_take. simpl. lia.
    - apply Z.ltb_ge in Hm. simpl. lia. }
  split; [apply Hlen|]. split; [|split; [|split; [|split]]].
  - destruct text as [[|c t]|]; simpl; try done.
    destruct (maxLength <? _)%Z eqn:Hm; [|done].
    apply Z.ltb_lt in Hm.
    rewrite take_app_le by (rewrite length_take; simpl; lia).
    by rewrite take_take, Nat.min_id.
  - intros t -> Hle. destruct t as [|c t]; [done|]. simpl.
    apply Z.ltb_ge in Hle. simpl in Hle. by rewrite Hle.
  - apply (Hlen _ 20%Z).
  - unfold cardTitle.
    destruct (orElse _ _) as [[|c t]|] eqn:Ho.
    + unfold orElse in Ho. by destruct (project_data l ≫= project_title) as [[|]|].
    + simpl. by destruct (20 <? _)%Z.
    + unfold orElse in Ho. by destruct (project_data l ≫= project_title) as [[|]|].
  - apply (Hlen _ 100%Z).
Qed.

End DashboardViewFacts.

(** ** Facts about the export session *)

Module ExportSessionFacts.
Import Browser Editor ExportFlow ExportSession.

Lemma step_exporting_iff_armed apiUrl task s e :
  isExporting s = armed (exportPollingInterval s) ->
  isExporting (fst (step apiUrl task s e))
  = armed (exportPollingInterval (fst (step apiUrl task s e))).
Proof.
  intros Hs. destruct e as [r|l regenerating r|r| |open]; simpl.
  - unfold checkExistingExport. destruct r as [| |[d|]]; try done.
    destruct (_ && _); [done|]. by destruct (_ || _).
  - unfold clickExport.
    destruct (isExporting s || regenerating) eqn:Hgate; [exact Hs|].
    apply orb_false_iff in Hgate as [He _]. rewrite He in Hs.
    unfold handleExportVideo.
    destruct r as [| |[res|]]; simpl; try done.
    by destruct (_ =? _)%string.
  - unfold exportTick. destruct (armed (exportPollingInterval s)) eqn:Ha;
      [|simpl; congruence].
    unfold checkExportStatus. destruct r as [| |[d|]]; simpl; try congruence.
    destruct (_ && _); simpl.
    + by destruct (exportPollingInterval s).
    + destruct (_ =? _)%string; simpl; [|congruence].
      by destruct (exportPollingInterval s).
  - exact Hs.
  - exact Hs.
Qed.

(** X7. Through any history of the export part of the editor (the
    look-up of an existing export, clicks on the export button, polling
    periods with any answers, closing and reopening the dialog) the
    exporting flag is up exactly when the export interval is armed.  So
    the Export button, which is disabled while the flag is up, is never
    left disabled without a poll that can release it, no poll outlives
    the flag, and a click on the button never happens while a poll is
    running. *)
Theorem exporting_flag_iff_polling
    (apiUrl : string) (task : VideoTask) (es : list Event) :
  let s := fst (run apiUrl task mounted es) in
  isExporting s = armed (exportPollingInterval s)
  /\ (forall l regenerating r,
        armed (exportPollingInterval s) = true ->
        clickExport apiUrl task l regenerating s r = (s, [])).
Proof.
  intros s.
  assert (Hinv : isExporting s = armed (exportPollingInterval s)).
  { subst s.
    assert (H0 : isExporting mounted = armed (exportPollingInterval mounted)) by done.
    revert H0. generalize mounted.
    induction es as [|e es IH]; intros s0 H0; simpl; [done|].
    pose proof (step_exporting_iff_armed apiUrl task s0 e H0) as H1.
    destruct (step apiUrl task s0 e) as [s1 e1]. simpl in H1.
    specialize (IH s1 H1). by destruct (run apiUrl task s1 es). }
  split; [done|]. intros l regenerating r Ha.
  unfold clickExport. by rewrite Hinv, Ha.
Qed.

Lemma exporting_flag_witness :
  clickExport "http://api" Samples.demoTask [] false
    (fst (run "http://api" Samples.demoTask mounted
            [ExistingChecked (Json (Some {| data_status := "QUEUED";
                                            data_video_url := None;
                                            data_error := None |}));
             CloseClicked]))
    NotOk
  = (fst (run "http://api" Samples.demoTask mounted
            [ExistingChecked (Json (Some {| data_status := "QUEUED";
                                            data_video_url := None;
                                            data_error := None |}));
             CloseClicked]), []).
Proof.
  exact (proj2 (exporting_flag_iff_polling "http://api" Samples.demoTask
                  [ExistingChecked (Json (Some {| data_status := "QUEUED";
                                                  data_video_url := None;
                                                  data_error := None |}));
                   CloseClicked])
           [] false NotOk eq_refl).
Defined.

(** X8. A tick of the export loop disarms the interval exactly when the
    answer is COMPLETED together with a video URL, or FAILED.  Every
    other outcome keeps the loop running and the exporting flag, the
    dialog and the exported URL as they were: a failed request, an empty
    body, QUEUED, EXPORTING, any other status, and also COMPLETED
    without a URL.  On COMPLETED with a URL the URL is stored, the
    dialog is left as it is and the success toast is shown. *)
Theorem export_poll_ends_only_on_a_result
    (task : VideoTask) (s : ExportState) (r : Response ExportData) :
  armed (exportPollingInterval s) = true ->
  let s' := fst (exportTick task s r) in
  let completed := match r with
                   | Json (Some d) => (data_status d =? "COMPLETED")%string
                                      && hasUrl (data_video_url d)
                   | _ => false
                   end in
  let failedStatus := match r with
                      | Json (Some d) => (data_status d =? "FAILED")%string
                      | _ => false
                      end in
  armed (exportPollingInterval s') = negb (completed || failedStatus)
  /\ (completed || failedStatus = false ->
      isExporting s' = isExporting s
      /\ showExportDialog s' = showExportDialog s
      /\ exportedVideoUrl s' = exportedVideoUrl s
      /\ exportPollingInterval s' = exportPollingInterval s)
  /\ (completed = true ->
      isExporting s' = false
      /\ showExportDialog s' = showExportDialog s
      /\ (exists d, r = Json (Some d) /\ exportedVideoUrl s' = data_video_url d)
      /\ last (snd (exportTick task s r)) = Some (ToastSuccess "Video exported successfully")).
Proof.
  intros Ha s' completed failedStatus. subst s' completed failedStatus.
  unfold exportTick. rewrite Ha. unfold checkExportStatus.
  destruct r as [| |[d|]]; simpl; try (by rewrite Ha).
  destruct (_ && _) eqn:Hc; simpl.
  - split; [by destruct (exportPollingInterval s)|].
    split; [done|]. intros _. repeat split; try done; [eauto|].
    unfold clearEffects. by destruct (isSet _).
  - clear Hc. destruct (data_status d =? "FAILED")%string; simpl.
    + split; [by destruct (exportPollingInterval s)|].
      split; intros H; discriminate H.
    + rewrite Ha. split; [done|]. split; [done|]. intros H; discriminate H.
Qed.

Lemma export_poll_witness :
  armed (exportPollingInterval
           (fst (exportTick Samples.demoTask Samples.exporting
                   (Json (Some {| data_status := "COMPLETED";
                                  data_video_url := None;
                                  data_error := None |}))))) = true.
Proof.
  exact (proj1 (export_poll_ends_only_on_a_result Samples.demoTask Samples.exporting
                  (Json (Some {| data_status := "COMPLETED";
                                 data_video_url := None;
                                 data_error := None |})) eq_refl)).
Defined.

(** X9. Starting an export always sends the export request first.  The
    export is taken as started, flag up, status QUEUED, dialog open,
    interval armed, success toast, exactly when the answer has a body
    whose status is EXPORTING.  On every other outcome, a body with
    another status such as QUEUED or COMPLETED included, no interval is
    set, the interval ref is left as it was, the flag is down, the
    status is cleared, the dialog is closed and the error toast is
    shown. *)
Theorem export_starts_only_on_exporting
    (apiUrl : string) (task : VideoTask) (l : list Shot) (s : ExportState)
    (r : Response ExportResult) :
  let s' := fst (handleExportVideo apiUrl task l s r) in
  let effs := snd (handleExportVideo apiUrl task l s r) in
  let started := match r with
                 | Json (Some result) => (result_status result =? "EXPORTING")%string
                 | _ => false
                 end in
  head effs = Some (Send (ExportVideo (buildTracks apiUrl task l) (task_id task)))
  /\ isExporting s' = started
  /\ showExportDialog s' = started
  /\ exportStatus s' = (if started then Some "QUEUED" else None)
  /\ existsb isSetInterval effs = started
  /\ existsb isToastError effs = negb started
  /\ exportPollingInterval s' = (if started then Armed else exportPollingInterval s)
  /\ exportedVideoUrl s' = exportedVideoUrl s.
Proof.
  intros s' effs started. subst s' effs started. unfold handleExportVideo.
  destruct r as [| |[res|]]; simpl; try done.
  destruct (_ =? _)%string; simpl; [|done].
  repeat split; try done;
    unfold clearEffects; by destruct (isSet _).
Qed.

End ExportSessionFacts.

(** ** Facts about the edit dialog and the editing session *)

Module EditDialogFacts.
Import Browser JsString Editor EditDialog.

Lemma split_line sep (l : jsstr) :
  existsb (N.eqb sep) l = false -> split sep l = [l].
Proof.
  induction l as [|c l IH]; simpl; [done|].
  intros [Hc Hl]%orb_false_iff. rewrite N.eqb_sym, Hc. by rewrite (IH Hl).
Qed.

Lemma split_line_sep sep (l rest : jsstr) :
  existsb (N.eqb sep) l = false -> split sep (l ++ sep :: rest) = l :: split sep rest.
Proof.
  induction l as [|c l IH]; simpl.
  - intros _. by rewrite N.eqb_refl.
  - intros [Hc Hl]%orb_false_iff. rewrite N.eqb_sym, Hc. by rewrite (IH Hl).
Qed.

(** [split] undoes [join] on lines that do not contain the separator. *)
Lemma split_join sep (lines : list jsstr) :
  lines <> [] ->
  Forall (fun l => existsb (N.eqb sep) l = false) lines ->
  split sep (join sep lines) = lines.
Proof.
  induction lines as [|l lines IH]; [done|]. intros _ Hall.
  inversion Hall as [|? ? Hl Hrest]; subst.
  destruct lines as [|l2 lines].
  - simpl. by apply split_line.
  - change (join sep (l :: l2 :: lines)) with (l ++ sep :: join sep (l2 :: lines)).
    rewrite split_line_sep by done. by rewrite IH.
Qed.

Lemma filter_all {A} (p : A -> bool) l :
  Forall (fun x => p x = true) l -> List.filter p l = l.
Proof.
  induction 1 as [|x l Hx _ IH]; simpl; [done|]. by rewrite Hx, IH.
Qed.

(** X10. Opening the caption dialog from a card and submitting without
    touching the text sends back exactly the captions the shot has, for
    the order of that shot, provided the shot has a caption and none of
    its captions is blank or contains a line break: joining the captions
    with line breaks and cutting the text at line breaks again loses
    nothing. *)
Theorem unchanged_caption_dialog_resubmits_captions
    (task : VideoTask) (s : EditState) (shot : Shot)
    (rv : Response (option string)) (rr : Response unit) (rc : Response (list Shot)) :
  captions shot <> [] ->
  Forall (fun c => existsb (N.eqb newline) c = false /\ isBlank c = false) (captions shot) ->
  let opened := promptEffect (clickCardEdit shot caption s) in
  editPrompt opened = join newline (captions shot)
  /\ newCaptions (editPrompt opened) = captions shot
  /\ exists rest,
       snd (handleRegenerate task opened rv rr rc)
       = Send (UpdateCaptions (task_id task) (order shot) (captions shot)) :: rest.
Proof.
  intros Hne Hall opened.
  assert (Hp : editPrompt opened = join newline (captions shot)) by done.
  assert (Hn : newCaptions (join newline (captions shot)) = captions shot).
  { unfold newCaptions. rewrite split_join; [|done|].
    - apply filter_all. eapply Forall_impl; [exact Hall|].
      intros c [_ Hb]. simpl. by rewrite JsStringFacts.truthy_trim, Hb.
    - eapply Forall_impl; [exact Hall|]. by intros c [Hc _]. }
  assert (Ht : truthy (join newline (captions shot)) = true).
  { destruct (captions shot) as [|c cs]; [done|].
    inversion Hall as [|? ? [_ Hb] _]; subst.
    destruct c as [|a c]; [done|]. by destruct cs. }
  split; [done|]. split; [by rewrite Hp|].
  unfold handleRegenerate, handleCaptionUpdate.
  change (selectedShot opened) with (Some shot).
  change (editType opened) with (Some caption).
  rewrite Hp, Ht, Hn. simpl.
  destruct rc as [| |[l|]]; simpl; eauto.
Qed.

Lemma caption_dialog_witness :
  newCaptions
    (editPrompt (promptEffect
                   (clickCardEdit
                      (TaskStore.withCaptions [ofString "one"; ofString "two"]
                         (Samples.mkShot 0 "v0.mp4"))
                      caption (mounted Samples.demoTask))))
  = [ofString "one"; ofString "two"].
Proof.
  refine (proj1 (proj2 (unchanged_caption_dialog_resubmits_captions
                          Samples.demoTask (mounted Samples.demoTask)
                          (TaskStore.withCaptions [ofString "one"; ofString "two"]
                             (Samples.mkShot 0 "v0.mp4"))
                          NotOk NotOk NotOk _ _))).
  - discriminate.
  - repeat constructor.
Defined.

(** X11. After the prompt effect, the text of a freshly opened dialog is
    fixed by the kind of edit and the shot alone: the video prompt, the
    voiceover script, or the captions joined by line breaks.  The image
    dialog is in the last case: whatever the Edit Image click put there
    (the shot's image prompt), the dialog offers the captions, and
    Generate Image sends them as the prompt.  After Cancel the prompt is
    empty and no edit kind is set, and Regenerate, the caption update
    and Generate Image then do nothing at all. *)
Theorem dialog_prompt_comes_from_the_shot
    (task : VideoTask) (s : EditState) (shot : Shot) (ty : EditType) :
  showEditDialog s = false ->
  editPrompt (promptEffect (clickCardEdit shot ty s)) = initialValue ty shot
  /\ editPrompt (promptEffect (clickEditImage shot s)) = join newline (captions shot)
  /\ (forall ri ru,
        truthy (join newline (captions shot)) = true ->
        head (snd (handleGenerateImage task (promptEffect (clickEditImage shot s)) ri ru))
        = Some (Send (GenerateImage (join newline (captions shot)) (currentStyle s))))
  /\ (let closed := promptEffect (clickCancel (promptEffect (clickCardEdit shot ty s))) in
      editPrompt closed = [] /\ editType closed = None /\ showEditDialog closed = false
      /\ (forall rv rr rc, handleRegenerate task closed rv rr rc = (closed, []))
      /\ (forall rc, handleCaptionUpdate task closed rc = (closed, []))
      /\ (forall ri ru, handleGenerateImage task closed ri ru = (closed, []))).
Proof.
  intros Hclosed. split; [done|]. split; [done|]. split.
  - intros ri ru Ht. unfold handleGenerateImage.
    change (selectedShot (promptEffect (clickEditImage shot s))) with (Some shot).
    change (editPrompt (promptEffect (clickEditImage shot s)))
      with (join newline (captions shot)).
    rewrite Ht. simpl. destruct ri as [| |[u|]]; simpl; try done.
    by destruct ru as [| |[l|]].
  - simpl. repeat split; done.
Qed.

Lemma dialog_prompt_witness :
  editPrompt (promptEffect (clickEditImage (Samples.mkShot 0 "v0.mp4")
                              (mounted Samples.demoTask)))
  = ofString "Hello".
Proof.
  exact (proj1 (proj2 (dialog_prompt_comes_from_the_shot Samples.demoTask
                         (mounted Samples.demoTask) (Samples.mkShot 0 "v0.mp4") image
                         eq_refl))).
Defined.

(** *** The regenerating flag and the shot loop *)

Lemma handleCaptionUpdate_flags task s rc :
  hasRegeneratingShot (fst (handleCaptionUpdate task s rc)) = hasRegeneratingShot s
  /\ pollingInterval (fst (handleCaptionUpdate task s rc)) = pollingInterval s.
Proof.
  unfold handleCaptionUpdate.
  destruct (selectedShot s); [|done].
  destruct (truthy (editPrompt s)); [|done].
  by destruct rc as [| |[l|]].
Qed.

Lemma handleGenerateImage_flags task s ri ru :
  hasRegeneratingShot (fst (handleGenerateImage task s ri ru)) = hasRegeneratingShot s
  /\ pollingInterval (fst (handleGenerateImage task s ri ru)) = pollingInterval s.
Proof.
  unfold handleGenerateImage.
  destruct (selectedShot s); [|done].
  destruct (truthy (editPrompt s)); [|done].
  destruct ri as [| |[u|]]; try done.
  by destruct ru as [| |[l|]].
Qed.

Lemma handleRegenerate_flag task s rv rr rc :
  (hasRegeneratingShot s = true -> armed (pollingInterval s) = true) ->
  hasRegeneratingShot (fst (handleRegenerate task s rv rr rc)) = true ->
  armed (pollingInterval (fst (handleRegenerate task s rv rr rc))) = true.
Proof.
  intros Hs. unfold handleRegenerate.
  destruct (selectedShot s) as [sel|]; [|done].
  destruct (editType s) as [ty|]; [|done].
  destruct (truthy (editPrompt s)); [|done].
  change (negb true) with false.
  destruct ty; cbv beta iota.
  - unfold submitRegeneration. by destruct rr.
  - destruct rv as [| |[u|]]; try done.
    unfold submitRegeneration. by destruct rr.
  - destruct (handleCaptionUpdate_flags task s rc) as [-> ->]. exact Hs.
  - unfold submitRegeneration. by destruct rr.
Qed.

Lemma shotTick_flag task s r :
  (hasRegeneratingShot s = true -> armed (pollingInterval s) = true) ->
  hasRegeneratingShot (fst (shotTick task s r)) = true ->
  armed (pollingInterval (fst (shotTick task s r))) = true.
Proof.
  intros Hs. unfold shotTick.
  destruct (armed (pollingInterval s)) eqn:Ha; [|simpl; by rewrite Ha].
  unfold checkShotStatus. destruct r as [| |[l|]]; simpl; try done.
  by intros ->.
Qed.

Lemma step_flag_implies_armed task s e :
  (hasRegeneratingShot s = true -> armed (pollingInterval s) = true) ->
  hasRegeneratingShot (fst (step task s e)) = true ->
  armed (pollingInterval (fst (step task s e))) = true.
Proof.
  intros Hs. destruct e as [shot ty|shot|ty| |text| |rv rr rc|ri ru|r].
  - exact Hs.
  - exact Hs.
  - simpl. unfold clickTrackEdit. by destruct (selectedShot s).
  - exact Hs.
  - exact Hs.
  - simpl. unfold promptEffect.
    by destruct (showEditDialog s), (selectedShot s), (editType s).
  - by apply handleRegenerate_flag.
  - change (fst (step task s (GenerateImageClicked ri ru)))
      with (fst (handleGenerateImage task s ri ru)).
    destruct (handleGenerateImage_flags task s ri ru) as [-> ->]. exact Hs.
  - by apply shotTick_flag.
Qed.

(** X12. Through any history of the editing part of the editor (dialogs
    opened and cancelled, typing, regenerations and image generations
    with any outcome, polling periods with any answers), whenever the
    regenerating flag is up the shot-status interval is armed: the
    Export button, which the flag disables, is never blocked without a
    poll that can lower the flag again.  A polling answer with a body
    sets the flag to what the new shots say, so right after it the
    global "Regenerating content" indicator is not shown. *)
Theorem regenerating_flag_implies_polling (task : VideoTask) (es : list Event) :
  let s := fst (run task (mounted task) es) in
  (hasRegeneratingShot s = true -> armed (pollingInterval s) = true)
  /\ (forall updatedShots,
        armed (pollingInterval s) = true ->
        let s' := fst (shotTick task s (Json (Some updatedShots))) in
        hasRegeneratingShot s' = existsb shotIncomplete (shots s')
        /\ showsGlobalIndicator s' = false).
Proof.
  intros s. split.
  - subst s.
    assert (H0 : hasRegeneratingShot (mounted task) = true ->
                 armed (pollingInterval (mounted task)) = true) by done.
    revert H0. generalize (mounted task).
    induction es as [|e es IH]; intros s0 H0; simpl; [done|].
    pose proof (step_flag_implies_armed task s0 e H0) as H1.
    destruct (step task s0 e) as [s1 e1]. simpl in H1.
    specialize (IH s1 H1). by destruct (run task s1 es).
  - intros updatedShots Ha s'. subst s'. unfold shotTick. rewrite Ha.
    unfold showsGlobalIndicator. simpl. split; [done|].
    by destruct (existsb shotIncomplete updatedShots).
Qed.

Lemma regenerating_flag_witness :
  armed (pollingInterval
           (fst (run Samples.demoTask (mounted Samples.demoTask)
                   [CardEdit (Samples.mkShot 0 "v0.mp4") video; PromptEffect;
                    Regenerate NotOk (Json None) NotOk;
                    ShotPeriod NetworkError]))) = true.
Proof.
  exact (proj1 (regenerating_flag_implies_polling Samples.demoTask
                  [CardEdit (Samples.mkShot 0 "v0.mp4") video; PromptEffect;
                   Regenerate NotOk (Json None) NotOk;
                   ShotPeriod NetworkError]) eq_refl).
Defined.

(** Does this answer end the shot loop? *)
Lemma shotTick_stops task s r :
  armed (pollingInterval s) = true ->
  let stops := match r with
               | Json (Some l) => negb (existsb shotIncomplete l)
               | _ => false
               end in
  armed (pollingInterval (fst (shotTick task s r))) = negb stops
  /\ length (List.filter isSuccessToast (snd (shotTick task s r)))
     = (if stops then 1 else 0)%nat
  /\ length (List.filter isSend (snd (shotTick task s r))) = 1%nat.
Proof.
  intros Ha stops. subst stops. unfold shotTick. rewrite Ha.
  unfold checkShotStatus.
  destruct r as [| |[l|]]; simpl; try (by rewrite Ha).
  destruct (existsb shotIncomplete l); simpl; [by rewrite Ha|].
  destruct (pollingInterval s); done.
Qed.

Lemma shotRun_stopped task rs : forall s,
  armed (pollingInterval s) = false -> shotRun task s rs = (s, []).
Proof.
  induction rs as [|r rs IH]; intros s Hs; simpl; [done|].
  unfold shotTick. rewrite Hs. by rewrite IH.
Qed.

(** X13. A shot-status loop that is running goes on, one request per
    period, through failed requests, empty bodies and answers in which
    some shot is regenerating, and ends at the first answer in which no
    shot is regenerating, whatever its other statuses are (a shot marked
    failed ends it too).  It shows the success toast then and only then,
    hence at most once, and sends nothing afterwards: the number of
    requests is the position of that answer, or the number of periods
    when there is none. *)
Theorem shot_loop_ends_at_first_settled_answer
    (task : VideoTask) (s : EditState) (rs : list (Response (list Shot))) :
  armed (pollingInterval s) = true ->
  let settled := fun r : Response (list Shot) =>
                   match r with
                   | Json (Some l) => negb (existsb shotIncomplete l)
                   | _ => false
                   end in
  let out := shotRun task s rs in
  armed (pollingInterval (fst out)) = negb (existsb settled rs)
  /\ length (List.filter isSuccessToast (snd out))
     = (if existsb settled rs then 1 else 0)%nat
  /\ length (List.filter isSend (snd out))
     = match findIndex settled rs with
       | Some k => S k
       | None => length rs
       end.
Proof.
  intros Ha settled. revert s Ha.
  induction rs as [|r rs IH]; intros s Ha; simpl.
  - by rewrite Ha.
  - destruct (shotTick_stops task s r Ha) as (H1 & H2 & H3). fold (settled r) in H1, H2.
    destruct (shotTick task s r) as [s1 e1] eqn:Ht. simpl in H1, H2, H3.
    destruct (settled r) eqn:Hr; simpl in *.
    + rewrite (shotRun_stopped task rs s1 H1). simpl.
      rewrite app_nil_r. by rewrite H2, H3.
    + specialize (IH s1 H1). destruct (shotRun task s1 rs) as [s2 e2]. simpl in *.
      destruct IH as (I1 & I2 & I3).
      rewrite !List.filter_app, !length_app, H2, H3, I1, I2, I3. simpl.
      split; [done|]. split; [done|]. by destruct (findIndex settled rs).
Qed.

Lemma shot_loop_witness :
  length (List.filter isSuccessToast
            (snd (shotRun Samples.demoTask
                    (fst (handleRegenerate Samples.demoTask
                            (Samples.editing video (ofString "a sunset"))
                            NotOk (Json None) NotOk))
                    [NotOk;
                     Json (Some [TaskStore.withRegeneration (ofString "a sunset")
                                   (ofString "Good morning") "v0.mp4" "/audio.mp3"
                                   (Some "failed") None (Samples.mkShot 0 "v0.mp4")]);
                     Json (Some [])]))) = 1%nat.
Proof.
  exact (proj1 (proj2 (shot_loop_ends_at_first_settled_answer Samples.demoTask
                         (fst (handleRegenerate Samples.demoTask
                                 (Samples.editing video (ofString "a sunset"))
                                 NotOk (Json None) NotOk))
                         [NotOk;
                          Json (Some [TaskStore.withRegeneration (ofString "a sunset")
                                        (ofString "Good morning") "v0.mp4" "/audio.mp3"
                                        (Some "failed") None (Samples.mkShot 0 "v0.mp4")]);
                          Json (Some [])]
                         eq_refl))).
Defined.

(** X14. Generate Image never starts or touches the shot polling and
    never asks for a regeneration.  It does nothing without a selected
    shot or with an empty prompt.  Otherwise it first asks for the image,
    and it asks to update the shot exactly when that request answered
    with a body, for the order of the selected shot and with whatever
    URL the body carries: an answer without a URL is not taken as a
    failure, the update is then sent without a URL, and when the update
    answers with a body the success toast is shown all the same.  The
    local shots change only when the update answers with a body, in
    which case they become the shots of the answer.  An error toast is
    shown exactly when a request was rejected or not ok, or the image
    request answered with an empty body; the generating flag is down at
    the end. *)
Theorem generate_image_is_a_direct_update
    (task : VideoTask) (s : EditState) (ri : Response (option string))
    (ru : Response (list Shot)) :
  let s' := fst (handleGenerateImage task s ri ru) in
  let effs := snd (handleGenerateImage task s ri ru) in
  pollingInterval s' = pollingInterval s
  /\ hasRegeneratingShot s' = hasRegeneratingShot s
  /\ existsb isSetInterval effs = false
  /\ existsb isRegenerateShot effs = false
  /\ (selectedShot s = None \/ editPrompt s = [] -> s' = s /\ effs = [])
  /\ (forall sel, selectedShot s = Some sel -> truthy (editPrompt s) = true ->
        head effs = Some (Send (GenerateImage (editPrompt s) (currentStyle s)))
        /\ isGeneratingImage s' = false
        /\ (forall o u, In (Send (UpdateShot (task_id task) o u)) effs <->
              ri = Json (Some u) /\ o = order sel)
        /\ shots s' = match ri, ru with
                      | Json (Some _), Json (Some updatedShots) => updatedShots
                      | _, _ => shots s
                      end
        /\ existsb isToastError effs
           = failed ri || match ri with Json None => true | _ => false end
             || match ri with Json (Some _) => failed ru | _ => false end
        /\ (forall updatedShots,
              ri = Json (Some None) -> ru = Json (Some updatedShots) ->
              effs = [Send (GenerateImage (editPrompt s) (currentStyle s));
                      Send (UpdateShot (task_id task) (order sel) None);
                      ToastSuccess "Starting image generated successfully"])).
Proof.
  intros s' effs. subst s' effs.
  destruct (handleGenerateImage_flags task s ri ru) as [Hf Hp].
  split; [done|]. split; [done|].
  unfold handleGenerateImage.
  destruct (selectedShot s) as [sel|] eqn:Hsel;
    [destruct (truthy (editPrompt s)) eqn:Ht;
     [destruct ri as [| |[u|]]; [| |destruct ru as [| |[l|]]|]|]|];
    simpl;
    repeat match goal with
           | |- _ /\ _ => split
           | |- _ <-> _ => split
           | |- forall _, _ => intro
           | H : _ \/ _ |- _ => destruct H
           | H : _ /\ _ |- _ => destruct H
           | H : False |- _ => destruct H
           | H : Some _ = Some _ |- _ => injection H as ?; subst
           | H : Json _ = Json _ |- _ => injection H as ?; subst
           | H : In _ _ |- _ => simpl in H
           | H : Send _ = Send _ |- _ => injection H as ?; subst
           | H : editPrompt s = [] |- _ => rewrite H in Ht; discriminate Ht
           end;
    try done; try congruence; try (right; left; reflexivity).
Qed.

Lemma generate_image_witness :
  snd (handleGenerateImage Samples.demoTask
         (Samples.editing image (ofString "a harbour"))
         (Json (Some None)) (Json (Some (task_shots Samples.demoTask))))
  = [Send (GenerateImage (ofString "a harbour") "realistic");
     Send (UpdateShot "t1" 0 None);
     ToastSuccess "Starting image generated successfully"].
Proof.
  destruct (generate_image_is_a_direct_update Samples.demoTask
              (Samples.editing image (ofString "a harbour"))
              (Json (Some None))
              (Json (Some (task_shots Samples.demoTask))))
    as (_ & _ & _ & _ & _ & H).
  destruct (H (Samples.mkShot 0 "v0.mp4") eq_refl eq_refl)
    as (_ & _ & _ & _ & _ & Hu).
  exact (Hu (task_shots Samples.demoTask) eq_refl eq_refl).
Defined.

(** Only the Regenerate handler hands a callback to [setInterval]. *)
Lemma step_keeps_intervalShot task s e :
  isRegenerateEvent e = false ->
  intervalShot (fst (step task s e)) = intervalShot s.
Proof.
  intros He. destruct e; try done; simpl.
  - unfold clickTrackEdit. by destruct (selectedShot s).
  - unfold promptEffect.
    by destruct (showEditDialog s), (selectedShot s), (editType s).
  - unfold handleGenerateImage.
    destruct (selectedShot s); [|done].
    destruct (truthy (editPrompt s)); [|done].
    destruct ri as [| |[u|]]; try done.
    by destruct ru as [| |[l|]].
  - unfold shotTick. destruct (armed (pollingInterval s)); [|done].
    by destruct r as [| |[l|]].
Qed.

Lemma run_keeps_intervalShot task es : forall s,
  forallb (fun e => negb (isRegenerateEvent e)) es = true ->
  intervalShot (fst (run task s es)) = intervalShot s.
Proof.
  induction es as [|e es IH]; intros s Hes; [done|].
  simpl in Hes. apply andb_true_iff in Hes as [He Hes].
  apply negb_true_iff in He.
  simpl. pose proof (step_keeps_intervalShot task s e He) as Hstep.
  destruct (step task s e) as [s1 e1]. simpl in Hstep.
  specialize (IH s1 Hes). destruct (run task s1 es) as [s2 e2].
  simpl in *. congruence.
Qed.

(** X25. The status callback that the interval runs is the one of the
    render in which Regenerate was clicked, and it keeps the selection of
    that render.  So after an accepted regeneration of a shot, whatever
    the user does next short of another Regenerate (selecting another
    shot, opening and cancelling dialogs, typing, generating an image),
    every polling answer that holds a shot with the order of the
    regenerated shot selects that shot again; an answer without such a
    shot leaves the selection as it is. *)
Theorem poll_reselects_the_regenerated_shot
    (task : VideoTask) (s : EditState) (sel : Shot) (ty : EditType)
    (rv : Response (option string)) (rr : Response unit)
    (rc : Response (list Shot)) (es : list Event) (updatedShots : list Shot) :
  selectedShot s = Some sel ->
  editType s = Some ty ->
  ty <> caption ->
  truthy (editPrompt s) = true ->
  voiceoverOk ty rv = true ->
  failed rr = false ->
  forallb (fun e => negb (isRegenerateEvent e)) es = true ->
  let s1 := fst (handleRegenerate task s rv rr rc) in
  let s2 := fst (run task s1 es) in
  armed (pollingInterval s1) = true
  /\ intervalShot s2 = Some sel
  /\ (armed (pollingInterval s2) = true ->
      selectedShot (fst (shotTick task s2 (Json (Some updatedShots))))
      = match find (fun shot => (order shot =? order sel)%Z) updatedShots with
        | Some updatedSelectedShot => Some updatedSelectedShot
        | None => selectedShot s2
        end).
Proof.
  intros Hsel Hty Hnc Hp Hv Hr Hes s1 s2.
  assert (H1 : armed (pollingInterval s1) = true /\ intervalShot s1 = Some sel).
  { subst s1.
    rewrite (EditorFacts.handleRegenerate_media task s rv rr rc sel ty
               Hsel Hty Hp Hnc), Hv.
    unfold submitRegeneration. destruct rr as [| |b]; [done|done|].
    simpl. by split. }
  destruct H1 as [Ha Hi]. split; [done|].
  assert (Hi2 : intervalShot s2 = Some sel)
    by (subst s2; by rewrite run_keeps_intervalShot).
  split; [done|]. intros Ha2.
  unfold shotTick. rewrite Ha2. simpl.
  unfold polledSelection. by rewrite Hi2.
Qed.

Lemma poll_reselect_witness :
  selectedShot
    (fst (shotTick Samples.demoTask
            (fst (run Samples.demoTask
                    (fst (handleRegenerate Samples.demoTask
                            (Samples.editing video (ofString "a sunset"))
                            NotOk (Json None) NotOk))
                    [CardEdit (Samples.mkShot 1 "v1.mp4") caption; PromptEffect]))
            (Json (Some (task_shots Samples.demoTask)))))
  = Some (Samples.mkShot 0 "v0.mp4").
Proof.
  destruct (poll_reselects_the_regenerated_shot Samples.demoTask
              (Samples.editing video (ofString "a sunset"))
              (Samples.mkShot 0 "v0.mp4") video NotOk (Json None) NotOk
              [CardEdit (Samples.mkShot 1 "v1.mp4") caption; PromptEffect]
              (task_shots Samples.demoTask)
              eq_refl eq_refl ltac:(discriminate) eq_refl eq_refl eq_refl eq_refl)
    as (_ & _ & H).
  exact (H eq_refl).
Defined.

End EditDialogFacts.

(** ** Facts about the "Send to Audience" dialog *)

Module AudienceFacts.
Import Audience.

Lemma listed_spec l email : listed l email = true <-> email ∈ l.
Proof.
  unfold listed. rewrite existsb_exists. split.
  - intros (e & Hin & He). apply String.eqb_eq in He as ->. by apply list_elem_of_In.
  - intros Hin. exists email. split; [by apply list_elem_of_In | apply String.eqb_refl].
Qed.

Lemma NoDup_filter_list {A} (p : A -> bool) (l : list A) :
  NoDup l -> NoDup (List.filter p l).
Proof.
  induction 1 as [|x l Hx Hl IH]; simpl; [constructor|].
  destruct (p x); [|done]. constructor; [|done].
  rewrite list_elem_of_In, filter_In, <- list_elem_of_In. tauto.
Qed.

Lemma step_tidy content s e : tidy s -> tidy (fst (step content s e)).
Proof.
  intros [Hnd Hne]. destruct e as [text| |email|checked|sent]; simpl; try done.
  - unfold handleAddEmail.
    destruct (newEmail s =? "")%string eqn:He; simpl; [done|].
    destruct (listed (emails s) (newEmail s)) eqn:Hl; simpl; [done|].
    apply String.eqb_neq in He.
    assert (Hnot : newEmail s ∉ emails s).
    { intros Hin. apply listed_spec in Hin. congruence. }
    split.
    + apply NoDup_app. split; [done|]. split; [|apply NoDup_singleton].
      intros x Hx Hx'. apply list_elem_of_singleton in Hx' as ->. done.
    + simpl. intros [H|H]%elem_of_app; [done|].
      apply list_elem_of_singleton in H. congruence.
  - split; simpl.
    + by apply NoDup_filter_list.
    + rewrite list_elem_of_In, filter_In, <- list_elem_of_In. tauto.
  - unfold clickSend. destruct (sendDisabled s); [done|].
    unfold handleSend. destruct sent; simpl; [|done].
    split; [constructor | apply not_elem_of_nil].
Qed.

Lemma step_wellAddressed content s e :
  tidy s -> Forall wellAddressed (snd (step content s e)).
Proof.
  intros [Hnd Hne]. destruct e as [text| |email|checked|sent]; simpl; try constructor.
  unfold clickSend. destruct (sendDisabled s) eqn:Hd; [constructor|].
  assert (Hto : useFirstImpress s = true \/ emails s <> []).
  { unfold sendDisabled in Hd. apply orb_false_iff in Hd as [_ Hd].
    destruct (useFirstImpress s); [by left|]. right. simpl in Hd.
    by destruct (emails s). }
  unfold handleSend.
  destruct sent; simpl; (constructor; [by repeat split|]);
    (constructor; [exact I|constructor]).
Qed.

(** X15. Through anything the user does in the dialog (typing, adding,
    removing, ticking the box, sending with either outcome), the list of
    recipients never holds an address twice nor the empty address; and
    every call of the send action that the dialog makes carries such a
    list and reaches somebody: the audience box is ticked or the list is
    not empty. *)
Theorem recipients_stay_distinct (content : string) (es : list Event) :
  let out := run content initial es in
  NoDup (emails (fst out))
  /\ ("" ∉ emails (fst out))
  /\ Forall wellAddressed (snd out).
Proof.
  intros out. subst out.
  assert (H0 : tidy initial) by (split; [constructor | apply not_elem_of_nil]).
  revert H0. generalize initial.
  induction es as [|e es IH]; intros s Hs; simpl.
  - destruct Hs. split; [done|]. split; [done|constructor].
  - pose proof (step_tidy content s e Hs) as H1.
    pose proof (step_wellAddressed content s e Hs) as H2.
    destruct (step content s e) as [s1 e1]. simpl in *.
    specialize (IH s1 H1). destruct (run content s1 es) as [s2 e2]. simpl in *.
    destruct IH as (I1 & I2 & I3). repeat split; try done.
    by apply Forall_app.
Qed.

(** X16. Adding puts the typed address at the end of the list and clears
    the input exactly when the address is not empty and not yet listed;
    otherwise nothing changes, the input included.  Removing an address
    leaves none of its occurrences and keeps the others in their order.
    Removing an address that was just added gives back the list as it
    was. *)
Theorem add_then_remove_restores_list (s : State) (email : string) :
  let typed := setNewEmail email s in
  (email <> "" -> email ∉ emails s ->
   emails (handleAddEmail typed) = emails s ++ [email]
   /\ newEmail (handleAddEmail typed) = ""
   /\ emails (handleRemoveEmail email (handleAddEmail typed)) = emails s)
  /\ (email = "" \/ email ∈ emails s -> handleAddEmail typed = typed)
  /\ (email ∉ emails (handleRemoveEmail email s))
  /\ (forall other, other <> email ->
        (other ∈ emails (handleRemoveEmail email s) <-> other ∈ emails s))
  /\ emails (handleRemoveEmail email s) `sublist_of` emails s.
Proof.
  intros typed. subst typed. split; [|split; [|split; [|split]]].
  - intros Hne Hnot. unfold handleAddEmail. simpl.
    apply String.eqb_neq in Hne. rewrite Hne.
    assert (Hl : listed (emails s) email = false).
    { destruct (listed (emails s) email) eqn:Hl; [|done].
      apply listed_spec in Hl. done. }
    rewrite Hl. simpl. split; [done|]. split; [done|].
    rewrite List.filter_app. simpl. rewrite String.eqb_refl. simpl.
    rewrite app_nil_r. apply DashboardViewFacts.filter_all_true.
    intros e He. apply negb_true_iff, String.eqb_neq. intros ->. done.
  - intros [->|Hin]; unfold handleAddEmail; simpl; [done|].
    apply listed_spec in Hin. rewrite Hin. by rewrite andb_false_r.
  - simpl. rewrite list_elem_of_In, filter_In, negb_true_iff, String.eqb_neq. tauto.
  - intros other Hne. simpl.
    rewrite !list_elem_of_In, filter_In, negb_true_iff, String.eqb_neq. tauto.
  - apply DashboardViewFacts.filter_sublist.
Qed.

Lemma add_remove_witness :
  emails (handleRemoveEmail "b@x.org"
            (handleAddEmail (setNewEmail "b@x.org"
                               (handleAddEmail (setNewEmail "a@x.org" initial)))))
  = ["a@x.org"].
Proof.
  refine (proj2 (proj2 (proj1 (add_then_remove_restores_list
                                 (handleAddEmail (setNewEmail "a@x.org" initial))
                                 "b@x.org") _ _))).
  - discriminate.
  - intros Hin. apply list_elem_of_singleton in Hin. discriminate Hin.
Defined.

(** X17. A send that succeeds asks the parent to close the dialog,
    empties the list, unticks the audience box, and leaves the Send
    button disabled until a recipient is chosen again.  A send that
    fails only logs the error: the dialog is not closed and the list and
    the box are kept, so the same send can be tried again.  Either way
    the action was called once, with the recipients and the box as they
    were, and the sending flag is down at the end. *)
Theorem send_outcomes (content : string) (sent : bool) (s : State) :
  let s' := fst (handleSend content sent s) in
  let effs := snd (handleSend content sent s) in
  head effs = Some (CallSendToAudience (emails s) (useFirstImpress s) content)
  /\ length effs = 2%nat
  /\ isSending s' = false
  /\ (sent = true ->
      emails s' = [] /\ useFirstImpress s' = false
      /\ In (OnOpenChange false) effs
      /\ sendDisabled s' = true
      /\ forall again, clickSend content again s' = (s', []))
  /\ (sent = false ->
      emails s' = emails s /\ useFirstImpress s' = useFirstImpress s
      /\ (forall open, ~ In (OnOpenChange open) effs)
      /\ (sendDisabled s = false ->
          sendDisabled s' = false
          /\ head (snd (clickSend content true s'))
             = Some (CallSendToAudience (emails s) (useFirstImpress s) content))).
Proof.
  intros s' effs. subst s' effs. unfold handleSend.
  destruct sent; simpl.
  - split; [done|]. split; [done|]. split; [done|]. split.
    + intros _. repeat split; try done. by right; left.
    + intros Hf; discriminate Hf.
  - split; [done|]. split; [done|]. split; [done|]. split.
    + intros Hf; discriminate Hf.
    + intros _. split; [done|]. split; [done|]. split.
      * intros open [Hin|[Hin|Hin]]; done.
      * intros Hd. unfold clickSend, sendDisabled in *. simpl.
        apply orb_false_iff in Hd as [_ Hd]. by rewrite Hd.
Qed.

Lemma send_witness :
  sendDisabled
    (fst (handleSend "hello" true
            (handleAddEmail (setNewEmail "a@x.org" initial)))) = true.
Proof.
  destruct (send_outcomes "hello" true (handleAddEmail (setNewEmail "a@x.org" initial)))
    as (_ & _ & _ & H & _).
  exact (proj1 (proj2 (proj2 (proj2 (H eq_refl))))).
Defined.

End AudienceFacts.

(** ** Facts about the banner templates *)

Module TemplatesFacts.
Import Browser JsString Templates.

Lemma scan_skip data n : forall s, scan data n s = scan data 0 (drop n s).
Proof.
  induction n as [|n IH]; intros s; [by rewrite drop_0|].
  destruct s as [|c s]; [done|]. simpl. apply IH.
Qed.

Lemma wordRun_key key rest :
  forallb isWordChar key = true ->
  wordRun (key ++ closeBrace :: rest) = key.
Proof.
  induction key as [|c key IH]; simpl; [done|].
  intros [Hc Hk]%andb_true_iff. by rewrite Hc, IH.
Qed.

Lemma placeholderAt_placeholder key rest :
  key <> [] -> forallb isWordChar key = true ->
  placeholderAt (placeholder key ++ rest) = Some (key, (length key + 4)%nat).
Proof.
  intros Hne Hw. unfold placeholder, placeholderAt. simpl.
  rewrite <- app_assoc. simpl.
  rewrite (wordRun_key key (closeBrace :: rest) Hw).
  destruct key as [|c key]; [done|].
  change (S (length key)) with (length (c :: key)).
  by rewrite drop_app_length.
Qed.

Lemma scan_cons data c s :
  scan data 0 (c :: s)
  = match placeholderAt (c :: s) with
    | Some (key, len) => valueOf data key ++ scan data (len - 1) s
    | None => c :: scan data 0 s
    end.
Proof. done. Qed.

(** A placeholder is replaced by its value and the scan resumes right
    after it. *)
Lemma render_placeholder data key rest :
  key <> [] -> forallb isWordChar key = true ->
  renderTemplate (placeholder key ++ rest) data
  = valueOf data key ++ renderTemplate rest data.
Proof.
  intros Hne Hw. unfold renderTemplate.
  pose proof (placeholderAt_placeholder key rest Hne Hw) as Hp.
  assert (Hs : placeholder key ++ rest
               = openBrace :: (openBrace :: key ++ closeBrace :: closeBrace :: rest)).
  { unfold placeholder. simpl. by rewrite <- app_assoc. }
  rewrite Hs in *. rewrite scan_cons, Hp. f_equal.
  rewrite scan_skip. f_equal.
  replace (length key + 4 - 1)%nat with (S (length key + 2)) by lia.
  change (drop (S (length key + 2)) (openBrace :: ?l)) with (drop (length key + 2) l).
  rewrite drop_app_ge by lia.
  by replace (length key + 2 - length key)%nat with 2%nat by lia.
Qed.

Lemma render_literal data c s :
  placeholderAt (c :: s) = None ->
  renderTemplate (c :: s) data = c :: renderTemplate s data.
Proof. intros H. unfold renderTemplate. by rewrite scan_cons, H. Qed.

Lemma placeholderAt_no_double c s :
  noDoubleOpen (c :: s) = true -> placeholderAt (c :: s) = None.
Proof.
  destruct s as [|c2 s]; [done|].
  simpl. intros [H _]%andb_true_iff. apply negb_true_iff in H.
  unfold placeholderAt. by rewrite H.
Qed.

Lemma placeholderAt_before_placeholder c pre key rest :
  noDoubleOpen (c :: pre) = true ->
  placeholderAt (c :: pre ++ placeholder key ++ rest) = None.
Proof.
  destruct pre as [|c2 pre].
  - intros _. unfold placeholder, placeholderAt. simpl.
    destruct (c =? openBrace)%N; simpl; [|done].
    by destruct key.
  - simpl. intros [H _]%andb_true_iff. apply negb_true_iff in H.
    unfold placeholderAt. by rewrite H.
Qed.

Lemma noDoubleOpen_tail c s : noDoubleOpen (c :: s) = true -> noDoubleOpen s = true.
Proof. simpl. by intros [_ H]%andb_true_iff. Qed.

(** X18. In a template whose text up to a placeholder has no two opening
    braces in a row, that text is copied as it is (single braces, as in
    style rules, included), the placeholder, two opening braces, a key of
    letters, digits and underscores, two closing braces, is replaced by
    the value of the key, or by nothing when the data has none, and
    rendering goes on after the placeholder: what a value contains is
    never read as a placeholder again. *)
Theorem placeholder_is_replaced_by_its_value
    (data : jsstr -> option jsstr) (pre key post : jsstr) :
  noDoubleOpen pre = true ->
  key <> [] ->
  forallb isWordChar key = true ->
  renderTemplate (pre ++ placeholder key ++ post) data
  = pre ++ valueOf data key ++ renderTemplate post data
  /\ (data key = None ->
      renderTemplate (pre ++ placeholder key ++ post) data
      = pre ++ renderTemplate post data).
Proof.
  intros Hpre Hne Hw.
  assert (H : renderTemplate (pre ++ placeholder key ++ post) data
              = pre ++ valueOf data key ++ renderTemplate post data).
  { induction pre as [|c pre IH]; simpl.
    - by apply render_placeholder.
    - rewrite render_literal by (by apply placeholderAt_before_placeholder).
      f_equal. apply IH. by apply noDoubleOpen_tail in Hpre. }
  split; [done|]. intros Hnone. rewrite H. unfold valueOf. by rewrite Hnone.
Qed.

Lemma placeholder_witness :
  renderTemplate (ofString "a{b}{{title}}!")
    (fun key => if bool_decide (key = ofString "title")
                then Some (ofString "{{x}}") else None)
  = ofString "a{b}{{x}}!".
Proof.
  exact (proj1 (placeholder_is_replaced_by_its_value
                  (fun key => if bool_decide (key = ofString "title")
                              then Some (ofString "{{x}}") else None)
                  (ofString "a{b}") (ofString "title") (ofString "!")
                  eq_refl ltac:(discriminate) eq_refl)).
Defined.

(** X19. A template without two opening braces in a row is rendered as it
    is, whatever the data. *)
Theorem template_without_placeholders_is_unchanged
    (data : jsstr -> option jsstr) (template : jsstr) :
  noDoubleOpen template = true -> renderTemplate template data = template.
Proof.
  induction template as [|c s IH]; intros H; [done|].
  rewrite render_literal by (by apply placeholderAt_no_double).
  f_equal. apply IH. by apply noDoubleOpen_tail in H.
Qed.

Lemma template_unchanged_witness :
  renderTemplate (ofString ".box { color: red } {x}") (fun _ => Some (ofString "!"))
  = ofString ".box { color: red } {x}".
Proof.
  exact (template_without_placeholders_is_unchanged (fun _ => Some (ofString "!"))
           (ofString ".box { color: red } {x}") eq_refl).
Defined.

(** X20. Every template of the table is found by its own id, so no entry
    is shadowed by another one; a template that is found has the id that
    was asked for and is an entry of the table; and an id that no entry
    carries finds nothing. *)
Theorem every_template_is_found_by_its_id (html : string -> jsstr) (templateId : string) :
  (forall t, t ∈ bannerTemplates html -> getTemplate html (id t) = Some t)
  /\ (forall t, getTemplate html templateId = Some t ->
        t ∈ bannerTemplates html /\ id t = templateId)
  /\ (getTemplate html templateId = None <->
      templateId ∉ map id (bannerTemplates html))
  /\ length (bannerTemplates html) = 13%nat.
Proof.
  split; [|split; [|split]].
  - intros t Ht. unfold bannerTemplates in Ht.
    repeat (apply elem_of_cons in Ht as [->|Ht]; [reflexivity|]).
    inversion Ht.
  - intros t Ht. unfold getTemplate in Ht.
    apply DashboardViewFacts.find_Some in Ht as [Hin Hid].
    apply String.eqb_eq in Hid. done.
  - unfold getTemplate. split.
    + intros Hnone Hin.
      change (map id (bannerTemplates html)) with (id <$> bannerTemplates html) in Hin.
      apply list_elem_of_fmap in Hin as (t & -> & Hin).
      generalize dependent (bannerTemplates html). intros l.
      induction l as [|x l IH]; simpl; intros Hnone Hin; [inversion Hin|].
      destruct (id x =? id t)%string eqn:Hx; [done|].
      apply elem_of_cons in Hin as [->|Hin]; [by rewrite String.eqb_refl in Hx|].
      by apply IH.
    + intros Hnot. destruct (find _ _) as [t|] eqn:Hf; [|done].
      apply DashboardViewFacts.find_Some in Hf as [Hin Hid].
      apply String.eqb_eq in Hid. exfalso. apply Hnot.
      change (map id (bannerTemplates html)) with (id <$> bannerTemplates html).
      apply list_elem_of_fmap. eauto.
  - done.
Qed.

End TemplatesFacts.

(** ** Export, preview and labels on a sorted shot list *)

Module TimingFacts.
Import Browser Editor Timeline ExportFlow.

Lemma positional_order l i shot :
  ordersPositional l -> l !! i = Some shot -> order shot = Z.of_nat i.
Proof.
  intros Hp Hi.
  assert (Ho : map order l !! i = Some (order shot))
    by (change (map order l) with (order <$> l); by rewrite list_lookup_fmap, Hi).
  rewrite Hp in Ho. apply lookup_seqZ in Ho as [-> _]. lia.
Qed.

(** X21. When the shots are sorted, the shot at position [i] having order
    [i], all four computations of a shot's place in time agree: its
    export keyframes in the video and the voiceover track start at order
    times 5000 ms and last 5000 ms, which is the start and the length of
    its preview sequence at 30 frames per second, the second its
    timeline track seeks to, and the start of its label.  The keyframes
    carry the shot's own video and its voiceover behind the API URL. *)
Theorem export_matches_preview_when_sorted
    (apiUrl : string) (l : list Shot) (i : nat) (shot : Shot) :
  ordersPositional l ->
  l !! i = Some shot ->
  ordersContiguous l
  /\ exists v a,
       keyframes (videoTrack l) !! i = Some v
       /\ keyframes (voiceoverTrack apiUrl l) !! i = Some a
       /\ url v = video_url shot
       /\ url a = apiUrl +:+ voiceover_url shot
       /\ timestamp v = (order shot * 5000)%Z
       /\ timestamp a = timestamp v
       /\ duration v = 5000%Z /\ duration a = 5000%Z
       /\ (timestamp v * fps = sequenceFrom shot * 1000)%Z
       /\ (duration v * fps = sequenceFrames * 1000)%Z
       /\ (timestamp v = trackStart shot * 1000)%Z
       /\ (timestamp v = labelStart i * 1000)%Z
       /\ (timestamp v + duration v = labelEnd i * 1000)%Z.
Proof.
  intros Hp Hi.
  pose proof (positional_order l i shot Hp Hi) as Ho.
  split.
  - unfold ordersContiguous. by rewrite Hp.
  - destruct (ExportFacts.keyframe_by_position apiUrl l i shot Hi) as [Hv Ha].
    eexists _, _. split; [exact Hv|]. split; [exact Ha|]. simpl.
    unfold fps, sequenceFrom, sequenceFrames, trackStart, labelEnd, labelStart.
    rewrite Ho. repeat split; lia.
Qed.

Lemma export_preview_witness :
  Timeline.ordersContiguous (task_shots Samples.demoTask).
Proof.
  exact (proj1 (export_matches_preview_when_sorted "http://api"
                  (task_shots Samples.demoTask) 1 (Samples.mkShot 1 "v1.mp4")
                  eq_refl eq_refl)).
Defined.

End TimingFacts.

(** ** The download helper *)

Module DownloadFacts.
Import Download.

(** X22. Every call of [downloadMedia] ends in exactly one of two ways.
    Either the blob was obtained: then the hidden link is clicked once,
    with the given file name and a blob that fits the request (the
    fetched body whatever the response's status, or the captured buffer
    with the MIME type of the requested medium), no alert is shown and no
    tab is opened.  Or it was not: then nothing is clicked, exactly one
    alert is shown, and a new tab is opened exactly for URL content, on
    that URL. *)
Theorem download_clicks_once_or_alerts_once
    (w : World) (ty : MediaType) (filename : string) (content : Content) :
  let t := downloadMedia w ty filename content in
  (exists b, obtain w ty content = Some b
             /\ fits ty content b
             /\ clicks t = [(b, filename)]
             /\ alerts t = [] /\ opened t = [])
  \/ (obtain w ty content = None
      /\ clicks t = []
      /\ length (alerts t) = 1
      /\ opened t = match content with Url href => [href] | Page _ _ => [] end
      /\ head t = Some (ConsoleError ty)).
Proof.
  unfold downloadMedia.
  destruct (obtain w ty content) as [b|] eqn:Hb; cbv zeta.
  - left. exists b. repeat split; try done.
    unfold obtain in Hb.
    destruct content as [href|html url].
    + destruct (fetch w href) as [r|]; [|done].
      destruct (blob r); [|done]. by injection Hb as <-.
    + destruct ty.
      * destruct (captureScreenshot w html); [|done]. by injection Hb as <-.
      * destruct (captureVideo w html); [|done]. by injection Hb as <-.
  - right. destruct content as [href|html url]; simpl.
    + by destruct (windowOpen w href).
    + done.
Qed.

End DownloadFacts.

(** ** The slide deck export *)

Module SlidesFacts.
Import Slides.

Section Rendering.
Variable Element : Type.
Variable querySelector : Z -> option Element.
Variable html2canvas : Element -> string -> option string.

(** Past index 0, every rendered slide opens a page of its own. *)
Lemma renderFrom_later bg i slides ops pdf :
  (0 < i)%nat ->
  renderFrom querySelector html2canvas bg i slides = Some ops ->
  pages (foldl apply pdf ops)
  = pages pdf
    ++ ((fun img => [img])
          <$> omap (canvasOf querySelector html2canvas bg) slides).
Proof.
  intros Hi. revert i Hi ops pdf.
  induction slides as [|slide rest IH]; intros i Hi ops pdf Hr.
  - injection Hr as <-. simpl. by rewrite app_nil_r.
  - simpl in Hr. simpl. unfold canvasOf at 1.
    destruct (querySelector (order slide)) as [el|].
    + destruct (html2canvas el bg) as [img|]; [|done].
      destruct (renderFrom querySelector html2canvas bg (S i) rest)
        as [ops'|] eqn:Hrest; [|done].
      injection Hr as <-.
      destruct (Nat.ltb_spec 0 i) as [_|]; [|lia].
      simpl. rewrite (IH (S i) ltac:(lia) ops' _ Hrest).
      unfold pages. simpl. by rewrite <- !app_assoc.
    + by apply (IH (S i)); [lia|].
Qed.

Lemma renderFrom_fails bg i slides :
  renderFrom querySelector html2canvas bg i slides = None
  <-> existsb (breaks querySelector html2canvas bg) slides = true.
Proof.
  revert i. induction slides as [|slide rest IH]; intros i; simpl.
  - split; discriminate.
  - unfold breaks at 1.
    destruct (querySelector (order slide)) as [el|]; [|apply IH].
    destruct (html2canvas el bg) as [img|]; [|done].
    simpl. rewrite <- (IH (S i)).
    destruct (renderFrom querySelector html2canvas bg (S i) rest);
      split; intros; done.
Qed.

Lemma canvases_of_mounted bg slides :
  existsb (breaks querySelector html2canvas bg) slides = false ->
  length (omap (canvasOf querySelector html2canvas bg) slides)
  = length (List.filter (mounted querySelector) slides).
Proof.
  induction slides as [|slide rest IH]; [done|].
  simpl. intros Hok. apply orb_false_iff in Hok as [Hb Hrest].
  unfold canvasOf at 1, mounted at 1. unfold breaks in Hb.
  destruct (querySelector (order slide)) as [el|]; [|by apply IH].
  destruct (html2canvas el bg); [|done]. simpl. f_equal. by apply IH.
Qed.

(** X23. The layout of the saved slide deck.  When [downloadAllSlides]
    saves, the file is all-slides.pdf and its pages are, in slide order,
    the canvases of the slides that are mounted in the page, one image on
    each page, with one exception: a new document starts with one page
    and only the slide at index 0 draws on it, so when that slide is not
    mounted (or there is no slide at all) the deck starts with a blank
    page. *)
Theorem saved_deck_layout
    (slides : list Slide) (theme : Theme) (backgroundColor : option string)
    (file : string) (ops : list PdfOp) :
  downloadAllSlides querySelector html2canvas slides theme backgroundColor
  = Saved file ops ->
  let bg := backgroundOf backgroundColor theme in
  let images := omap (canvasOf querySelector html2canvas bg) slides in
  let sheets := (fun img => [img]) <$> images in
  file = "all-slides.pdf"
  /\ length images = length (List.filter (mounted querySelector) slides)
  /\ pages (document ops)
     = match slides with
       | first :: _ =>
           if mounted querySelector first then sheets else [] :: sheets
       | [] => [[]]
       end.
Proof.
  intros Hs bg images sheets. unfold downloadAllSlides in Hs.
  destruct (renderFrom querySelector html2canvas
              (backgroundOf backgroundColor theme) 0 slides)
    as [ops'|] eqn:Hr; [|done].
  injection Hs as <- <-. fold bg in Hr.
  split; [done|]. split.
  - apply canvases_of_mounted.
    destruct (existsb (breaks querySelector html2canvas bg) slides) eqn:He;
      [|done].
    apply (renderFrom_fails bg 0) in He. congruence.
  - unfold document. subst sheets images. destruct slides as [|first rest].
    + by injection Hr as <-.
    + simpl in Hr. simpl. unfold mounted.
      change (canvasOf querySelector html2canvas bg first)
        with (match querySelector (order first) with
              | Some slideElement => html2canvas slideElement bg
              | None => None
              end).
      destruct (querySelector (order first)) as [el|].
      * destruct (html2canvas el bg) as [img|]; [|done].
        destruct (renderFrom querySelector html2canvas bg 1 rest)
          as [ops''|] eqn:Hrest; [|done].
        injection Hr as <-. simpl.
        rewrite (renderFrom_later bg 1 rest ops'' _ ltac:(lia) Hrest).
        reflexivity.
      * rewrite (renderFrom_later bg 1 rest ops' _ ltac:(lia) Hr).
        reflexivity.
Qed.

(** X24. The slide deck is saved unless a mounted slide fails to render:
    [downloadAllSlides] ends in its error branch, with nothing saved,
    exactly when some slide has an element in the page whose
    [html2canvas] promise rejects.  Slides without an element never make
    it fail. *)
Theorem deck_fails_exactly_on_a_broken_slide
    (slides : list Slide) (theme : Theme) (backgroundColor : option string) :
  downloadAllSlides querySelector html2canvas slides theme backgroundColor
  = Failed
  <-> exists slide,
        slide ∈ slides
        /\ breaks querySelector html2canvas
             (backgroundOf backgroundColor theme) slide = true.
Proof.
  unfold downloadAllSlides.
  pose proof (renderFrom_fails (backgroundOf backgroundColor theme) 0 slides)
    as Hf.
  rewrite existsb_exists in Hf.
  destruct (renderFrom querySelector html2canvas
              (backgroundOf backgroundColor theme) 0 slides).
  - split; [done|]. intros (slide & Hin & Hb).
    destruct Hf as [_ Hf]. discriminate Hf.
    exists slide. by rewrite <- list_elem_of_In.
  - split; [|done]. intros _. destruct Hf as [Hf _].
    destruct (Hf eq_refl) as (slide & Hin & Hb).
    exists slide. by rewrite list_elem_of_In.
Qed.

End Rendering.

Lemma saved_deck_witness :
  pages (document [AddPage; AddImage "one"; AddPage; AddImage "two"])
  = [[]; ["one"]; ["two"]].
Proof.
  exact (proj2 (proj2 (saved_deck_layout Z SlideSamples.demoSelector
                         SlideSamples.demoCanvas SlideSamples.demoSlides dark None
                         "all-slides.pdf"
                         [AddPage; AddImage "one"; AddPage; AddImage "two"]
                         eq_refl))).
Defined.

End SlidesFacts.
